(** * basalt-nbt: the NBT binary codec and the SNBT reader, embedded in Rocq

    The development follows the TypeScript sources:
    - [tags.ts]        the tag classes ([Tag], [CompoundTag], ...);
    - [parser/nbt.ts]  the binary reader [NBTParser];
    - [dump.ts]        the binary writer ([DumpContext], [NBTDumper]);
    - [parser/snbt.ts] the textual [Lexer] and [SNBTParser];
    - [index.ts]       the entry points [parseSNBT], [parseNBT], [dump].

    JavaScript exceptions are results of type [result]; recursion that
    JavaScript bounds by its call stack is bounded here by a [fuel]
    argument, and [OutOfFuel] stands for the stack overflow. *)

From Stdlib Require Import ZArith Lia Ascii.
From stdpp Require Import base tactics option list numbers strings.
Open Scope Z_scope.
Set Warnings "-register-all,-clear-no-such-hyp".
Set Default Proof Using "Type".

(** ** Results and errors *)

Inductive error : Type :=
  | UnexpectedEOF                       (* "unexpected end of file" *)
  | ExpectedByte (want got : Z)
  | DuplicateKey (name : string)        (* "compound already contains tag named" *)
  | CannotParseTagId (tagId : option Z)
  | InvalidRootTag (tagId : Z)
  | RangeError                          (* DataView / TypedArray.set out of bounds *)
  | UnexpectedCharacter (c : ascii)
  | ExpectedToken (kind : string) (value : option string) (got : string)
  | ExpectedItem (got : string)
  | UnexpectedBoolean
  | BooleanAsFloat
  | ExpectedWholeNumber
  | ExpectedFloatingPoint
  | ExpectedSuffix (allowed : list string) (got : string)
  | InvalidSuffix (got : string)
  | SyntaxError (literal : string).     (* BigInt() on a non-integer literal *)

Inductive result (A : Type) : Type :=
  | OK (a : A)
  | Err (e : error)
  | OutOfFuel.
Arguments OK {A} a.
Arguments Err {A} e.
Arguments OutOfFuel {A}.

#[global] Instance result_ret : MRet result := fun _ a => OK a.
#[global] Instance result_bind : MBind result := fun _ _ f m =>
  match m with
  | OK a => f a
  | Err e => Err e
  | OutOfFuel => OutOfFuel
  end.

Definition throw {A} (e : error) : result A := Err e.

Definition is_OK {A} (r : result A) : bool :=
  match r with OK _ => true | _ => false end.

(** ** JavaScript numbers

    A [number] is an IEEE-754 binary64 value, kept as the exact decimal
    [m * 10^-e] it denotes ([Finite], canonical: [e = 0] or [m] is not a
    multiple of ten), or one of the special values.  The sign of zero is
    not kept.  [Undefined] is the [undefined] that a read of a typed array
    at a negative index leaves in a slot typed [number]. *)

Inductive number : Type :=
  | NaN
  | Infinity (negative : bool)
  | Finite (m : Z) (e : nat)
  | Undefined.

#[global] Instance number_eq_dec : EqDecision number.
Proof. solve_decision. Defined.

Definition ofZ (z : Z) : number := Finite z 0.

Fixpoint normalize (m : Z) (e : nat) : number :=
  match e with
  | O => Finite m 0
  | S e' => if (m mod 10 =? 0) then normalize (m / 10) e' else Finite m e
  end.

(** ToIntegerOrInfinity followed by the modular wrap of the typed-array and
    DataView setters: NaN, the infinities and undefined become 0, other
    values are truncated toward zero. *)
Definition toInteger (v : number) : Z :=
  match v with
  | Finite m e => Z.quot m (10 ^ Z.of_nat e)
  | _ => 0
  end.

Section IEEE.
(** [p] fraction bits and [w] exponent bits: 23 and 8 for binary32,
    52 and 11 for binary64. *)
Variables p w : Z.

Definition bias : Z := 2 ^ (w - 1) - 1.
Definition qmin : Z := 1 - bias - p.
Definition exp_ones : Z := 2 ^ w - 1.

Definition round_half_even (num den : Z) : Z :=
  let quo := num / den in
  let rem := num mod den in
  if 2 * rem <? den then quo
  else if den <? 2 * rem then quo + 1
  else quo + quo mod 2.

(** The exponent/fraction field of the value [n / d] rounded to nearest,
    ties to even; overflow gives the field of infinity. *)
Definition ieee_field (n d : Z) : Z :=
  if n =? 0 then 0 else
  let l := Z.log2 n - Z.log2 d in
  let ex := if (if 0 <=? l then d * 2 ^ l <=? n else d <=? n * 2 ^ (- l))
            then l else l - 1 in
  let q := Z.max (ex - p) qmin in
  let M := if 0 <=? q then round_half_even n (d * 2 ^ q)
           else round_half_even (n * 2 ^ (- q)) d in
  Z.min ((q - qmin) * 2 ^ p + M) (exp_ones * 2 ^ p).

Definition ieee_bits (v : number) : Z :=
  match v with
  | Finite m e =>
      (if m <? 0 then 2 ^ (p + w) else 0) + ieee_field (Z.abs m) (10 ^ Z.of_nat e)
  | Infinity neg => (if neg then 2 ^ (p + w) else 0) + exp_ones * 2 ^ p
  | NaN | Undefined => exp_ones * 2 ^ p + 2 ^ (p - 1)
  end.

Definition dyadic (neg : bool) (M q : Z) : number :=
  let s := if neg then -1 else 1 in
  if 0 <=? q then Finite (s * M * 2 ^ q) 0
  else normalize (s * M * 5 ^ (- q)) (Z.to_nat (- q)).

Definition ieee_value (bits : Z) : number :=
  let neg := Z.odd (bits / 2 ^ (p + w)) in
  let E := (bits / 2 ^ p) mod 2 ^ w in
  let F := bits mod 2 ^ p in
  if E =? exp_ones then (if F =? 0 then Infinity neg else NaN)
  else if E =? 0 then dyadic neg F qmin
  else dyadic neg (2 ^ p + F) (E - 1 + qmin).
End IEEE.

Definition f32_bits := ieee_bits 23 8.
Definition f32_value := ieee_value 23 8.
Definition f64_bits := ieee_bits 52 11.
Definition f64_value := ieee_value 52 11.

(** Rounding an exact decimal to the nearest binary64 value. *)
Definition to_double (v : number) : number := f64_value (f64_bits v).

(** *** Decimal literals: [Number(text)] and [BigInt(text)] *)

Definition is_digit (c : ascii) : bool :=
  (48 <=? nat_of_ascii c)%nat && (nat_of_ascii c <=? 57)%nat.

Definition digit_value (c : ascii) : Z := Z.of_nat (nat_of_ascii c) - 48.

Fixpoint digits_value (acc : Z) (l : list ascii) : option Z :=
  match l with
  | [] => Some acc
  | c :: l' => if is_digit c then digits_value (10 * acc + digit_value c) l' else None
  end.

Fixpoint split_dot (l : list ascii) : list ascii * option (list ascii) :=
  match l with
  | [] => ([], None)
  | c :: l' =>
      if decide (c = "."%char) then ([], Some l')
      else let '(a, b) := split_dot l' in (c :: a, b)
  end.

Definition strip_sign (l : list ascii) : bool * list ascii :=
  match l with
  | c :: l' =>
      if decide (c = "-"%char) then (true, l')
      else if decide (c = "+"%char) then (false, l')
      else (false, l)
  | [] => (false, [])
  end.

(** [Number(text)] on a signed decimal literal; the empty text is 0, and
    a text without any digit is NaN. *)
Definition Number (text : string) : number :=
  let '(neg, body) := strip_sign (String.list_ascii_of_string text) in
  let '(ip, fp) := split_dot body in
  let fp' := default [] fp in
  match ip ++ fp' with
  | [] => if decide (text = "") then Finite 0 0 else NaN
  | ds =>
      match digits_value 0 ds with
      | Some n => to_double (normalize (if neg then - n else n) (length fp'))
      | None => NaN
      end
  end.

(** [BigInt(text)]: an optionally signed run of digits, the empty string
    being 0; anything else is a SyntaxError. *)
Definition BigInt (text : string) : result Z :=
  let '(neg, body) := strip_sign (String.list_ascii_of_string text) in
  match body with
  | [] => if decide (text = "") then OK 0 else throw (SyntaxError text)
  | _ =>
      match digits_value 0 body with
      | Some n => OK (if neg then - n else n)
      | None => throw (SyntaxError text)
      end
  end.

(** ** tags.ts: the tag classes *)

Module Tags.
Definition TAG_End : Z := 0.
Definition TAG_Byte : Z := 1.
Definition TAG_Short : Z := 2.
Definition TAG_Int : Z := 3.
Definition TAG_Long : Z := 4.
Definition TAG_Float : Z := 5.
Definition TAG_Double : Z := 6.
Definition TAG_Byte_Array : Z := 7.
Definition TAG_String : Z := 8.
Definition TAG_List : Z := 9.
Definition TAG_Compound : Z := 10.
Definition TAG_Int_Array : Z := 11.
Definition TAG_Long_Array : Z := 12.
End Tags.
Import Tags.

(** The concrete subclasses of [Tag].  A [CompoundTag] holds a JavaScript
    [Map], kept as the list of its entries in insertion order; a [bigint]
    is a [Z]. *)
Inductive Tag : Type :=
  | ByteTag (value : number)
  | ShortTag (value : number)
  | IntTag (value : number)
  | LongTag (value : Z)
  | FloatTag (value : number)
  | DoubleTag (value : number)
  | StringTag (value : string)
  | CompoundTag (items : list (string * Tag))
  | ListTag (items : list Tag)
  | ByteArrayTag (items : list number)
  | IntArrayTag (items : list number)
  | LongArrayTag (items : list Z).

Definition getId (t : Tag) : Z :=
  match t with
  | ByteTag _ => TAG_Byte
  | ShortTag _ => TAG_Short
  | IntTag _ => TAG_Int
  | LongTag _ => TAG_Long
  | FloatTag _ => TAG_Float
  | DoubleTag _ => TAG_Double
  | StringTag _ => TAG_String
  | CompoundTag _ => TAG_Compound
  | ListTag _ => TAG_List
  | ByteArrayTag _ => TAG_Byte_Array
  | IntArrayTag _ => TAG_Int_Array
  | LongArrayTag _ => TAG_Long_Array
  end.

(** *** [Map<string, Tag>]: entries in insertion order *)

Module JsMap.
Section Ops.
Context {V : Type}.

Fixpoint get (k : string) (m : list (string * V)) : option V :=
  match m with
  | [] => None
  | (k', v) :: m' => if decide (k' = k) then Some v else get k m'
  end.

Definition has (k : string) (m : list (string * V)) : bool :=
  bool_decide (is_Some (get k m)).

(** [set] overwrites the value of a present key in place and appends
    an absent one. *)
Fixpoint set (k : string) (v : V) (m : list (string * V)) : list (string * V) :=
  match m with
  | [] => [(k, v)]
  | (k', v') :: m' =>
      if decide (k' = k) then (k, v) :: m' else (k', v') :: set k v m'
  end.

Definition keys (m : list (string * V)) : list string := m.*1.
End Ops.
End JsMap.

(** [CompoundTag.get] and [CompoundTag.list]. *)
Definition compound_get (items : list (string * Tag)) (name : string) : option Tag :=
  JsMap.get name items.
Definition compound_list (items : list (string * Tag)) : list string :=
  JsMap.keys items.

(** ** Bytes and big-endian integers

    A [Uint8Array] is a list of integers in [0, 256). *)

Definition be_value (bs : list Z) : Z := foldl (fun acc b => acc * 256 + b) 0 bs.

Fixpoint be_bytes (n : nat) (v : Z) : list Z :=
  match n with
  | O => []
  | S n' => (v / 256 ^ Z.of_nat n') mod 256 :: be_bytes n' v
  end.

Definition to_signed (bits : Z) (v : Z) : Z :=
  if v <? 2 ^ (bits - 1) then v else v - 2 ^ bits.

(** [DataView.getUintN] and [getIntN] at a valid offset. *)
Definition getUint (bytes : Z) (data : list Z) (off : Z) : Z :=
  be_value (take (Z.to_nat bytes) (drop (Z.to_nat off) data)).
Definition getInt (bytes : Z) (data : list Z) (off : Z) : Z :=
  to_signed (8 * bytes) (getUint bytes data off).

(** [TypedArray.prototype.slice(start, end)]: a negative index counts
    from the end, and both are clamped to the array. *)
Definition js_slice {A} (data : list A) (start stop : Z) : list A :=
  let len := Z.of_nat (length data) in
  let k := if start <? 0 then Z.max (len + start) 0 else Z.min start len in
  let final := if stop <? 0 then Z.max (len + stop) 0 else Z.min stop len in
  take (Z.to_nat (final - k)) (drop (Z.to_nat k) data).

(** ** Strings: [TextEncoder] and [TextDecoder]

    A string of the program is kept as its UTF-8 bytes, one [ascii] per
    byte, so that [TextEncoder.encode] only changes the carrier; a value of
    [string] that is not well-formed UTF-8 stands for no string of the
    program. *)
Definition code_of_ascii (c : ascii) : Z := Z.of_nat (nat_of_ascii c).
Definition ascii_of_code (b : Z) : ascii := ascii_of_nat (Z.to_nat b).
Definition TextEncoder_encode (text : string) : list Z :=
  code_of_ascii <$> String.list_ascii_of_string text.

(** The UTF-8 decoder of the Encoding Standard, as [new TextDecoder()]
    runs it: errors are replaced by U+FFFD (the decoder is not fatal), and a
    leading U+FEFF is dropped (the byte order mark is not ignored). *)
Module UTF8.
Record state : Type :=
  mk { code_point : Z; bytes_seen : Z; bytes_needed : Z; lower : Z; upper : Z }.

Definition init : state :=
  {| code_point := 0; bytes_seen := 0; bytes_needed := 0; lower := 128; upper := 191 |}.

Inductive outcome : Type :=
  | Emit (cp : Z)
  | Continue (st : state)
  | Error.

(** The handler on a byte when no byte is needed: [byte & 0x1F],
    [byte & 0xF] and [byte & 0x7] are the remainders by 32, 16 and 8. *)
Definition lead (b : Z) : outcome :=
  if (0 <=? b) && (b <=? 127) then Emit b
  else if (194 <=? b) && (b <=? 223) then
    Continue {| code_point := b mod 32; bytes_seen := 0; bytes_needed := 1;
                lower := 128; upper := 191 |}
  else if (224 <=? b) && (b <=? 239) then
    Continue {| code_point := b mod 16; bytes_seen := 0; bytes_needed := 2;
                lower := if b =? 224 then 160 else 128;
                upper := if b =? 237 then 159 else 191 |}
  else if (240 <=? b) && (b <=? 244) then
    Continue {| code_point := b mod 8; bytes_seen := 0; bytes_needed := 3;
                lower := if b =? 240 then 144 else 128;
                upper := if b =? 244 then 143 else 191 |}
  else Error.

(** The code points that the decoder emits.  A byte that cannot continue
    the sequence at hand is an error, and is then read again as the first
    byte of a sequence; the end of the input within a sequence is an error.
    [(code_point << 6) | (byte & 0x3F)] is [code_point * 64 + byte mod 64]. *)
Fixpoint decode (bytes : list Z) (st : state) : list Z :=
  match bytes with
  | [] => if bytes_needed st =? 0 then [] else [65533]
  | b :: rest =>
      let first :=
        match lead b with
        | Emit cp => cp :: decode rest init
        | Continue st' => decode rest st'
        | Error => 65533 :: decode rest init
        end in
      if bytes_needed st =? 0 then first
      else if (lower st <=? b) && (b <=? upper st) then
        let cp := code_point st * 64 + b mod 64 in
        if bytes_seen st + 1 =? bytes_needed st then cp :: decode rest init
        else decode rest {| code_point := cp; bytes_seen := bytes_seen st + 1;
                            bytes_needed := bytes_needed st;
                            lower := 128; upper := 191 |}
      else 65533 :: first
  end.

(** The bytes that carry a code point. *)
Definition encode (cp : Z) : list Z :=
  if cp <? 128 then [cp]
  else if cp <? 2048 then [192 + cp / 64; 128 + cp mod 64]
  else if cp <? 65536 then [224 + cp / 4096; 128 + cp / 64 mod 64; 128 + cp mod 64]
  else [240 + cp / 262144; 128 + cp / 4096 mod 64; 128 + cp / 64 mod 64;
        128 + cp mod 64].

Definition strip_BOM (cps : list Z) : list Z :=
  match cps with
  | cp :: rest => if cp =? 65279 then rest else cps
  | [] => []
  end.

(** The well-formed byte sequences of UTF-8 (The Unicode Standard,
    table 3-7). *)
Definition continuation (lo hi b : Z) : bool := (lo <=? b) && (b <=? hi).

Fixpoint well_formed (bytes : list Z) : bool :=
  match bytes with
  | [] => true
  | b1 :: r1 =>
      if (0 <=? b1) && (b1 <=? 127) then well_formed r1
      else
        match r1 with
        | [] => false
        | b2 :: r2 =>
            if (194 <=? b1) && (b1 <=? 223) then
              continuation 128 191 b2 && well_formed r2
            else
              match r2 with
              | [] => false
              | b3 :: r3 =>
                  if (224 <=? b1) && (b1 <=? 239) then
                    continuation (if b1 =? 224 then 160 else 128)
                      (if b1 =? 237 then 159 else 191) b2
                    && continuation 128 191 b3 && well_formed r3
                  else
                    match r3 with
                    | [] => false
                    | b4 :: r4 =>
                        (240 <=? b1) && (b1 <=? 244)
                        && continuation (if b1 =? 240 then 144 else 128)
                             (if b1 =? 244 then 143 else 191) b2
                        && continuation 128 191 b3 && continuation 128 191 b4
                        && well_formed r4
                    end
              end
        end
  end.

Definition starts_with_BOM (bytes : list Z) : bool :=
  match bytes with
  | b1 :: b2 :: b3 :: _ => (b1 =? 239) && (b2 =? 187) && (b3 =? 191)
  | _ => false
  end.
End UTF8.

(** The string that [decode] returns, kept as the UTF-8 bytes of its code
    points. *)
Definition TextDecoder_decode (bytes : list Z) : string :=
  String.string_of_list_ascii
    (ascii_of_code
       <$> concat (UTF8.encode <$> UTF8.strip_BOM (UTF8.decode bytes UTF8.init))).

(** The strings that [TextDecoder.decode] gives back from their bytes:
    well-formed, and without a byte order mark in front. *)
Definition plain_text (text : string) : bool :=
  UTF8.well_formed (TextEncoder_encode text)
  && negb (UTF8.starts_with_BOM (TextEncoder_encode text)).

(** ** parser/nbt.ts: [NBTParser]

    [this.data] is the argument [data]; [this.pos] is threaded through as
    [pos], an integer that a negative array length can drive below zero.
    The [DataView] covers the same bytes as [data]. *)
Module NBTParser.
Section WithData.
Variable data : list Z.
Let len : Z := Z.of_nat (length data).

(** [this.data[this.pos]]: undefined below zero. *)
Definition at_pos (pos : Z) : option Z :=
  if pos <? 0 then None else data !! Z.to_nat pos.

Definition expectByte (value : option Z) (pos : Z) : result (option Z * Z) :=
  if len <=? pos then throw UnexpectedEOF
  else match value with
       | Some v =>
           if decide (at_pos pos = Some v) then OK (at_pos pos, pos + 1)
           else throw (ExpectedByte v (default 0 (at_pos pos)))
       | None => OK (at_pos pos, pos + 1)
       end.

(** The bounds check, then the [DataView] read at the old position,
    which raises a RangeError on a negative offset. *)
Definition readInteger (bytes : Z) (pos : Z) : result (Z * Z) :=
  if len <=? pos + bytes then throw UnexpectedEOF
  else if pos <? 0 then throw RangeError
  else OK (getInt bytes data pos, pos + bytes).

Definition readUnsignedInteger (bytes : Z) (pos : Z) : result (Z * Z) :=
  if len <=? pos + bytes then throw UnexpectedEOF
  else if pos <? 0 then throw RangeError
  else OK (getUint bytes data pos, pos + bytes).

Definition readFLoat (bytes : Z) (pos : Z) : result (number * Z) :=
  if len <=? pos + bytes then throw UnexpectedEOF
  else if pos <? 0 then throw RangeError
  else OK ((if bytes =? 4 then f32_value else f64_value) (getUint bytes data pos),
           pos + bytes).

Definition parseByteArray (pos : Z) : result (Tag * Z) :=
  '(length, pos) ← readInteger 4 pos;
  if len <=? pos + length then throw UnexpectedEOF
  else OK (ByteArrayTag (ofZ <$> js_slice data pos (pos + length)), pos + length).

(** [for (let i = 0; i < length; i++) items.push(read())] *)
Fixpoint readItems {A} (read : Z -> result (A * Z)) (n : nat) (pos : Z)
    (items : list A) : result (list A * Z) :=
  match n with
  | O => OK (items, pos)
  | S n' => '(item, pos) ← read pos; readItems read n' pos (items ++ [item])
  end.

Definition parseIntArray (pos : Z) : result (Tag * Z) :=
  '(length, pos) ← readInteger 4 pos;
  '(items, pos) ← readItems (readInteger 4) (Z.to_nat length) pos [];
  OK (IntArrayTag (ofZ <$> items), pos).

Definition parseLongArray (pos : Z) : result (Tag * Z) :=
  '(length, pos) ← readInteger 4 pos;
  '(items, pos) ← readItems (readInteger 8) (Z.to_nat length) pos [];
  OK (LongArrayTag items, pos).

Definition parseString (pos : Z) : result (string * Z) :=
  '(length, pos) ← readUnsignedInteger 2 pos;
  if len <=? pos + length then throw UnexpectedEOF
  else OK (TextDecoder_decode (js_slice data pos (pos + length)), pos + length).

(** [item instanceof CompoundTag && item.list().length === 1 &&
    item.list()[0] === ""] *)
Definition isWrapped (item : Tag) : bool :=
  match item with
  | CompoundTag [(name, _)] => bool_decide (name = "")
  | _ => false
  end.

(** [(it as CompoundTag).get("")!] *)
Definition unwrap (item : Tag) : Tag :=
  match item with
  | CompoundTag items => default item (compound_get items "")
  | _ => item
  end.

(** The loop of [parseList], with its flag. *)
Fixpoint parseListItems (parseItem : Z -> result (Tag * Z)) (n : nat) (pos : Z)
    (items : list Tag) (isDynamicArray : bool) : result (list Tag * bool * Z) :=
  match n with
  | O => OK (items, isDynamicArray, pos)
  | S n' =>
      '(item, pos) ← parseItem pos;
      parseListItems parseItem n' pos (items ++ [item])
        (if negb (isWrapped item) then false else isDynamicArray)
  end.

Definition parseList (parseFromTagType : option Z -> Z -> result (Tag * Z))
    (pos : Z) : result (Tag * Z) :=
  '(tagId, pos) ← expectByte None pos;
  '(length, pos) ← readInteger 4 pos;
  '(items, isDynamicArray, pos) ←
    parseListItems (parseFromTagType tagId) (Z.to_nat length) pos [] true;
  if (isDynamicArray : bool) then OK (ListTag (unwrap <$> items), pos)
  else OK (ListTag items, pos).

(** The value stored by [new ByteTag(this.expectByte())]. *)
Definition byte_number (b : option Z) : number :=
  match b with Some z => ofZ z | None => Undefined end.

(** [parseFromTagType], and [parseCompound] with its [Map] as the
    accumulator [items]: one unit of fuel for each call and for each
    turn of the [while (true)] loop. *)
Fixpoint parseFromTagType (fuel : nat) (tagId : option Z) (pos : Z)
    : result (Tag * Z) :=
  match fuel with
  | O => OutOfFuel
  | S fuel' =>
      if decide (tagId = Some TAG_Byte) then
        '(b, pos) ← expectByte None pos; OK (ByteTag (byte_number b), pos)
      else if decide (tagId = Some TAG_Short) then
        '(v, pos) ← readInteger 2 pos; OK (ShortTag (ofZ v), pos)
      else if decide (tagId = Some TAG_Int) then
        '(v, pos) ← readInteger 4 pos; OK (IntTag (ofZ v), pos)
      else if decide (tagId = Some TAG_Long) then
        '(v, pos) ← readInteger 8 pos; OK (LongTag v, pos)
      else if decide (tagId = Some TAG_Float) then
        '(v, pos) ← readFLoat 4 pos; OK (FloatTag v, pos)
      else if decide (tagId = Some TAG_Double) then
        '(v, pos) ← readFLoat 8 pos; OK (DoubleTag v, pos)
      else if decide (tagId = Some TAG_Byte_Array) then parseByteArray pos
      else if decide (tagId = Some TAG_Int_Array) then parseIntArray pos
      else if decide (tagId = Some TAG_Long_Array) then parseLongArray pos
      else if decide (tagId = Some TAG_String) then
        '(s, pos) ← parseString pos; OK (StringTag s, pos)
      else if decide (tagId = Some TAG_List) then
        parseList (parseFromTagType fuel') pos
      else if decide (tagId = Some TAG_Compound) then
        parseCompound fuel' pos []
      else throw (CannotParseTagId tagId)
  end
with parseCompound (fuel : nat) (pos : Z) (items : list (string * Tag))
    : result (Tag * Z) :=
  match fuel with
  | O => OutOfFuel
  | S fuel' =>
      '(tagId, pos) ← expectByte None pos;
      if decide (tagId = Some TAG_End) then OK (CompoundTag items, pos)
      else
        '(name, pos) ← parseString pos;
        '(value, pos) ← parseFromTagType fuel' tagId pos;
        if JsMap.has name items then throw (DuplicateKey name)
        else parseCompound fuel' pos (JsMap.set name value items)
  end.

Definition parse (fuel : nat) : result Tag :=
  '(tagId, pos) ← expectByte None 0;
  if decide (tagId = Some TAG_End) then throw (InvalidRootTag TAG_End)
  else
    '(name, pos) ← parseString pos;
    '(value, _) ← parseFromTagType fuel tagId pos;
    OK (CompoundTag [(name, value)]).
End WithData.
End NBTParser.

(** ** dump.ts: [DumpContext] and [NBTDumper] *)

Module DumpContext.
(** [view] is the [byteLength] of [this.view], a [DataView] on the
    bytes of [this.buffer]. *)
Record t : Type := mk { buffer : list Z; pointer : nat; view : nat }.

Definition new : t := {| buffer := replicate 256 0; pointer := 0; view := 256 |}.

(** [Uint8Array.prototype.set(bytes, off)] within bounds. *)
Definition store (off : nat) (bytes : list Z) (buf : list Z) : list Z :=
  take off buf ++ bytes ++ drop (off + length bytes) buf.

(** One doubling, after which the view is [new DataView(buffer, 0, 0)]. *)
Definition growBuffer (bytes : nat) (ctx : t) : t :=
  if (length (buffer ctx) <=? pointer ctx + bytes)%nat then
    {| buffer := buffer ctx ++ replicate (length (buffer ctx)) 0;
       pointer := pointer ctx;
       view := 0 |}
  else ctx.

(** The setters of [DataView] raise a RangeError when the write does not
    fit in the view. *)
Definition view_set (bytes : nat) (content : list Z) (ctx : t) : result t :=
  let ctx := growBuffer bytes ctx in
  let pointer := (pointer ctx + bytes)%nat in
  if (view ctx <? pointer)%nat then throw RangeError
  else OK {| buffer := store (pointer - bytes) content (buffer ctx);
             pointer := pointer;
             view := view ctx |}.

(** [setInt16], [setInt32] and [setBigInt64] keep the low bits of the
    integer they are given. *)
Definition dumpInteger (bytes : nat) (value : Z) (ctx : t) : result t :=
  view_set bytes (be_bytes bytes value) ctx.

Definition dumpUnsignedInteger (bytes : nat) (value : Z) (ctx : t) : result t :=
  view_set bytes (be_bytes bytes value) ctx.

Definition dumpFloat (bytes : nat) (value : number) (ctx : t) : result t :=
  view_set bytes
    (be_bytes bytes ((if (bytes =? 4)%nat then f32_bits else f64_bits) value)) ctx.

Definition dumpRaw (bytes : list Z) (ctx : t) : result t :=
  let ctx := growBuffer (length bytes) ctx in
  if (length (buffer ctx) <? pointer ctx + length bytes)%nat then throw RangeError
  else OK {| buffer := store (pointer ctx) bytes (buffer ctx);
             pointer := (pointer ctx + length bytes)%nat;
             view := view ctx |}.

Definition dumpString (text : string) (ctx : t) : result t :=
  let bytes := TextEncoder_encode text in
  ctx ← dumpUnsignedInteger 2 (Z.of_nat (length bytes)) ctx;
  dumpRaw bytes ctx.

(** [this.buffer[this.pointer++] = byte]: the element store converts to
    an unsigned byte and does nothing out of range. *)
Definition dumpByte (byte : Z) (ctx : t) : result t :=
  let ctx := growBuffer 1 ctx in
  OK {| buffer := <[pointer ctx := byte mod 256]> (buffer ctx);
        pointer := S (pointer ctx);
        view := view ctx |}.

Definition final (ctx : t) : list Z := take (pointer ctx) (buffer ctx).
End DumpContext.

Module NBTDumper.
Import DumpContext.

(** [new Uint8Array(values)] *)
Definition to_Uint8Array (values : list number) : list Z :=
  (fun v => toInteger v mod 256) <$> values.

Definition dumpByteArray (values : list number) (ctx : t) : result t :=
  ctx ← dumpInteger 4 (Z.of_nat (length values)) ctx;
  dumpRaw (to_Uint8Array values) ctx.

(** [for (let i = 0; i < values.length; i++) dumpOne(ctx, values[i])] *)
Fixpoint forEach {A} (dumpOne : A -> t -> result t) (values : list A) (ctx : t)
    : result t :=
  match values with
  | [] => OK ctx
  | v :: values' => ctx ← dumpOne v ctx; forEach dumpOne values' ctx
  end.

Definition dumpIntArray (values : list number) (ctx : t) : result t :=
  ctx ← dumpInteger 4 (Z.of_nat (length values)) ctx;
  forEach (fun v => dumpInteger 4 (toInteger v)) values ctx.

Definition dumpLongArray (values : list Z) (ctx : t) : result t :=
  ctx ← dumpInteger 4 (Z.of_nat (length values)) ctx;
  forEach (dumpInteger 8) values ctx.

(** The scan of [dumpList]: the id of the first element, or [TAG_End],
    and whether all elements share it. *)
Definition valueId (values : list Tag) : Z :=
  match values with
  | [] => TAG_End
  | v :: _ => getId v
  end.
Definition sameType (values : list Tag) : bool :=
  match values with
  | [] => true
  | v :: values' => forallb (fun v' => bool_decide (getId v' = getId v)) values'
  end.

Section Recursive.
Variable dumpTagValue : Tag -> t -> result t.

(** [dumpCompound]: a [Map] has no duplicate key, so [tag.get(keys[i])]
    is the value of the i-th entry. *)
Definition dumpCompound (items : list (string * Tag)) (ctx : t) : result t :=
  ctx ← forEach (fun '(key, value) ctx =>
                   ctx ← dumpByte (getId value) ctx;
                   ctx ← dumpString key ctx;
                   dumpTagValue value ctx) items ctx;
  dumpByte TAG_End ctx.

Definition dumpList (values : list Tag) (ctx : t) : result t :=
  if sameType values then
    ctx ← dumpByte (valueId values) ctx;
    ctx ← dumpInteger 4 (Z.of_nat (length values)) ctx;
    forEach dumpTagValue values ctx
  else
    ctx ← dumpByte TAG_Compound ctx;
    ctx ← dumpInteger 4 (Z.of_nat (length values)) ctx;
    forEach (fun value => dumpCompound [("", value)]) values ctx.
End Recursive.

Fixpoint dumpTagValue (tag : Tag) (ctx : t) {struct tag} : result t :=
  match tag with
  | ByteTag value => dumpByte (toInteger value) ctx
  | ShortTag value => dumpInteger 2 (toInteger value) ctx
  | IntTag value => dumpInteger 4 (toInteger value) ctx
  | LongTag value => dumpInteger 8 value ctx
  | FloatTag value => dumpFloat 4 value ctx
  | DoubleTag value => dumpFloat 8 value ctx
  | ByteArrayTag values => dumpByteArray values ctx
  | IntArrayTag values => dumpIntArray values ctx
  | LongArrayTag values => dumpLongArray values ctx
  | StringTag value => dumpString value ctx
  | ListTag values => dumpList dumpTagValue values ctx
  | CompoundTag items => dumpCompound dumpTagValue items ctx
  end.

Definition dumpTag (tag : Tag) (ctx : t) : result t :=
  ctx ← dumpByte (getId tag) ctx;
  dumpTagValue tag ctx.

Definition dump (root : Tag) : result (list Z) :=
  let ctx := DumpContext.new in
  ctx ← match root with
        | CompoundTag [(name, value)] =>
            ctx ← dumpByte (getId root) ctx;
            ctx ← dumpString name ctx;
            dumpTagValue value ctx
        | _ =>
            ctx ← dumpByte TAG_Compound ctx;
            ctx ← dumpString "" ctx;
            dumpTag root ctx
        end;
  OK (final ctx).
End NBTDumper.

(** ** parser/snbt.ts: the [Lexer] *)

Inductive TokenKind : Type := EOF | NUMBER | SUFFIX | STRING | BOOLEAN | DELIMITER.

#[global] Instance TokenKind_eq_dec : EqDecision TokenKind.
Proof. solve_decision. Defined.

Record Token : Type := mkToken { kind : TokenKind; value : string }.

Definition kind_name (k : TokenKind) : string :=
  match k with
  | EOF => "EOF" | NUMBER => "NUMBER" | SUFFIX => "SUFFIX"
  | STRING => "STRING" | BOOLEAN => "BOOLEAN" | DELIMITER => "DELIMITER"
  end.

Definition CONSTANT_TOKENS : list ascii :=
  ["{"; "}"; "["; "]"; ":"; ","; ";"]%char.

Definition NUMBER_SUFFIXES : list ascii :=
  ["b"; "B"; "s"; "S"; "i"; "I"; "l"; "L"; "f"; "F"; "d"; "d"]%char.

Definition SKIP_CHARS : list ascii :=
  [" "; "009"; "010"; "013"]%char.

Definition IDENTIFIER_OTHER : list ascii := ["_"; "-"; "."; "+"]%char.

Definition includes (l : list ascii) (c : ascii) : bool := bool_decide (c ∈ l).

Definition in_range (lo hi c : ascii) : bool :=
  (nat_of_ascii lo <=? nat_of_ascii c)%nat && (nat_of_ascii c <=? nat_of_ascii hi)%nat.

Definition isIdentifierChar (c : ascii) : bool :=
  in_range "a" "z" c || in_range "A" "Z" c || includes IDENTIFIER_OTHER c.

Definition is_quote (c : ascii) : bool :=
  bool_decide (c = "034"%char) || bool_decide (c = "039"%char).

Definition str (l : list ascii) : string := String.string_of_list_ascii l.

Module Lexer.
Record t : Type := mk { pos : nat; lastNumber : Z }.

Definition new : t := {| pos := 0; lastNumber := -777 |}.

(** The loop of the number branch, from the characters [rest] at [pos]. *)
Fixpoint numberLoop (rest : list ascii) (isFloat : bool) (content : list ascii)
    (pos : nat) : list ascii * nat :=
  match rest with
  | c :: rest' =>
      if in_range "0" "9" c || (negb isFloat && bool_decide (c = "."%char)) then
        numberLoop rest' (if bool_decide (c = "."%char) then true else isFloat)
          (content ++ [c]) (S pos)
      else (content, pos)
  | [] => (content, pos)
  end.

(** [while (isIdentifierChar(source.charCodeAt(pos))) pos++] *)
Fixpoint identifierLoop (rest : list ascii) (pos : nat) : nat :=
  match rest with
  | c :: rest' => if isIdentifierChar c then identifierLoop rest' (S pos) else pos
  | [] => pos
  end.

(** The [charLoop] of a quoted string; it stops on the closing quote,
    at position [pos]. *)
Fixpoint charLoop (rest : list ascii) (opener : ascii) (content : list ascii)
    (pos : nat) : result (list ascii * nat) :=
  match rest with
  | [] => throw UnexpectedEOF
  | c :: rest' =>
      let step :=
        if bool_decide (c = opener) then OK (content, pos)
        else charLoop rest' opener (content ++ [c]) (S pos) in
      if bool_decide (c = "\"%char) then
        match rest' with
        | [] => throw UnexpectedEOF
        | c1 :: rest'' =>
            if is_quote c1 then charLoop rest'' opener (content ++ [opener]) (pos + 2)
            else step
        end
      else step
  end.

Section WithSource.
Variable source : list ascii.

Fixpoint nextFrom (rest : list ascii) (st : t) : result (Token * t) :=
  match rest with
  | [] => OK (mkToken EOF "", st)
  | c :: rest' =>
      if includes SKIP_CHARS c then
        nextFrom rest' {| pos := S (pos st); lastNumber := lastNumber st |}
      else if includes CONSTANT_TOKENS c then
        OK (mkToken DELIMITER (str [c]),
            {| pos := S (pos st); lastNumber := lastNumber st |})
      else if bool_decide (lastNumber st = Z.of_nat (pos st) - 1)
              && includes NUMBER_SUFFIXES c then
        OK (mkToken SUFFIX (str [c]),
            {| pos := S (pos st); lastNumber := lastNumber st |})
      else if bool_decide (c = "+"%char) || bool_decide (c = "-"%char)
              || in_range "0" "9" c then
        let '(content, pos') := numberLoop rest' false [c] (S (pos st)) in
        OK (mkToken NUMBER (str content),
            {| pos := pos'; lastNumber := Z.of_nat pos' - 1 |})
      else if isIdentifierChar c then
        let pos' := identifierLoop rest (pos st) in
        let value := str (take (pos' - pos st) rest) in
        OK (mkToken (if bool_decide (value = "true") || bool_decide (value = "false")
                     then BOOLEAN else STRING) value,
            {| pos := pos'; lastNumber := lastNumber st |})
      else if is_quote c then
        '(content, pos') ← charLoop rest' c [] (S (pos st));
        OK (mkToken STRING (str content),
            {| pos := S pos'; lastNumber := lastNumber st |})
      else throw (UnexpectedCharacter c)
  end.

Definition next (st : t) : result (Token * t) :=
  nextFrom (drop (pos st) source) st.
End WithSource.
End Lexer.

(** ** parser/snbt.ts: the [SNBTParser] *)

Module SNBTParser.
Record t : Type := mk { lexer : Lexer.t; current : Token }.

(** An element of the untyped [items] array of [parseList]. *)
Inductive element : Type :=
  | ENumber (n : number)
  | EBigInt (z : Z)
  | ETag (tag : Tag).

Definition as_number (e : element) : number :=
  match e with ENumber n => n | _ => NaN end.
Definition as_bigint (e : element) : Z :=
  match e with EBigInt z => z | _ => 0 end.
Definition as_tag (e : element) : Tag :=
  match e with ETag tag => tag | _ => ListTag [] end.

Section WithSource.
Variable source : list ascii.

Definition new : result t :=
  '(tok, lx) ← Lexer.next source Lexer.new;
  OK {| lexer := lx; current := tok |}.

(** [!value] holds of a missing and of an empty [value]. *)
Definition matches (kind' : TokenKind) (value' : option string) (st : t) : bool :=
  bool_decide (kind (current st) = kind')
  && match value' with
     | None => true
     | Some v => bool_decide (v = "") || bool_decide (value (current st) = v)
     end.

Definition eat (kind' : TokenKind) (value' : option string) (st : t)
    : result (Token * t) :=
  if negb (matches kind' value' st) then
    throw (ExpectedToken (kind_name kind') value' (value (current st)))
  else
    '(tok, lx) ← Lexer.next source (lexer st);
    OK (current st, {| lexer := lx; current := tok |}).

Definition eatNumberSuffixes (kind' : string) (suffixes : list string) (st : t)
    : result (string * t) :=
  if matches BOOLEAN None st then
    if negb (bool_decide ("b" ∈ suffixes)) && negb (bool_decide ("B" ∈ suffixes))
    then throw UnexpectedBoolean
    else if bool_decide (kind' = "float") then throw BooleanAsFloat
    else
      '(tok, st) ← eat BOOLEAN None st;
      OK (if bool_decide (value tok = "true") then "1" else "0", st)
  else
    '(number, st) ← eat NUMBER None st;
    let isFloat := bool_decide ("."%char ∈ String.list_ascii_of_string (value number)) in
    if bool_decide (kind' = "int") && isFloat then throw ExpectedWholeNumber
    else if bool_decide (kind' = "float") && negb isFloat then throw ExpectedFloatingPoint
    else
      '(suffix, st) ←
        (if negb (matches SUFFIX None st) then OK (if isFloat then "f" else "i", st)
         else '(tok, st) ← eat SUFFIX None st; OK (value tok, st));
      if negb (bool_decide (suffix ∈ suffixes)) then throw (ExpectedSuffix suffixes suffix)
      else OK (value number, st).

Definition parseNumber (st : t) : result (Tag * t) :=
  '(number, st) ← eat NUMBER None st;
  let value' := Number (value number) in
  if negb (matches SUFFIX None st) then
    if bool_decide ("."%char ∈ String.list_ascii_of_string (value number))
    then OK (FloatTag value', st)
    else OK (IntTag value', st)
  else
    '(suffix, st) ← eat SUFFIX None st;
    let s := value suffix in
    if bool_decide (s = "b") || bool_decide (s = "B") then OK (ByteTag value', st)
    else if bool_decide (s = "s") || bool_decide (s = "S") then OK (ShortTag value', st)
    else if bool_decide (s = "i") || bool_decide (s = "I") then OK (IntTag value', st)
    else if bool_decide (s = "l") || bool_decide (s = "L") then
      z ← BigInt (value number); OK (LongTag z, st)
    else if bool_decide (s = "f") || bool_decide (s = "F") then OK (FloatTag value', st)
    else if bool_decide (s = "d") || bool_decide (s = "D") then OK (DoubleTag value', st)
    else throw (InvalidSuffix s).

Definition parseString (st : t) : result (Tag * t) :=
  '(tok, st) ← eat STRING None st; OK (StringTag (value tok), st).

Definition parseBoolean (st : t) : result (Tag * t) :=
  '(tok, st) ← eat BOOLEAN None st;
  OK (ByteTag (ofZ (if bool_decide (value tok = "true") then 1 else 0)), st).

(** The array marker of [parseList]. *)
Definition arrayMarker (st : t) : result (option string * t) :=
  if bool_decide (kind (current st) = STRING)
     && (bool_decide (value (current st) = "B")
         || bool_decide (value (current st) = "I")
         || bool_decide (value (current st) = "L")) then
    '(tok, st) ← eat STRING None st;
    '(_, st) ← eat DELIMITER (Some ";") st;
    OK (Some (value tok), st)
  else OK (None, st).

(** [parseItem], with the loops of [parseCompound] and [parseList]:
    one unit of fuel for each call and each turn of a loop. *)
Fixpoint parseItem (fuel : nat) (st : t) : result (Tag * t) :=
  match fuel with
  | O => OutOfFuel
  | S fuel' =>
      if matches NUMBER None st then parseNumber st
      else if matches STRING None st then parseString st
      else if matches BOOLEAN None st then parseBoolean st
      else if matches DELIMITER (Some "[") st then
        '(_, st) ← eat DELIMITER (Some "[") st;
        '(arrayType, st) ← arrayMarker st;
        '(items, st) ← parseListLoop fuel' arrayType true [] st;
        '(_, st) ← eat DELIMITER (Some "]") st;
        if bool_decide (arrayType = Some "B") then
          OK (ByteArrayTag (as_number <$> items), st)
        else if bool_decide (arrayType = Some "I") then
          OK (IntArrayTag (as_number <$> items), st)
        else if bool_decide (arrayType = Some "L") then
          OK (LongArrayTag (as_bigint <$> items), st)
        else OK (ListTag (as_tag <$> items), st)
      else if matches DELIMITER (Some "{") st then
        '(_, st) ← eat DELIMITER (Some "{") st;
        '(items, st) ← parseCompoundLoop fuel' true [] st;
        '(_, st) ← eat DELIMITER (Some "}") st;
        OK (CompoundTag items, st)
      else throw (ExpectedItem (value (current st)))
  end
with parseCompoundLoop (fuel : nat) (first : bool) (items : list (string * Tag))
    (st : t) : result (list (string * Tag) * t) :=
  match fuel with
  | O => OutOfFuel
  | S fuel' =>
      if matches DELIMITER (Some "}") st then OK (items, st)
      else
        '(_, st) ← (if negb first then eat DELIMITER (Some ",") st
                     else OK (current st, st));
        '(key, st) ← eat STRING None st;
        '(_, st) ← eat DELIMITER (Some ":") st;
        '(value', st) ← parseItem fuel' st;
        parseCompoundLoop fuel' false (JsMap.set (value key) value' items) st
  end
with parseListLoop (fuel : nat) (arrayType : option string) (first : bool)
    (items : list element) (st : t) : result (list element * t) :=
  match fuel with
  | O => OutOfFuel
  | S fuel' =>
      if matches DELIMITER (Some "]") st then OK (items, st)
      else
        '(_, st) ← (if negb first then eat DELIMITER (Some ",") st
                     else OK (current st, st));
        '(item, st) ←
          (if bool_decide (arrayType = Some "B") then
             '(text, st) ← eatNumberSuffixes "int" ["b"; "B"] st;
             OK (ENumber (Number text), st)
           else if bool_decide (arrayType = Some "I") then
             '(text, st) ← eatNumberSuffixes "int" ["b"; "B"; "s"; "S"; "i"; "I"] st;
             OK (ENumber (Number text), st)
           else if bool_decide (arrayType = Some "L") then
             '(text, st) ←
               eatNumberSuffixes "int" ["b"; "B"; "s"; "S"; "i"; "I"; "l"; "L"] st;
             z ← BigInt text; OK (EBigInt z, st)
           else '(tag, st) ← parseItem fuel' st; OK (ETag tag, st));
        parseListLoop fuel' arrayType false (items ++ [item]) st
  end.

Definition parse (fuel : nat) : result Tag :=
  st ← new; '(tag, _) ← parseItem fuel st; OK tag.
End WithSource.
End SNBTParser.

(** ** index.ts *)

Definition parseSNBT (fuel : nat) (data : string) : result Tag :=
  SNBTParser.parse (String.list_ascii_of_string data) fuel.

Definition parseNBT (fuel : nat) (data : list Z) : result Tag :=
  NBTParser.parse data fuel.

Definition dump (tag : Tag) : result (list Z) := NBTDumper.dump tag.


(** ** The escape rule of quoted strings *)

(** The rule as the specification words it: a backslash is an escape only
    before the opening delimiter; before any other character it stays. *)
Fixpoint spec_unescape (opener : ascii) (body : list ascii) : list ascii :=
  match body with
  | [] => []
  | c :: body' =>
      if bool_decide (c = "\"%char) then
        match body' with
        | c1 :: body'' =>
            if bool_decide (c1 = opener) then opener :: spec_unescape opener body''
            else c :: spec_unescape opener body'
        | [] => [c]
        end
      else c :: spec_unescape opener body'
  end.

(** The rule that [charLoop] follows: a backslash before either quote
    character stands for the opening delimiter. *)
Fixpoint unescape (opener : ascii) (body : list ascii) : list ascii :=
  match body with
  | [] => []
  | c :: body' =>
      if bool_decide (c = "\"%char) then
        match body' with
        | c1 :: body'' =>
            if is_quote c1 then opener :: unescape opener body''
            else c :: unescape opener body'
        | [] => [c]
        end
      else c :: unescape opener body'
  end.

(** A body that reaches its closing quote: it holds no opening delimiter
    outside an escape and leaves no backslash in front of the closing
    quote. *)
Fixpoint closed_body (opener : ascii) (body : list ascii) : bool :=
  match body with
  | [] => true
  | c :: body' =>
      if bool_decide (c = "\"%char) then
        match body' with
        | c1 :: body'' =>
            if is_quote c1 then closed_body opener body''
            else closed_body opener body'
        | [] => false
        end
      else negb (bool_decide (c = opener)) && closed_body opener body'
  end.

(** A character that is neither the backslash nor a quote. *)
Definition ordinary (c : ascii) : bool :=
  negb (bool_decide (c = "\"%char)) && negb (is_quote c).

(** ** Entries of a binary Compound *)

(** [reads_entries data fuel pos entries pos']: from [pos] the buffer holds
    the consecutive entries [entries], each a tag id other than End, a name
    and a value that [parseFromTagType] decodes with [fuel], up to [pos']. *)
Inductive reads_entries (data : list Z) (fuel : nat)
    : Z -> list (string * Tag) -> Z -> Prop :=
  | reads_done pos : reads_entries data fuel pos [] pos
  | reads_entry pos tagId pos1 name pos2 value pos3 entries pos4 :
      NBTParser.expectByte data None pos = OK (tagId, pos1) ->
      tagId <> Some TAG_End ->
      NBTParser.parseString data pos1 = OK (name, pos2) ->
      NBTParser.parseFromTagType data fuel tagId pos2 = OK (value, pos3) ->
      reads_entries data fuel pos3 entries pos4 ->
      reads_entries data fuel pos ((name, value) :: entries) pos4.

(** ** The byte layout of the writer, and the trees it can carry *)

(** The bytes that [DumpContext.dumpString] appends. *)
Definition encodeString (text : string) : list Z :=
  be_bytes 2 (Z.of_nat (length (TextEncoder_encode text))) ++ TextEncoder_encode text.

(** The bytes that [NBTDumper.dumpTagValue] appends for a tag: the writer
    without its buffer. *)
Fixpoint encodeValue (tag : Tag) : list Z :=
  match tag with
  | ByteTag value => [toInteger value mod 256]
  | ShortTag value => be_bytes 2 (toInteger value)
  | IntTag value => be_bytes 4 (toInteger value)
  | LongTag value => be_bytes 8 value
  | FloatTag value => be_bytes 4 (f32_bits value)
  | DoubleTag value => be_bytes 8 (f64_bits value)
  | ByteArrayTag values =>
      be_bytes 4 (Z.of_nat (length values)) ++ NBTDumper.to_Uint8Array values
  | IntArrayTag values =>
      be_bytes 4 (Z.of_nat (length values))
      ++ concat ((fun v => be_bytes 4 (toInteger v)) <$> values)
  | LongArrayTag values =>
      be_bytes 4 (Z.of_nat (length values)) ++ concat (be_bytes 8 <$> values)
  | StringTag value => encodeString value
  | ListTag values =>
      if NBTDumper.sameType values then
        NBTDumper.valueId values :: be_bytes 4 (Z.of_nat (length values))
        ++ concat (encodeValue <$> values)
      else
        TAG_Compound :: be_bytes 4 (Z.of_nat (length values))
        ++ concat ((fun v => (getId v :: encodeString "" ++ encodeValue v) ++ [TAG_End])
                     <$> values)
  | CompoundTag items =>
      concat ((fun '(key, v) => getId v :: encodeString key ++ encodeValue v) <$> items)
      ++ [TAG_End]
  end.

(** An integral number within [lo, hi). *)
Definition is_int (lo hi : Z) (v : number) : bool :=
  match v with
  | Finite m O => (lo <=? m) && (m <? hi)
  | _ => false
  end.

(** The trees that the binary form carries as they are: integer payloads
    within their width (a Byte within 0..127, where the signed and the
    unsigned reading agree), Float and Double payloads that are binary32
    and binary64 values, strings and names that are well-formed, without a
    byte order mark in front, and shorter than 65536 bytes, fewer than 2^31
    elements, unique names in a Compound, and no List, other
    than the empty one, whose elements are all single-entry Compounds
    named by the empty string. *)
Fixpoint storable (tag : Tag) : bool :=
  match tag with
  | ByteTag value => is_int 0 128 value
  | ShortTag value => is_int (- 2 ^ 15) (2 ^ 15) value
  | IntTag value => is_int (- 2 ^ 31) (2 ^ 31) value
  | LongTag value => (- 2 ^ 63 <=? value) && (value <? 2 ^ 63)
  | FloatTag value => bool_decide (f32_value (f32_bits value) = value)
  | DoubleTag value => bool_decide (f64_value (f64_bits value) = value)
  | StringTag value =>
      (Z.of_nat (length (TextEncoder_encode value)) <? 65536) && plain_text value
  | ByteArrayTag values =>
      (Z.of_nat (length values) <? 2 ^ 31) && forallb (is_int 0 128) values
  | IntArrayTag values =>
      (Z.of_nat (length values) <? 2 ^ 31)
      && forallb (is_int (- 2 ^ 31) (2 ^ 31)) values
  | LongArrayTag values =>
      (Z.of_nat (length values) <? 2 ^ 31)
      && forallb (fun z => (- 2 ^ 63 <=? z) && (z <? 2 ^ 63)) values
  | ListTag values =>
      (Z.of_nat (length values) <? 2 ^ 31)
      && forallb storable values
      && (match values with [] => true | _ => false end
          || negb (forallb NBTParser.isWrapped values))
  | CompoundTag items =>
      bool_decide (NoDup items.*1)
      && forallb (fun '(key, v) =>
                    (Z.of_nat (length (TextEncoder_encode key)) <? 65536)
                    && plain_text key && storable v) items
  end.

(** Fuel that is enough to read a tag back. *)
Fixpoint fuel_for (tag : Tag) : nat :=
  match tag with
  | ListTag values => 4 + foldr Nat.max 0%nat (fuel_for <$> values)
  | CompoundTag items =>
      2 + length items + foldr Nat.max 0%nat ((fun '(_, v) => fuel_for v) <$> items)
  | _ => 1
  end.

(** [seg data pos bs]: the bytes [bs] lie in [data] from [pos] on. *)
Definition seg (data : list Z) (pos : nat) (bs : list Z) : Prop :=
  exists before after, data = before ++ bs ++ after /\ length before = pos.

Definition is_compound (tag : Tag) : Prop :=
  match tag with CompoundTag _ => True | _ => False end.

Definition is_leaf (tag : Tag) : Prop :=
  match tag with CompoundTag _ | ListTag _ => False | _ => True end.

(** [reads_back data tag]: wherever the bytes of a storable [tag] lie in
    [data], followed by one more byte unless [tag] is a Compound,
    [parseFromTagType] reads [tag] back and stops after them. *)
Definition reads_back (data : list Z) (tag : Tag) : Prop :=
  forall fuel pos,
    storable tag = true ->
    (fuel_for tag <= fuel)%nat ->
    seg data pos (encodeValue tag) ->
    (pos + length (encodeValue tag) < length data)%nat \/ is_compound tag ->
    NBTParser.parseFromTagType data fuel (Some (getId tag)) (Z.of_nat pos)
    = OK (tag, Z.of_nat (pos + length (encodeValue tag))).

(** The wrapper of an element of a heterogeneous List. *)
Definition wrap (tag : Tag) : Tag := CompoundTag [("", tag)].

(** ** The writer's buffer *)

(** The buffer is never empty and the pointer never beyond it. *)
Definition ctx_ok (ctx : DumpContext.t) : Prop :=
  (DumpContext.pointer ctx <= length (DumpContext.buffer ctx))%nat
  /\ (0 < length (DumpContext.buffer ctx))%nat.

(** [appends op bytes]: when [op] returns, the written part of the buffer
    has grown by exactly [bytes]. *)
Definition appends (op : DumpContext.t -> result DumpContext.t) (bytes : list Z) : Prop :=
  forall ctx ctx',
    ctx_ok ctx -> op ctx = OK ctx' ->
    ctx_ok ctx' /\ DumpContext.final ctx' = DumpContext.final ctx ++ bytes.

(** ** The writer on a buffer that has not grown *)

(** The bytes that [NBTDumper.dump] writes for a root: a root that is a
    Compound with a single entry is written as that entry, under the id of
    the root; any other root is written after the id of a Compound and an
    empty name. *)
Definition encodeRoot (root : Tag) : list Z :=
  match root with
  | CompoundTag [(name, value)] => TAG_Compound :: encodeString name ++ encodeValue value
  | _ => TAG_Compound :: encodeString "" ++ getId root :: encodeValue root
  end.

(** [fits op n]: on the initial buffer of 256 bytes, with its view, [op]
    returns and moves the pointer by [n], as long as the pointer stays
    below the end of the buffer. *)
Definition fits (op : DumpContext.t -> result DumpContext.t) (n : nat) : Prop :=
  forall ctx,
    length (DumpContext.buffer ctx) = 256%nat ->
    DumpContext.view ctx = 256%nat ->
    (DumpContext.pointer ctx + n < 256)%nat ->
    exists ctx',
      op ctx = OK ctx'
      /\ length (DumpContext.buffer ctx') = 256%nat
      /\ DumpContext.view ctx' = 256%nat
      /\ DumpContext.pointer ctx' = (DumpContext.pointer ctx + n)%nat.

(** The tags of a number: Byte, Short, Int, Long, Float and Double. *)
Definition is_number_tag (tag : Tag) : Prop :=
  match tag with
  | ByteTag _ | ShortTag _ | IntTag _ | LongTag _ | FloatTag _ | DoubleTag _ => True
  | _ => False
  end.

(** ** tags.ts: [CompoundTag.put] and [CompoundTag.delete] *)

(** [Map.prototype.delete]: the entry of the key, if there is one, is
    removed; the other entries keep their order. *)
Fixpoint JsMap_delete {V} (k : string) (m : list (string * V)) : list (string * V) :=
  match m with
  | [] => []
  | (k', v) :: m' => if decide (k' = k) then m' else (k', v) :: JsMap_delete k m'
  end.

Definition compound_put (items : list (string * Tag)) (name : string) (tag : Tag)
    : list (string * Tag) :=
  JsMap.set name tag items.

Definition compound_delete (items : list (string * Tag)) (name : string)
    : list (string * Tag) :=
  JsMap_delete name items.

(** ** Numbers as text: [Number::toString] and [BigInt::toString] *)

Definition digit_char (d : Z) : ascii := ascii_of_nat (Z.to_nat (48 + d)).

(** The [k] low decimal digits of [n]. *)
Fixpoint low_digits (k : nat) (n : Z) : list ascii :=
  match k with
  | O => []
  | S k' => low_digits k' (n / 10) ++ [digit_char (n mod 10)]
  end.

(** The number of decimal digits of [n >= 0]: a division by ten lowers
    the binary logarithm by three at least, so that [Z.log2 n] steps are
    enough. *)
Fixpoint ndigits_go (fuel : nat) (n : Z) : nat :=
  match fuel with
  | O => 1
  | S fuel' => if n <? 10 then 1 else S (ndigits_go fuel' (n / 10))
  end.
Definition ndigits (n : Z) : nat := ndigits_go (Z.to_nat (Z.log2 n)) n.

Definition digits (n : Z) : list ascii := low_digits (ndigits n) n.

(** [BigInt::toString]: the decimal digits after the sign. *)
Definition BigInt_toString (z : Z) : list ascii :=
  (if z <? 0 then ["-"%char] else []) ++ digits (Z.abs z).

(** The digits without their trailing zeros. *)
Fixpoint strip_zeros (ds : list ascii) : list ascii :=
  match ds with
  | [] => []
  | d :: ds' =>
      match strip_zeros ds' with
      | [] => if bool_decide (d = "0"%char) then [] else [d]
      | r => d :: r
      end
  end.

(** The shortest decimal that reads back as the binary64 value
    [m * 10^-e], with [m > 0]: the first of the truncations of [m] to
    1, 2, ... digits, or of their successors in the last digit kept, that
    rounds to the value; of two that do, the closer one, and the even one
    on a tie.  [j] is the number of digits dropped; the result is the
    decimal chosen, at the scale [10^-e] of [m]. *)
Fixpoint shortest (j : nat) (m : Z) (e : nat) : Z :=
  match j with
  | O => m
  | S j' =>
      let p := 10 ^ Z.of_nat j in
      let lo := m / p * p in
      let hi := lo + p in
      let ok c := bool_decide (to_double (normalize c e) = Finite m e) in
      if ok lo then
        if ok hi then
          if m - lo <? hi - m then lo
          else if hi - m <? m - lo then hi
          else if Z.even (m / p) then lo else hi
        else lo
      else if ok hi then hi
      else shortest j' m e
  end.

(** The digits [ds] of a decimal whose value lies in [10^(n-1), 10^n),
    laid out as [Number::toString] does: plain up to 21 integer digits,
    with leading zeros down to [10^-6], and with an exponent beyond. *)
Definition format_digits (ds : list ascii) (n : Z) : list ascii :=
  let k := Z.of_nat (length ds) in
  if (k <=? n) && (n <=? 21) then ds ++ replicate (Z.to_nat (n - k)) "0"%char
  else if (0 <? n) && (n <=? 21) then
    take (Z.to_nat n) ds ++ "."%char :: drop (Z.to_nat n) ds
  else if (-6 <? n) && (n <=? 0) then
    "0"%char :: "."%char :: replicate (Z.to_nat (- n)) "0"%char ++ ds
  else
    let e := n - 1 in
    let exponent :=
      "e"%char :: (if e <? 0 then "-"%char else "+"%char) :: digits (Z.abs e) in
    match ds with
    | [] => exponent
    | [d] => d :: exponent
    | d :: ds' => d :: "."%char :: ds' ++ exponent
    end.

(** [Number::toString] in radix 10, as a template literal applies it to a
    number; [undefined] is written by name. *)
Definition Number_toString (v : number) : list ascii :=
  match v with
  | NaN => String.list_ascii_of_string "NaN"
  | Undefined => String.list_ascii_of_string "undefined"
  | Infinity negative =>
      (if negative then ["-"%char] else []) ++ String.list_ascii_of_string "Infinity"
  | Finite m e =>
      if m =? 0 then ["0"%char]
      else
        let c := shortest (ndigits (Z.abs m) - 1) (Z.abs m) e in
        (if m <? 0 then ["-"%char] else [])
        ++ format_digits (strip_zeros (digits c))
             (Z.of_nat (ndigits c) - Z.of_nat e)
  end.

(** ** util.ts

    The text of a string is the list of its characters. *)

Definition is_letter (c : ascii) : bool := in_range "a" "z" c || in_range "A" "Z" c.

(** [/^[A-Za-z][A-Za-z0-9]*$/.test(text)] *)
Definition VALID_QUOTELESS_STRING_RE (text : list ascii) : bool :=
  match text with
  | c :: rest => is_letter c && forallb (fun c => is_letter c || in_range "0" "9" c) rest
  | [] => false
  end.

(** [/^[A-Za-z][A-Za-z_0-9\+\-\.\_]*$/.test(text)] *)
Definition VALID_QUOTELESS_KEY_RE (text : list ascii) : bool :=
  match text with
  | c :: rest =>
      is_letter c
      && forallb (fun c => is_letter c || in_range "0" "9" c
                           || includes ["_"; "+"; "-"; "."]%char c) rest
  | [] => false
  end.

(** [text.replaceAll(pattern, replacement)], for a pattern of one
    character. *)
Fixpoint replaceAll (pattern : ascii) (replacement : list ascii) (text : list ascii)
    : list ascii :=
  match text with
  | [] => []
  | c :: text' =>
      (if bool_decide (c = pattern) then replacement else [c])
      ++ replaceAll pattern replacement text'
  end.

Definition stringifyTextEscaped (text : list ascii) (quotelessRegex : list ascii -> bool)
    : list ascii :=
  if quotelessRegex text then text
  else "034"%char
       :: replaceAll "034" ["\"; "034"]%char (replaceAll "\" ["\"; "\"]%char text)
       ++ ["034"%char].

(** ** tags.ts: [stringify] *)

(** [items.join(", ")] *)
Fixpoint Array_join (items : list (list ascii)) : list ascii :=
  match items with
  | [] => []
  | [item] => item
  | item :: items' => item ++ ","%char :: " "%char :: Array_join items'
  end.

Definition chars (text : string) : list ascii := String.list_ascii_of_string text.

Fixpoint stringify (tag : Tag) : list ascii :=
  match tag with
  | ByteTag value => Number_toString value ++ chars "b"
  | ShortTag value => Number_toString value ++ chars "s"
  | IntTag value => Number_toString value
  | LongTag value => BigInt_toString value ++ chars "l"
  | FloatTag value => Number_toString value ++ chars "f"
  | DoubleTag value => Number_toString value ++ chars "d"
  | StringTag value => stringifyTextEscaped (chars value) VALID_QUOTELESS_STRING_RE
  | CompoundTag items =>
      foldl (fun stringified '(key, value) =>
               (if (1 <? length stringified)%nat then stringified ++ chars ", "
                else stringified)
               ++ stringifyTextEscaped (chars key) VALID_QUOTELESS_KEY_RE
               ++ chars ": " ++ value)
        (chars "{") ((fun '(key, value) => (key, stringify value)) <$> items)
      ++ chars "}"
  | ListTag items => chars "[" ++ Array_join (stringify <$> items) ++ chars "]"
  | ByteArrayTag items =>
      chars "[B; " ++ Array_join ((fun item => Number_toString item ++ chars "b") <$> items)
      ++ chars "]"
  | IntArrayTag items =>
      chars "[I; " ++ Array_join (Number_toString <$> items) ++ chars "]"
  | LongArrayTag items =>
      chars "[L; " ++ Array_join ((fun item => BigInt_toString item ++ chars "l") <$> items)
      ++ chars "]"
  end.

(** ** The tags that are printed as they are read

    A number is printed with at most 21 integer digits only when it is an
    integer; [printable_number] keeps the integers of fewer than sixteen
    digits, which a binary64 value holds exactly.  A text that is printed
    without quotes has to be one identifier of the lexer, other than
    [true] and [false]; a text that is printed within quotes has to be
    free of backslashes.  The first element of a List must not be one of
    the strings [B], [I] and [L], which mark a typed array. *)

Definition printable_number (v : number) : bool := is_int (- 10 ^ 15 + 1) (10 ^ 15) v.

Definition printable_text (quotelessRegex : list ascii -> bool) (text : list ascii)
    : bool :=
  if quotelessRegex text then
    forallb isIdentifierChar text
    && negb (bool_decide (str text = "true"))
    && negb (bool_decide (str text = "false"))
  else negb (bool_decide ("\"%char ∈ text)).

Definition is_array_marker (tag : Tag) : bool :=
  match tag with
  | StringTag value =>
      bool_decide (value = "B") || bool_decide (value = "I") || bool_decide (value = "L")
  | _ => false
  end.

Fixpoint printable (tag : Tag) : bool :=
  match tag with
  | ByteTag value | ShortTag value | IntTag value | FloatTag value | DoubleTag value =>
      printable_number value
  | LongTag _ => true
  | StringTag value => printable_text VALID_QUOTELESS_STRING_RE (chars value)
  | ByteArrayTag items | IntArrayTag items => forallb printable_number items
  | LongArrayTag _ => true
  | ListTag items =>
      forallb printable items
      && match items with
         | first :: _ => negb (is_array_marker first)
         | [] => true
         end
  | CompoundTag items =>
      bool_decide (NoDup items.*1)
      && forallb (fun '(key, value) =>
                    printable_text VALID_QUOTELESS_KEY_RE (chars key)
                    && printable value) items
  end.

(** Fuel that is enough to read a printed tag. *)
Fixpoint text_fuel (tag : Tag) : nat :=
  match tag with
  | ListTag items => 2 + length items + foldr Nat.max 0%nat (text_fuel <$> items)
  | CompoundTag items =>
      2 + length items + foldr Nat.max 0%nat ((fun '(_, v) => text_fuel v) <$> items)
  | ByteArrayTag items | IntArrayTag items => 2 + length items
  | LongArrayTag items => 2 + length items
  | _ => 1
  end.

(** ** The tokens of a printed tag *)

Definition delimiter (c : ascii) : Token := mkToken DELIMITER (str [c]).

(** The tokens of the elements of a list, with a comma before each of
    them but the first. *)
Fixpoint separated (first : bool) (items : list (list Token)) : list Token :=
  match items with
  | [] => []
  | item :: items' =>
      (if first then [] else [delimiter ","]) ++ item ++ separated false items'
  end.

Definition number_tokens (text : list ascii) (suffix : option ascii) : list Token :=
  mkToken NUMBER (str text)
  :: match suffix with Some c => [mkToken SUFFIX (str [c])] | None => [] end.

Fixpoint tokens (tag : Tag) : list Token :=
  match tag with
  | ByteTag value => number_tokens (Number_toString value) (Some "b"%char)
  | ShortTag value => number_tokens (Number_toString value) (Some "s"%char)
  | IntTag value => number_tokens (Number_toString value) None
  | LongTag value => number_tokens (BigInt_toString value) (Some "l"%char)
  | FloatTag value => number_tokens (Number_toString value) (Some "f"%char)
  | DoubleTag value => number_tokens (Number_toString value) (Some "d"%char)
  | StringTag value => [mkToken STRING value]
  | CompoundTag items =>
      delimiter "{"
      :: separated true
           ((fun '(key, value) => mkToken STRING key :: delimiter ":" :: tokens value)
              <$> items)
      ++ [delimiter "}"]
  | ListTag items => delimiter "[" :: separated true (tokens <$> items) ++ [delimiter "]"]
  | ByteArrayTag items =>
      delimiter "[" :: mkToken STRING "B" :: delimiter ";"
      :: separated true
           ((fun item => number_tokens (Number_toString item) (Some "b"%char)) <$> items)
      ++ [delimiter "]"]
  | IntArrayTag items =>
      delimiter "[" :: mkToken STRING "I" :: delimiter ";"
      :: separated true
           ((fun item => number_tokens (Number_toString item) None) <$> items)
      ++ [delimiter "]"]
  | LongArrayTag items =>
      delimiter "[" :: mkToken STRING "L" :: delimiter ";"
      :: separated true
           ((fun item => number_tokens (BigInt_toString item) (Some "l"%char)) <$> items)
      ++ [delimiter "]"]
  end.

(** [stream source lx toks lx']: from the state [lx], the lexer returns
    the tokens [toks] one after the other and is left in the state [lx']. *)
Inductive stream (source : list ascii) : Lexer.t -> list Token -> Lexer.t -> Prop :=
  | stream_nil lx : stream source lx [] lx
  | stream_cons lx tok lx1 toks lx2 :
      Lexer.next source lx = OK (tok, lx1) ->
      stream source lx1 toks lx2 ->
      stream source lx (tok :: toks) lx2.

(** [sees source st toks lx']: the parser holds the first of the tokens
    [toks], and its lexer is about to return the others. *)
Definition sees (source : list ascii) (st : SNBTParser.t) (toks : list Token)
    (lx' : Lexer.t) : Prop :=
  exists rest, toks = SNBTParser.current st :: rest
               /\ stream source (SNBTParser.lexer st) rest lx'.

(** [lexes source p ln toks p' ln']: from the position [p], with the last
    number at [ln], the lexer returns the tokens [toks] and is left at the
    position [p'], with the last number at [ln']. *)
Definition lexes (source : list ascii) (p : nat) (ln : Z) (toks : list Token)
    (p' : nat) (ln' : Z) : Prop :=
  forall more lx',
    stream source (Lexer.mk p' ln') more lx' ->
    stream source (Lexer.mk p ln) (toks ++ more) lx'.

(** What may follow a printed tag: nothing, or a delimiter. *)
Definition boundary (post : list ascii) : Prop :=
  match post with
  | [] => True
  | c :: _ => includes CONSTANT_TOKENS c = true
  end.

(** What follows a tag within its stream: a token that is not a suffix. *)
Definition follows (toks : list Token) : Prop :=
  match toks with
  | nxt :: _ => kind nxt <> SUFFIX
  | [] => False
  end.

(** ** Termination of the text parser *)

(** What the parser has left to read: the characters after the position of
    its lexer, and its current token unless it is the end of the input. *)
Definition remaining (source : list ascii) (st : SNBTParser.t) : nat :=
  (length source - Lexer.pos (SNBTParser.lexer st))
  + (if decide (kind (SNBTParser.current st) = EOF) then 0 else 1).

(** ** A compound text with repeated names *)

(** The text of a compound with the entries [entries], in their order,
    whether a name occurs twice or not. *)
Definition compound_text (entries : list (string * Tag)) : list ascii :=
  "{"%char
  :: Array_join ((fun '(key, value) =>
                    stringifyTextEscaped (chars key) VALID_QUOTELESS_KEY_RE
                    ++ chars ": " ++ stringify value) <$> entries)
  ++ ["}"%char].

(** [items.set(key, value)] for each of the entries, in their order. *)
Definition set_all {V} (entries : list (string * V)) (items : list (string * V))
    : list (string * V) :=
  foldl (fun items '(key, value) => JsMap.set key value items) items entries.

(** The last value that the entries give to a name. *)
Definition last_value {V} (entries : list (string * V)) (name : string) : option V :=
  JsMap.get name (reverse entries).

(** * Properties *)

(** ** The binary writer *)

(** C2 (the claim fails on the code): the writer does not survive a growth
    of its buffer.  [growBuffer] replaces the view by an empty one, so the
    first [DataView] write after a growth raises a RangeError: an IntArray
    of 62 elements cannot be dumped; and it doubles the buffer once only, so
    a raw append longer than the doubled buffer raises a RangeError too: a
    ByteArray of 600 elements cannot be dumped. *)
Theorem dump_fails_after_growth :
  dump (IntArrayTag (replicate 62 (ofZ 5))) = Err RangeError
  /\ dump (ByteArrayTag (replicate 600 (ofZ 5))) = Err RangeError
  /\ is_OK (dump (IntArrayTag (replicate 61 (ofZ 5)))) = true.
Proof. repeat split; vm_compute; reflexivity. Qed.

(** ** The binary reader *)

(** C3 (the claim fails on the code): a multi-byte read that ends exactly
    at the last byte of the buffer is rejected as an end of input, whatever
    the buffer: the bounds check is [pos + bytes >= length], so the read
    fails with the end-of-input error exactly when at most [bytes] bytes
    remain.  The Int 5 named by the empty string, 7 bytes, is not decoded,
    while the same bytes followed by one more are. *)
Theorem readInteger_rejects_exact_fit :
  (forall (before last : list Z),
      NBTParser.readInteger (before ++ last)
        (Z.of_nat (length last)) (Z.of_nat (length before)) = Err UnexpectedEOF)
  /\ (forall data bytes pos,
        NBTParser.readInteger data bytes pos = Err UnexpectedEOF
        <-> Z.of_nat (length data) - pos <= bytes)
  /\ (forall fuel, parseNBT (S fuel) [3; 0; 0; 0; 0; 0; 5] = Err UnexpectedEOF)
  /\ (forall fuel, parseNBT (S fuel) [3; 0; 0; 0; 0; 0; 5; 0]
                   = OK (CompoundTag [("", IntTag (ofZ 5))])).
Proof.
  split; [|split; [|split]].
  - intros before last. unfold NBTParser.readInteger.
    rewrite length_app, Nat2Z.inj_add.
    case_match; [done|]. apply Z.leb_gt in H. lia.
  - intros data bytes pos. unfold NBTParser.readInteger.
    destruct (_ <=? _) eqn:Hle.
    + apply Z.leb_le in Hle. split; [lia|done].
    + apply Z.leb_gt in Hle. destruct (pos <? 0); split; first [done | lia].
  - intros fuel. reflexivity.
  - intros fuel. reflexivity.
Qed.

(** C8: whenever [parseNBT] returns, it returns a Compound with exactly
    one entry, the name read after the leading tag id mapped to the value
    read after the name; and it fails on every buffer that starts with the
    End tag id. *)
Theorem parse_returns_wrapper :
  (forall fuel data tag,
      parseNBT fuel data = OK tag ->
      exists tagId pos name pos' value pos'',
        NBTParser.expectByte data None 0 = OK (tagId, pos)
        /\ tagId <> Some TAG_End
        /\ NBTParser.parseString data pos = OK (name, pos')
        /\ NBTParser.parseFromTagType data fuel tagId pos' = OK (value, pos'')
        /\ tag = CompoundTag [(name, value)]
        /\ compound_list [(name, value)] = [name]
        /\ compound_get [(name, value)] name = Some value)
  /\ (forall fuel rest, parseNBT fuel (TAG_End :: rest) = Err (InvalidRootTag TAG_End)).
Proof.
  split.
  - intros fuel data tag. unfold parseNBT, NBTParser.parse.
    destruct (NBTParser.expectByte data None 0) as [[tagId pos]| |] eqn:E1; try done.
    cbn. case_decide as Hend; [done|].
    destruct (NBTParser.parseString data pos) as [[name pos']| |] eqn:E2; try done.
    cbn.
    destruct (NBTParser.parseFromTagType data fuel tagId pos') as [[v pos'']| |] eqn:E3;
      try done.
    cbn. intros [= <-].
    exists tagId, pos, name, pos', v, pos''. repeat split; try done.
    unfold compound_get. cbn. by rewrite decide_True.
  - intros fuel rest. reflexivity.
Qed.

(** The wrapper is extra when the value is itself a Compound. *)
Lemma parse_returns_wrapper_witness :
  parseNBT 2 [10; 0; 1; 97; 0] = OK (CompoundTag [("a", CompoundTag [])])
  /\ exists name value,
       CompoundTag [("a", CompoundTag [])] = CompoundTag [(name, value)].
Proof.
  split; [reflexivity|].
  destruct (proj1 parse_returns_wrapper 2%nat [10; 0; 1; 97; 0]
              (CompoundTag [("a", CompoundTag [])]) eq_refl)
    as (_ & _ & name & _ & value & _ & _ & _ & _ & _ & Htag & _).
  exists name, value. exact Htag.
Defined.

(** C9 (the claim fails on the code): a Byte payload and the elements of a
    ByteArray are read from the [Uint8Array] as they are, unsigned: the byte
    0xFF decodes to 255, and a Byte -1 that is dumped and read again comes
    back as 255. *)
Theorem byte_payload_is_unsigned :
  (forall fuel, parseNBT (S fuel) [1; 0; 0; 255]
                = OK (CompoundTag [("", ByteTag (ofZ 255))]))
  /\ (forall fuel, parseNBT (S fuel) [7; 0; 0; 0; 0; 0; 1; 255; 0]
                   = OK (CompoundTag [("", ByteArrayTag [ofZ 255])]))
  /\ (forall fuel,
        (bytes ← dump (CompoundTag [("r", CompoundTag [("b", ByteTag (ofZ (-1)))])]);
         parseNBT (S (S (S fuel))) bytes)
        = OK (CompoundTag [("r", CompoundTag [("b", ByteTag (ofZ 255))])])).
Proof. repeat split; intros fuel; reflexivity. Qed.

(** ** The textual reader *)

Lemma nextFrom_identifier c rest st :
  includes SKIP_CHARS c = false ->
  includes CONSTANT_TOKENS c = false ->
  bool_decide (Lexer.lastNumber st = Z.of_nat (Lexer.pos st) - 1)
  && includes NUMBER_SUFFIXES c = false ->
  bool_decide (c = "+"%char) || bool_decide (c = "-"%char) || in_range "0" "9" c
  = false ->
  isIdentifierChar c = true ->
  exists tok st',
    Lexer.nextFrom (c :: rest) st = OK (tok, st')
    /\ (kind tok = STRING \/ kind tok = BOOLEAN).
Proof.
  intros H1 H2 H3 H4 H5. cbn [Lexer.nextFrom]. rewrite H1, H2, H3, H4, H5.
  eexists _, _. split; [reflexivity|]. cbn [kind].
  match goal with |- context [if ?b then _ else _] => destruct b end; auto.
Qed.

(** C5 (the claim fails on the code): [NUMBER_SUFFIXES] lists [d] twice and
    [D] never, so a [D] that follows a number is not a SUFFIX token but the
    start of a string token, and [parseSNBT "5.0D"] is the Float 5, its
    trailing [D] left unread.  The eleven listed letters are suffixes right
    after a number, and all twelve letters start a string or boolean token
    anywhere else. *)
Theorem suffix_D_is_not_a_suffix :
  includes NUMBER_SUFFIXES "D" = false
  /\ Lexer.next (String.list_ascii_of_string "5.0D") (Lexer.mk 3 2)
     = OK (mkToken STRING "D", Lexer.mk 4 2)
  /\ (forall fuel, parseSNBT (S fuel) "5.0D" = OK (FloatTag (Finite 5 0)))
  /\ (forall fuel, parseSNBT (S fuel) "5.0d" = OK (DoubleTag (Finite 5 0)))
  /\ (forall c rest pos,
        c ∈ ["b"; "B"; "s"; "S"; "i"; "I"; "l"; "L"; "f"; "F"; "d"]%char ->
        Lexer.nextFrom (c :: rest) (Lexer.mk pos (Z.of_nat pos - 1))
        = OK (mkToken SUFFIX (str [c]), Lexer.mk (S pos) (Z.of_nat pos - 1)))
  /\ (forall c rest st,
        c ∈ ["b"; "B"; "s"; "S"; "i"; "I"; "l"; "L"; "f"; "F"; "d"; "D"]%char ->
        Lexer.lastNumber st <> Z.of_nat (Lexer.pos st) - 1 ->
        exists tok st',
          Lexer.nextFrom (c :: rest) st = OK (tok, st')
          /\ (kind tok = STRING \/ kind tok = BOOLEAN)).
Proof.
  split; [reflexivity|]. split; [reflexivity|].
  split; [intros fuel; reflexivity|]. split; [intros fuel; reflexivity|]. split.
  - intros c rest pos Hc. cbn [Lexer.nextFrom Lexer.pos Lexer.lastNumber].
    rewrite bool_decide_true by done.
    repeat (apply elem_of_cons in Hc as [->|Hc]; [reflexivity|]).
    by apply elem_of_nil in Hc.
  - intros c rest st Hc Hn.
    assert (forall b, bool_decide (Lexer.lastNumber st = Z.of_nat (Lexer.pos st) - 1)
                      && b = false) as Hfar
      by (intros b; by rewrite bool_decide_false).
    repeat (apply elem_of_cons in Hc as [->|Hc];
            [by apply nextFrom_identifier|]).
    by apply elem_of_nil in Hc.
Qed.

Lemma suffix_D_is_not_a_suffix_witness :
  Lexer.nextFrom ["b"%char] (Lexer.mk 1 0) = OK (mkToken SUFFIX "b", Lexer.mk 2 0).
Proof.
  apply (proj1 (proj2 (proj2 (proj2 (proj2 suffix_D_is_not_a_suffix))))
           "b"%char [] 1%nat).
  apply list_elem_of_here.
Defined.

(** C6 (the claim fails on the code): [parseNumber] never compares the
    shape of the literal with the suffix, so [parseSNBT "5.0b"] is the
    Byte 5 and not an error, and [parseSNBT "5f"] is the Float 5; only the
    suffix [l] rejects a fractional literal, through [BigInt]. *)
Theorem parseNumber_ignores_the_shape :
  (forall fuel, parseSNBT (S fuel) "5.0b" = OK (ByteTag (Finite 5 0)))
  /\ (forall fuel, parseSNBT (S fuel) "5.5s" = OK (ShortTag (Finite 55 1)))
  /\ (forall fuel, parseSNBT (S fuel) "5f" = OK (FloatTag (Finite 5 0)))
  /\ (forall fuel, parseSNBT (S fuel) "5.0l" = Err (SyntaxError "5.0")).
Proof. repeat split; intros fuel; reflexivity. Qed.


Lemma is_quote_cases c : is_quote c = true -> c = "034"%char \/ c = "039"%char.
Proof.
  unfold is_quote. intros H. apply orb_true_iff in H as [H|H];
    apply bool_decide_eq_true in H; auto.
Qed.

Lemma nextFrom_quote opener rest st :
  is_quote opener = true ->
  Lexer.nextFrom (opener :: rest) st
  = '(content, pos') ← Lexer.charLoop rest opener [] (S (Lexer.pos st));
    OK (mkToken STRING (str content),
        {| Lexer.pos := S pos'; Lexer.lastNumber := Lexer.lastNumber st |}).
Proof.
  intros [-> | ->]%is_quote_cases; cbn [Lexer.nextFrom];
    destruct (bool_decide _); reflexivity.
Qed.

Lemma charLoop_closed n : forall body opener rest content pos,
  (length body <= n)%nat ->
  is_quote opener = true ->
  closed_body opener body = true ->
  Lexer.charLoop (body ++ opener :: rest) opener content pos
  = OK (content ++ unescape opener body, (pos + length body)%nat).
Proof.
  induction n as [|n IH]; intros body opener rest content pos Hlen Hq Hc.
  - destruct body; [|simpl in Hlen; lia]. simpl.
    assert (bool_decide (opener = "\"%char) = false) as ->.
    { apply is_quote_cases in Hq as [-> | ->]; reflexivity. }
    rewrite bool_decide_true by done. by rewrite app_nil_r, Nat.add_0_r.
  - destruct body as [|c body].
    { apply (IH [] opener rest content pos); [simpl; lia|done|done]. }
    simpl in Hlen. cbn [app Lexer.charLoop closed_body unescape] in *.
    destruct (bool_decide (c = "\"%char)) eqn:Hb.
    + apply bool_decide_eq_true in Hb as ->.
      destruct body as [|c1 body]; [done|]. cbn [app].
      destruct (is_quote c1) eqn:Hq1.
      * rewrite IH by (simpl in *; first [lia | done]).
        simpl. f_equal. f_equal; [by rewrite <- app_assoc | lia].
      * assert (bool_decide ("\"%char = opener) = false) as ->.
        { apply is_quote_cases in Hq as [-> | ->]; reflexivity. }
        change (c1 :: body ++ opener :: rest) with ((c1 :: body) ++ opener :: rest).
        rewrite (IH (c1 :: body)) by (simpl in *; first [lia | done]).
        simpl. f_equal. f_equal; [by rewrite <- app_assoc | lia].
    + apply andb_true_iff in Hc as [Hne Hc]. apply negb_true_iff in Hne.
      rewrite Hne. rewrite IH by (first [lia | done]).
      simpl. f_equal. f_equal; [by rewrite <- app_assoc | lia].
Qed.

(** What [charLoop] does: a backslash before either quote character,
    whichever opened the string, stands for the opening delimiter; a
    backslash before any other character is kept, and that character is
    read in its turn.  So a string whose body reaches its closing quote is
    lexed as one STRING token holding [unescape] of the body, and the lexer
    stops after the closing quote. *)
Lemma quoted_escape_rule opener body rest st :
  is_quote opener = true ->
  closed_body opener body = true ->
  Lexer.nextFrom (opener :: body ++ opener :: rest) st
  = OK (mkToken STRING (str (unescape opener body)),
        {| Lexer.pos := (Lexer.pos st + length body + 2)%nat;
           Lexer.lastNumber := Lexer.lastNumber st |}).
Proof.
  intros Hq Hc. rewrite nextFrom_quote by done.
  rewrite (charLoop_closed (length body)) by done.
  cbn. do 3 f_equal. lia.
Qed.

Lemma ordinary_cases opener c :
  is_quote opener = true -> ordinary c = true ->
  bool_decide (c = "\"%char) = false /\ bool_decide (c = opener) = false.
Proof.
  intros Hq [Hb Hc]%andb_true_iff. apply negb_true_iff in Hb, Hc. split; [done|].
  apply bool_decide_eq_false. intros ->. by rewrite Hq in Hc.
Qed.

Lemma unescape_ordinary opener pre more :
  is_quote opener = true -> forallb ordinary pre = true ->
  unescape opener (pre ++ more) = pre ++ unescape opener more
  /\ spec_unescape opener (pre ++ more) = pre ++ spec_unescape opener more
  /\ closed_body opener (pre ++ more) = closed_body opener more.
Proof.
  intros Hq. induction pre as [|c pre IH]; [done|].
  intros [Hc Hpre]%andb_true_iff. destruct (IH Hpre) as (IH1 & IH2 & IH3).
  destruct (ordinary_cases opener c Hq Hc) as [Hb Ho].
  cbn [app unescape spec_unescape closed_body]. rewrite Hb, Ho, IH1, IH2, IH3. done.
Qed.

(** C4 (the claim fails on the code): in a quoted string, a backslash
    before the quote character that did not open the string is not kept:
    the two characters are lexed as the opening delimiter.  The rule of the
    specification keeps them as they are, and the token differs from it. *)
Theorem other_quote_is_an_escape opener other pre post rest st :
  is_quote opener = true ->
  is_quote other = true ->
  other <> opener ->
  forallb ordinary pre = true ->
  closed_body opener post = true ->
  Lexer.nextFrom (opener :: (pre ++ "\"%char :: other :: post) ++ opener :: rest) st
  = OK (mkToken STRING (str (pre ++ opener :: unescape opener post)),
        {| Lexer.pos := (Lexer.pos st + length (pre ++ "\"%char :: other :: post) + 2)%nat;
           Lexer.lastNumber := Lexer.lastNumber st |})
  /\ spec_unescape opener (pre ++ "\"%char :: other :: post)
     = pre ++ "\"%char :: other :: spec_unescape opener post
  /\ str (pre ++ opener :: unescape opener post)
     <> str (spec_unescape opener (pre ++ "\"%char :: other :: post)).
Proof.
  intros Hq Hother Hne Hpre Hpost.
  destruct (unescape_ordinary opener pre ("\"%char :: other :: post) Hq Hpre)
    as (Hu & Hsu & Hc).
  assert (bool_decide (other = "\"%char) = false) as Hob
    by (apply is_quote_cases in Hother as [-> | ->]; reflexivity).
  assert (spec_unescape opener (pre ++ "\"%char :: other :: post)
          = pre ++ "\"%char :: other :: spec_unescape opener post) as Hspec.
  { rewrite Hsu. cbn [spec_unescape]. rewrite bool_decide_true by done.
    rewrite (bool_decide_false (other = opener)) by done.
    by rewrite Hob. }
  split; [|split; [done|]].
  - rewrite quoted_escape_rule; [|done|].
    + rewrite Hu. cbn [unescape]. rewrite bool_decide_true by done. by rewrite Hother.
    + rewrite Hc. cbn [closed_body]. rewrite bool_decide_true by done.
      by rewrite Hother.
  - rewrite Hspec. intros Heq.
    apply (f_equal String.list_ascii_of_string) in Heq. unfold str in Heq.
    rewrite !String.list_ascii_of_string_of_list_ascii in Heq.
    apply app_inv_head in Heq. injection Heq as -> _.
    apply is_quote_cases in Hq as [Hq | Hq]; discriminate.
Qed.

(** Within double quotes, the characters i, t, backslash, single quote, s
    are lexed as i, t, double quote, s. *)
Lemma other_quote_is_an_escape_witness :
  Lexer.nextFrom ["034"; "i"; "t"; "\"; "039"; "s"; "034"]%char Lexer.new
  = OK (mkToken STRING (str ["i"; "t"; "034"; "s"]%char), Lexer.mk 7 (-777)).
Proof.
  refine (proj1 (other_quote_is_an_escape "034"%char "039"%char ["i"; "t"]%char
                   ["s"%char] [] Lexer.new _ _ _ _ _)); (reflexivity || discriminate).
Defined.

Lemma list_ascii_of_string_app (s1 s2 : string) :
  String.list_ascii_of_string (s1 +:+ s2)
  = String.list_ascii_of_string s1 ++ String.list_ascii_of_string s2.
Proof. induction s1 as [|c s1 IH]; [done|]. simpl. f_equal. exact IH. Qed.

Lemma bind_OK {A B} (a : A) (f : A -> result B) : (OK a ≫= f) = f a.
Proof. reflexivity. Qed.

Lemma eat_OK source kind' value' st tok lx :
  SNBTParser.matches kind' value' st = true ->
  Lexer.next source (SNBTParser.lexer st) = OK (tok, lx) ->
  SNBTParser.eat source kind' value' st
  = OK (SNBTParser.current st, SNBTParser.mk lx tok).
Proof. intros Hm Hn. unfold SNBTParser.eat. rewrite Hm, Hn. reflexivity. Qed.

Lemma parseItem_number source fuel st :
  SNBTParser.matches NUMBER None st = true ->
  SNBTParser.parseItem source (S fuel) st = SNBTParser.parseNumber source st.
Proof. intros Hm. simpl. rewrite Hm. reflexivity. Qed.

(** C10: [parseSNBT] reads one item and never looks for the end of the
    input: whatever follows ["1 2"] or ["{} extra"], the result is the first
    item alone. *)
Theorem parse_ignores_trailing_tokens :
  (forall fuel rest, parseSNBT (S fuel) ("1 2" +:+ rest) = OK (IntTag (Finite 1 0)))
  /\ (forall fuel rest,
        parseSNBT (S (S fuel)) ("{} extra" +:+ rest) = OK (CompoundTag [])).
Proof.
  split; intros fuel rest; unfold parseSNBT; rewrite list_ascii_of_string_app;
    generalize (String.list_ascii_of_string rest) as l; intros l;
    unfold SNBTParser.parse.
  - replace (SNBTParser.new _)
      with (OK (SNBTParser.mk (Lexer.mk 1 0) (mkToken NUMBER "1"))) by reflexivity.
    rewrite bind_OK, parseItem_number by reflexivity.
    unfold SNBTParser.parseNumber.
    destruct (Lexer.numberLoop l false ["2"%char] 3) as [content pos'] eqn:E.
    erewrite eat_OK; [|reflexivity|].
    2:{ unfold Lexer.next. simpl drop. cbn [SNBTParser.lexer Lexer.pos].
        change (Lexer.nextFrom _ _)
          with (let '(content, pos') := Lexer.numberLoop l false ["2"%char] 3 in
                OK (mkToken NUMBER (str content),
                    {| Lexer.pos := pos'; Lexer.lastNumber := Z.of_nat pos' - 1 |})).
        rewrite E. reflexivity. }
    reflexivity.
  - replace (SNBTParser.new _)
      with (OK (SNBTParser.mk (Lexer.mk 1 (-777)) (mkToken DELIMITER "{")))
      by reflexivity.
    rewrite bind_OK. reflexivity.
Qed.

(** ** Fuel *)

Lemma bind_not_OutOfFuel {A B} (m : result A) (f : A -> result B) :
  m ≫= f <> OutOfFuel -> m <> OutOfFuel.
Proof. destruct m; cbn; congruence. Qed.

Lemma bind_mono {A B} (m m' : result A) (f f' : A -> result B) :
  (m <> OutOfFuel -> m' = m) ->
  (forall a, m = OK a -> f a <> OutOfFuel -> f' a = f a) ->
  m ≫= f <> OutOfFuel -> m' ≫= f' = m ≫= f.
Proof.
  intros Hm Hf H. rewrite Hm by (by eapply bind_not_OutOfFuel).
  destruct m as [a| |]; cbn in *; try done. by apply Hf.
Qed.

Section Mono.
Variable data : list Z.

Lemma parseListItems_mono (p p' : Z -> result (Tag * Z)) n :
  (forall pos, p pos <> OutOfFuel -> p' pos = p pos) ->
  forall pos items flag,
    NBTParser.parseListItems p n pos items flag <> OutOfFuel ->
    NBTParser.parseListItems p' n pos items flag
    = NBTParser.parseListItems p n pos items flag.
Proof.
  intros Hp. induction n as [|n IH]; intros pos items flag; [done|].
  cbn [NBTParser.parseListItems]. apply bind_mono; [apply Hp|].
  intros [item pos'] _. apply IH.
Qed.

Lemma parseList_mono (p p' : option Z -> Z -> result (Tag * Z)) pos :
  (forall tagId pos, p tagId pos <> OutOfFuel -> p' tagId pos = p tagId pos) ->
  NBTParser.parseList data p pos <> OutOfFuel ->
  NBTParser.parseList data p' pos = NBTParser.parseList data p pos.
Proof.
  intros Hp. unfold NBTParser.parseList.
  apply bind_mono; [done|]. intros [tagId pos1] _.
  apply bind_mono; [done|]. intros [len pos2] _.
  apply bind_mono; [|done]. apply parseListItems_mono, Hp.
Qed.

Lemma parseFromTagType_S fuel tagId pos :
  NBTParser.parseFromTagType data (S fuel) tagId pos
  = ltac:(let t := eval cbn [NBTParser.parseFromTagType] in
                   (NBTParser.parseFromTagType data (S fuel) tagId pos) in
          exact t).
Proof. reflexivity. Qed.

Lemma parseCompound_S fuel pos items :
  NBTParser.parseCompound data (S fuel) pos items
  = ltac:(let t := eval cbn [NBTParser.parseCompound] in
                   (NBTParser.parseCompound data (S fuel) pos items) in
          exact t).
Proof. reflexivity. Qed.

Lemma parse_mono_step fuel :
  (forall tagId pos,
      NBTParser.parseFromTagType data fuel tagId pos <> OutOfFuel ->
      NBTParser.parseFromTagType data (S fuel) tagId pos
      = NBTParser.parseFromTagType data fuel tagId pos)
  /\ (forall pos items,
      NBTParser.parseCompound data fuel pos items <> OutOfFuel ->
      NBTParser.parseCompound data (S fuel) pos items
      = NBTParser.parseCompound data fuel pos items).
Proof.
  induction fuel as [|fuel [IH1 IH2]]; [by split|]. split.
  - intros tagId pos. 
    rewrite (parseFromTagType_S (S fuel)), (parseFromTagType_S fuel).
    repeat (case_decide; [done|]).
    case_decide; [by apply parseList_mono|].
    case_decide; [by apply IH2|done].
  - intros pos items.
    rewrite (parseCompound_S (S fuel)), (parseCompound_S fuel).
    apply bind_mono; [done|]. intros [tagId pos1] _.
    case_decide; [done|].
    apply bind_mono; [done|]. intros [name pos2] _.
    apply bind_mono; [apply IH1|]. intros [value pos3] _.
    destruct (JsMap.has name items); [done|]. apply IH2.
Qed.
End Mono.

Lemma parseFromTagType_mono data fuel fuel' tagId pos :
  (fuel <= fuel')%nat ->
  NBTParser.parseFromTagType data fuel tagId pos <> OutOfFuel ->
  NBTParser.parseFromTagType data fuel' tagId pos
  = NBTParser.parseFromTagType data fuel tagId pos.
Proof.
  induction 1 as [|fuel' _ IH]; [done|]. intros H.
  rewrite <- IH by done. apply parse_mono_step. by rewrite IH.
Qed.

Lemma parseCompound_mono data fuel fuel' pos items :
  (fuel <= fuel')%nat ->
  NBTParser.parseCompound data fuel pos items <> OutOfFuel ->
  NBTParser.parseCompound data fuel' pos items
  = NBTParser.parseCompound data fuel pos items.
Proof.
  induction 1 as [|fuel' _ IH]; [done|]. intros H.
  rewrite <- IH by done. apply parse_mono_step. by rewrite IH.
Qed.

(** ** The Map of a Compound *)

Lemma has_true {V} (k : string) (m : list (string * V)) :
  JsMap.has k m = true <-> k ∈ JsMap.keys m.
Proof.
  unfold JsMap.has, JsMap.keys. rewrite bool_decide_eq_true.
  induction m as [|[k' v] m IH]; cbn.
  - split; [by intros [? ?]|by intros ?%elem_of_nil].
  - case_decide as Hk.
    + subst. split; [intros _; apply list_elem_of_here|by eauto].
    + rewrite IH. rewrite elem_of_cons. naive_solver.
Qed.

Lemma has_false {V} (k : string) (m : list (string * V)) :
  JsMap.has k m = false <-> k ∉ JsMap.keys m.
Proof. rewrite <- has_true. by destruct (JsMap.has k m). Qed.

Lemma set_fresh {V} (k : string) (v : V) (m : list (string * V)) :
  k ∉ JsMap.keys m -> JsMap.set k v m = m ++ [(k, v)].
Proof.
  unfold JsMap.keys. induction m as [|[k' v'] m IH]; cbn; [done|].
  rewrite not_elem_of_cons. intros [Hne Hm].
  rewrite decide_False by done. by rewrite IH.
Qed.

Lemma keys_set_present {V} (k : string) (v : V) (m : list (string * V)) :
  k ∈ JsMap.keys m -> JsMap.keys (JsMap.set k v m) = JsMap.keys m.
Proof.
  unfold JsMap.keys. induction m as [|[k' v'] m IH]; cbn.
  - by intros ?%elem_of_nil.
  - intros Hin. case_decide as Hk; cbn; [by subst|].
    f_equal. apply IH. apply elem_of_cons in Hin as [->|]; done.
Qed.

Lemma get_set {V} (k : string) (v : V) (m : list (string * V)) :
  JsMap.get k (JsMap.set k v m) = Some v.
Proof.
  induction m as [|[k' v'] m IH]; cbn.
  - by rewrite decide_True.
  - case_decide as Hk; cbn; [by rewrite decide_True|by rewrite decide_False].
Qed.

Lemma keys_set {V} (k : string) (v : V) (m : list (string * V)) k' :
  k' ∈ JsMap.keys (JsMap.set k v m) <-> k' = k \/ k' ∈ JsMap.keys m.
Proof.
  unfold JsMap.keys. induction m as [|[k0 v0] m IH]; cbn.
  - rewrite list_elem_of_singleton, elem_of_nil. naive_solver.
  - case_decide as Hk; cbn; rewrite !elem_of_cons; [naive_solver|].
    rewrite IH. naive_solver.
Qed.

(** ** Duplicate names in a binary Compound *)

Lemma parseCompound_duplicate data fuel pos entries pos' :
  reads_entries data fuel pos entries pos' ->
  forall items fuel',
    (fuel + length entries <= fuel')%nat ->
    (exists k, k ∈ entries.*1 /\ k ∈ JsMap.keys items) \/ ~ NoDup entries.*1 ->
    exists name,
      name ∈ entries.*1
      /\ NBTParser.parseCompound data fuel' pos items = Err (DuplicateKey name).
Proof.
  induction 1 as [pos|pos tagId pos1 name pos2 value pos3 entries pos4
                      He Hend Hs Hv Hrest IH];
    intros items fuel' Hfuel Hdup.
  - destruct Hdup as [(k & Hk%elem_of_nil & _)|Hn]; [done|].
    destruct Hn. constructor.
  - cbn [length] in Hfuel. destruct fuel' as [|fuel']; [lia|].
    rewrite parseCompound_S, He. cbn. rewrite decide_False by done.
    rewrite Hs. cbn.
    rewrite (parseFromTagType_mono data fuel fuel') by (first [lia | by rewrite Hv]).
    rewrite Hv. cbn.
    destruct (JsMap.has name items) eqn:Hhas.
    { exists name. split; [apply list_elem_of_here|done]. }
    apply has_false in Hhas.
    destruct (IH (JsMap.set name value items) fuel') as (name' & Hin & Hr); [lia| |].
    + destruct (decide (name ∈ entries.*1)) as [Hin|Hnin].
      { left. exists name. split; [done|]. apply keys_set. by left. }
      destruct Hdup as [(k & Hk & Hki)|Hn].
      * left. exists k. cbn in Hk. apply elem_of_cons in Hk as [->|Hk]; [done|].
        split; [done|]. apply keys_set. by right.
      * right. intros Hnd. apply Hn. cbn. by constructor.
    + exists name'. split; [by apply list_elem_of_further|done].
Qed.

(** ** Repeated keys in a textual compound *)

Lemma parseCompoundLoop_S source fuel first items st :
  SNBTParser.parseCompoundLoop source (S fuel) first items st
  = ltac:(let t := eval cbn [SNBTParser.parseCompoundLoop] in
                   (SNBTParser.parseCompoundLoop source (S fuel) first items st) in
          exact t).
Proof. reflexivity. Qed.

Lemma parseCompoundLoop_entry source fuel first items st tok st1 key st2 colon st3 v st4 :
  SNBTParser.matches DELIMITER (Some "}") st = false ->
  (if negb first then SNBTParser.eat source DELIMITER (Some ",") st
   else OK (SNBTParser.current st, st)) = OK (tok, st1) ->
  SNBTParser.eat source STRING None st1 = OK (key, st2) ->
  SNBTParser.eat source DELIMITER (Some ":") st2 = OK (colon, st3) ->
  SNBTParser.parseItem source fuel st3 = OK (v, st4) ->
  SNBTParser.parseCompoundLoop source (S fuel) first items st
  = SNBTParser.parseCompoundLoop source fuel false (JsMap.set (value key) v items) st4.
Proof.
  intros Hm H1 H2 H3 H4. rewrite parseCompoundLoop_S, Hm, H1. cbn.
  rewrite H2. cbn. rewrite H3. cbn. rewrite H4. reflexivity.
Qed.

(** * The binary round trip *)

(** ** Big-endian integers *)

Lemma length_be_bytes n v : length (be_bytes n v) = n.
Proof. induction n as [|n IH]; cbn; [done|]. by rewrite IH. Qed.

Lemma be_value_acc acc bs :
  foldl (fun a b => a * 256 + b) acc bs
  = acc * 256 ^ Z.of_nat (length bs) + be_value bs.
Proof.
  unfold be_value. revert acc. induction bs as [|b bs IH]; intros acc; cbn [foldl length].
  - cbn. lia.
  - rewrite IH, (IH (0 * 256 + b)). rewrite Nat2Z.inj_succ, Z.pow_succ_r by lia. lia.
Qed.

Lemma be_value_cons b bs :
  be_value (b :: bs) = b * 256 ^ Z.of_nat (length bs) + be_value bs.
Proof. unfold be_value at 1. cbn [foldl]. rewrite be_value_acc. lia. Qed.

Lemma be_value_be_bytes n v : be_value (be_bytes n v) = v mod 256 ^ Z.of_nat n.
Proof.
  induction n as [|n IH].
  - cbn. by rewrite Z.mod_1_r.
  - cbn [be_bytes]. rewrite be_value_cons, length_be_bytes, IH.
    rewrite Nat2Z.inj_succ, Z.pow_succ_r by lia.
    rewrite (Z.mul_comm 256), Z.rem_mul_r by lia. lia.
Qed.

Lemma to_signed_mod bits v :
  0 < bits -> - 2 ^ (bits - 1) <= v < 2 ^ (bits - 1) ->
  to_signed bits (v mod 2 ^ bits) = v.
Proof.
  intros Hb Hv. unfold to_signed.
  assert (2 ^ bits = 2 * 2 ^ (bits - 1)) as Hp.
  { rewrite <- Z.pow_succ_r by lia. f_equal. lia. }
  destruct (decide (0 <= v)) as [Hpos|Hneg].
  - rewrite Z.mod_small by lia. case_match; [done|]. apply Z.ltb_ge in H. lia.
  - replace (v mod 2 ^ bits) with (v + 2 ^ bits).
    + case_match; [|lia]. apply Z.ltb_lt in H. lia.
    + symmetry. rewrite <- (Z.mod_add v 1) by lia.
      rewrite Z.mod_small; lia.
Qed.

Lemma pow_256 n : 256 ^ Z.of_nat n = 2 ^ (8 * Z.of_nat n).
Proof. rewrite Z.pow_mul_r by lia. reflexivity. Qed.

(** ** Segments of the buffer *)

Section Segments.
Variable data : list Z.

Lemma seg_app pos a b : seg data pos (a ++ b) -> seg data pos a /\ seg data (pos + length a) b.
Proof.
  intros (before & after & Hd & <-). split.
  - exists before, (b ++ after). by rewrite Hd, <- app_assoc.
  - exists (before ++ a), after. rewrite length_app. split; [|done].
    by rewrite Hd, <- !app_assoc.
Qed.

Lemma seg_cons pos b bs : seg data pos (b :: bs) -> seg data pos [b] /\ seg data (S pos) bs.
Proof.
  intros H. apply (seg_app pos [b] bs) in H as [H1 H2]. split; [done|].
  by rewrite Nat.add_1_r in H2.
Qed.

Lemma seg_length pos bs : seg data pos bs -> (pos + length bs <= length data)%nat.
Proof. intros (before & after & Hd & <-). rewrite Hd, !length_app. lia. Qed.

Lemma seg_take pos bs : seg data pos bs -> take (length bs) (drop pos data) = bs.
Proof.
  intros (before & after & Hd & <-).
  rewrite Hd, drop_app_length. by rewrite take_app_length.
Qed.

Lemma seg_lookup pos b : seg data pos [b] -> data !! pos = Some b.
Proof.
  intros (before & after & Hd & <-).
  rewrite Hd, lookup_app_r by lia. by rewrite Nat.sub_diag.
Qed.

Lemma expectByte_seg pos b :
  seg data pos [b] ->
  NBTParser.expectByte data None (Z.of_nat pos) = OK (Some b, Z.of_nat (S pos)).
Proof.
  intros H. pose proof (seg_length _ _ H) as Hl. cbn in Hl.
  unfold NBTParser.expectByte, NBTParser.at_pos.
  rewrite (proj2 (Z.leb_gt _ _)) by lia.
  rewrite (proj2 (Z.ltb_ge _ _)) by lia.
  rewrite Nat2Z.id, (seg_lookup _ _ H). do 2 f_equal. lia.
Qed.

Lemma getUint_seg n pos v :
  seg data pos (be_bytes n v) ->
  getUint (Z.of_nat n) data (Z.of_nat pos) = v mod 256 ^ Z.of_nat n.
Proof.
  intros H. unfold getUint. rewrite !Nat2Z.id.
  rewrite <- (length_be_bytes n v) at 1. rewrite (seg_take _ _ H).
  apply be_value_be_bytes.
Qed.

Lemma readUnsignedInteger_seg n pos v :
  seg data pos (be_bytes n v) ->
  (pos + n < length data)%nat ->
  0 <= v < 256 ^ Z.of_nat n ->
  NBTParser.readUnsignedInteger data (Z.of_nat n) (Z.of_nat pos)
  = OK (v, Z.of_nat (pos + n)).
Proof.
  intros H Hl Hv. unfold NBTParser.readUnsignedInteger.
  rewrite (proj2 (Z.leb_gt _ _)) by lia.
  rewrite (proj2 (Z.ltb_ge _ _)) by lia.
  rewrite (getUint_seg _ _ _ H), Z.mod_small by done. do 2 f_equal. lia.
Qed.

Lemma readInteger_seg n pos v :
  (0 < n)%nat ->
  seg data pos (be_bytes n v) ->
  (pos + n < length data)%nat ->
  - 2 ^ (8 * Z.of_nat n - 1) <= v < 2 ^ (8 * Z.of_nat n - 1) ->
  NBTParser.readInteger data (Z.of_nat n) (Z.of_nat pos)
  = OK (v, Z.of_nat (pos + n)).
Proof.
  intros Hn H Hl Hv. unfold NBTParser.readInteger.
  rewrite (proj2 (Z.leb_gt _ _)) by lia.
  rewrite (proj2 (Z.ltb_ge _ _)) by lia.
  unfold getInt. rewrite (getUint_seg _ _ _ H), pow_256.
  rewrite to_signed_mod by (first [lia | done]). do 2 f_equal. lia.
Qed.

Lemma readFLoat_seg n pos bits :
  seg data pos (be_bytes n bits) ->
  (pos + n < length data)%nat ->
  0 <= bits < 256 ^ Z.of_nat n ->
  NBTParser.readFLoat data (Z.of_nat n) (Z.of_nat pos)
  = OK ((if Z.of_nat n =? 4 then f32_value else f64_value) bits, Z.of_nat (pos + n)).
Proof.
  intros H Hl Hv. unfold NBTParser.readFLoat.
  rewrite (proj2 (Z.leb_gt _ _)) by lia.
  rewrite (proj2 (Z.ltb_ge _ _)) by lia.
  rewrite (getUint_seg _ _ _ H), Z.mod_small by done. do 2 f_equal. lia.
Qed.

Lemma js_slice_seg pos bs :
  seg data pos bs ->
  js_slice data (Z.of_nat pos) (Z.of_nat pos + Z.of_nat (length bs)) = bs.
Proof.
  intros H. pose proof (seg_length _ _ H) as Hl. unfold js_slice.
  rewrite (proj2 (Z.ltb_ge _ _)) by lia.
  rewrite (proj2 (Z.ltb_ge _ _)) by lia.
  rewrite !Z.min_l by lia. rewrite Nat2Z.id.
  replace (Z.to_nat _) with (length bs) by lia. by apply seg_take.
Qed.
End Segments.

(** ** Strings and numbers *)

Lemma ascii_of_code_of_ascii c : ascii_of_code (code_of_ascii c) = c.
Proof. unfold ascii_of_code, code_of_ascii. by rewrite Nat2Z.id, ascii_nat_embedding. Qed.

(** The decoder on well-formed bytes: one code point for each sequence,
    carried by the bytes of that sequence. *)
Lemma decode_sequence bytes :
  UTF8.well_formed bytes = true ->
  bytes <> [] ->
  exists cp rest,
    UTF8.decode bytes UTF8.init = cp :: UTF8.decode rest UTF8.init
    /\ bytes = UTF8.encode cp ++ rest
    /\ UTF8.well_formed rest = true
    /\ (cp = 65279 -> UTF8.starts_with_BOM bytes = true).
Proof.
  intros Hwf Hne. destruct bytes as [|b1 r1]; [done|]. clear Hne.
  cbn [UTF8.well_formed] in Hwf. cbn [UTF8.decode]. unfold UTF8.lead.
  change (UTF8.bytes_needed UTF8.init =? 0) with true. cbv iota.
  destruct ((0 <=? b1) && (b1 <=? 127)) eqn:H1.
  { apply andb_true_iff in H1 as [?%Z.leb_le ?%Z.leb_le].
    exists b1, r1. unfold UTF8.encode. rewrite (proj2 (Z.ltb_lt _ _)) by (Z.div_mod_to_equations; lia).
    repeat split; [done|]. intros ->. lia. }
  destruct r1 as [|b2 r2]; [done|].
  unfold UTF8.continuation in Hwf.
  destruct ((194 <=? b1) && (b1 <=? 223)) eqn:H2.
  { apply andb_true_iff in Hwf as [Hb2 Hwf].
    cbn [UTF8.decode UTF8.bytes_needed UTF8.lower UTF8.upper UTF8.code_point
         UTF8.bytes_seen].
    change (1 =? 0) with false. cbv iota. rewrite Hb2.
    change (0 + 1 =? 1) with true. cbv iota.
    apply andb_true_iff in H2 as [?%Z.leb_le ?%Z.leb_le].
    apply andb_true_iff in Hb2 as [?%Z.leb_le ?%Z.leb_le].
    exists (b1 mod 32 * 64 + b2 mod 64), r2.
    assert (b1 mod 32 = b1 - 192) as -> by (Z.div_mod_to_equations; lia).
    assert (b2 mod 64 = b2 - 128) as -> by (Z.div_mod_to_equations; lia).
    unfold UTF8.encode.
    rewrite (proj2 (Z.ltb_ge _ 128)) by (Z.div_mod_to_equations; lia). rewrite (proj2 (Z.ltb_lt _ 2048)) by (Z.div_mod_to_equations; lia).
    repeat split; [|done|intros; Z.div_mod_to_equations; lia].
    cbn [app]. f_equal; [|f_equal]; Z.div_mod_to_equations; lia. }
  destruct r2 as [|b3 r3]; [done|].
  destruct ((224 <=? b1) && (b1 <=? 239)) eqn:H3.
  { apply andb_true_iff in Hwf as [[Hb2 Hb3]%andb_true_iff Hwf].
    cbn [UTF8.decode UTF8.bytes_needed UTF8.lower UTF8.upper UTF8.code_point
         UTF8.bytes_seen].
    change (2 =? 0) with false. cbv iota. rewrite Hb2.
    change (0 + 1 =? 2) with false. cbv iota.
    rewrite Hb3.
    change (0 + 1 + 1 =? 2) with true. cbv iota.
    apply andb_true_iff in H3 as [?%Z.leb_le ?%Z.leb_le].
    apply andb_true_iff in Hb2 as [Hlo2%Z.leb_le Hhi2%Z.leb_le].
    apply andb_true_iff in Hb3 as [?%Z.leb_le ?%Z.leb_le].
    exists ((b1 mod 16 * 64 + b2 mod 64) * 64 + b3 mod 64), r3.
    assert (b1 mod 16 = b1 - 224) as -> by (Z.div_mod_to_equations; lia).
    assert (128 <= b2 <= 191 /\ (b1 = 224 -> 160 <= b2) /\ (b1 = 237 -> b2 <= 159))
      as (Hr2 & Hlo & Hhi).
    { destruct (b1 =? 224) eqn:E1; destruct (b1 =? 237) eqn:E2; lia. }
    assert (b2 mod 64 = b2 - 128) as -> by (Z.div_mod_to_equations; lia).
    assert (b3 mod 64 = b3 - 128) as -> by (Z.div_mod_to_equations; lia).
    unfold UTF8.encode.
    rewrite (proj2 (Z.ltb_ge _ 128)) by (Z.div_mod_to_equations; lia). rewrite (proj2 (Z.ltb_ge _ 2048)) by (Z.div_mod_to_equations; lia).
    rewrite (proj2 (Z.ltb_lt _ 65536)) by (Z.div_mod_to_equations; lia).
    repeat split; [|done|].
    - cbn [app]. f_equal; [|f_equal; [|f_equal]]; Z.div_mod_to_equations; lia.
    - intros Hcp. assert (b1 = 239 /\ b2 = 187 /\ b3 = 191) as (-> & -> & ->) by (Z.div_mod_to_equations; lia).
      done. }
  destruct r3 as [|b4 r4]; [done|].
  apply andb_true_iff in Hwf as [[[[H4 Hb2]%andb_true_iff Hb3]%andb_true_iff
                                    Hb4]%andb_true_iff Hwf].
  rewrite H4.
  cbn [UTF8.decode UTF8.bytes_needed UTF8.lower UTF8.upper UTF8.code_point
       UTF8.bytes_seen].
  change (3 =? 0) with false. cbv iota. rewrite Hb2.
  change (0 + 1 =? 3) with false. cbv iota. rewrite Hb3.
  change (0 + 1 + 1 =? 3) with false. cbv iota. rewrite Hb4.
  change (0 + 1 + 1 + 1 =? 3) with true. cbv iota.
  apply andb_true_iff in H4 as [?%Z.leb_le ?%Z.leb_le].
  apply andb_true_iff in Hb2 as [Hlo2%Z.leb_le Hhi2%Z.leb_le].
  apply andb_true_iff in Hb3 as [?%Z.leb_le ?%Z.leb_le].
  apply andb_true_iff in Hb4 as [?%Z.leb_le ?%Z.leb_le].
  exists (((b1 mod 8 * 64 + b2 mod 64) * 64 + b3 mod 64) * 64 + b4 mod 64), r4.
  assert (b1 mod 8 = b1 - 240) as -> by (Z.div_mod_to_equations; lia).
  assert (128 <= b2 <= 191 /\ (b1 = 240 -> 144 <= b2) /\ (b1 = 244 -> b2 <= 143))
    as (Hr2 & Hlo & Hhi).
  { destruct (b1 =? 240) eqn:E1; destruct (b1 =? 244) eqn:E2; lia. }
  assert (b2 mod 64 = b2 - 128) as -> by (Z.div_mod_to_equations; lia).
  assert (b3 mod 64 = b3 - 128) as -> by (Z.div_mod_to_equations; lia).
  assert (b4 mod 64 = b4 - 128) as -> by (Z.div_mod_to_equations; lia).
  unfold UTF8.encode.
  rewrite (proj2 (Z.ltb_ge _ 128)) by (Z.div_mod_to_equations; lia). rewrite (proj2 (Z.ltb_ge _ 2048)) by (Z.div_mod_to_equations; lia).
  rewrite (proj2 (Z.ltb_ge _ 65536)) by (Z.div_mod_to_equations; lia).
  repeat split; [|done|intros; Z.div_mod_to_equations; lia].
  cbn [app]. f_equal; [|f_equal; [|f_equal; [|f_equal]]]; Z.div_mod_to_equations; lia.
Qed.

Lemma encode_nonempty cp : UTF8.encode cp <> [].
Proof. unfold UTF8.encode. by repeat case_match. Qed.

Lemma decode_well_formed bytes :
  UTF8.well_formed bytes = true ->
  concat (UTF8.encode <$> UTF8.decode bytes UTF8.init) = bytes.
Proof.
  induction bytes as [bytes IH] using (induction_ltof1 _ length). unfold ltof in IH.
  intros Hwf. destruct (decide (bytes = [])) as [->|Hne]; [done|].
  destruct (decode_sequence bytes Hwf Hne) as (cp & rest & -> & Hb & Hrest & _).
  rewrite fmap_cons. cbn [concat]. rewrite IH; [done| |done].
  rewrite Hb, length_app. pose proof (encode_nonempty cp) as Hcp.
  destruct (UTF8.encode cp); [done|]. cbn [length]. lia.
Qed.

(** [decode] gives a plain text back from its bytes. *)
Lemma decode_encode text :
  plain_text text = true -> TextDecoder_decode (TextEncoder_encode text) = text.
Proof.
  unfold plain_text. intros [Hwf Hbom%negb_true_iff]%andb_true_iff.
  unfold TextDecoder_decode.
  assert (UTF8.strip_BOM (UTF8.decode (TextEncoder_encode text) UTF8.init)
          = UTF8.decode (TextEncoder_encode text) UTF8.init) as ->.
  { destruct (decide (TextEncoder_encode text = [])) as [->|Hne]; [done|].
    destruct (decode_sequence _ Hwf Hne) as (cp & rest & -> & _ & _ & Hcp).
    unfold UTF8.strip_BOM. destruct (cp =? 65279) eqn:E; [|done].
    apply Z.eqb_eq in E. by rewrite Hcp in Hbom. }
  rewrite decode_well_formed by done. unfold TextEncoder_encode.
  rewrite <- list_fmap_compose.
  rewrite <- (String.string_of_list_ascii_of_string text) at 2. f_equal.
  induction (String.list_ascii_of_string text) as [|c l IH]; [done|].
  rewrite fmap_cons, IH. f_equal. apply ascii_of_code_of_ascii.
Qed.


Lemma is_int_spec lo hi v :
  is_int lo hi v = true -> exists m, v = ofZ m /\ lo <= m < hi.
Proof.
  destruct v as [| |m [|e]|]; cbn; try done.
  intros [H1 H2]%andb_true_iff. exists m. split; [done|lia].
Qed.

Lemma toInteger_ofZ m : toInteger (ofZ m) = m.
Proof. cbn. apply Z.quot_1_r. Qed.

(** The string that is read is the decoded one, whatever the bytes are. *)
Lemma parseString_bytes data pos text :
  seg data pos (encodeString text) ->
  Z.of_nat (length (TextEncoder_encode text)) < 65536 ->
  (pos + length (encodeString text) < length data)%nat ->
  NBTParser.parseString data (Z.of_nat pos)
  = OK (TextDecoder_decode (TextEncoder_encode text),
        Z.of_nat (pos + length (encodeString text))).
Proof.
  unfold encodeString. intros [H1 H2]%seg_app Hs Hl.
  rewrite length_app, !length_be_bytes in *.
  unfold NBTParser.parseString.
  pose proof (readUnsignedInteger_seg data 2 pos _ H1) as Hr.
  change (Z.of_nat 2) with 2 in Hr. rewrite Hr by (cbn; lia). cbn.
  rewrite (proj2 (Z.leb_gt _ _)) by lia.
  rewrite js_slice_seg by done. do 2 f_equal. lia.
Qed.

Lemma parseString_seg data pos text :
  seg data pos (encodeString text) ->
  Z.of_nat (length (TextEncoder_encode text)) < 65536 ->
  (pos + length (encodeString text) < length data)%nat ->
  plain_text text = true ->
  NBTParser.parseString data (Z.of_nat pos)
  = OK (text, Z.of_nat (pos + length (encodeString text))).
Proof.
  intros Hseg Hs Hl Hp. rewrite (parseString_bytes data pos text) by done.
  by rewrite decode_encode.
Qed.

(** ** Induction on tags *)

Lemma Tag_nested_ind (P : Tag -> Prop) :
  (forall tag, is_leaf tag -> P tag) ->
  (forall items, Forall (fun kv => P kv.2) items -> P (CompoundTag items)) ->
  (forall values, Forall P values -> P (ListTag values)) ->
  forall tag, P tag.
Proof.
  intros Hleaf Hcompound Hlist. fix IH 1. intros tag.
  destruct tag as [v|v|v|v|v|v|v|items|values|vs|vs|vs];
    try (apply Hleaf; exact I).
  - apply Hcompound. induction items as [|[k v] items IHitems]; constructor.
    + apply IH.
    + exact IHitems.
  - apply Hlist. induction values as [|v values IHvalues]; constructor.
    + apply IH.
    + exact IHvalues.
Qed.

(** ** IEEE bit patterns are within their width *)

Lemma round_half_even_nonneg num den :
  0 <= num -> 0 < den -> 0 <= round_half_even num den.
Proof.
  intros Hn Hd. unfold round_half_even.
  pose proof (Z.div_pos num den Hn Hd).
  pose proof (Z.mod_pos_bound (num / den) 2).
  repeat case_match; lia.
Qed.

Lemma ieee_field_range p w n d :
  0 <= p -> 0 <= w -> 0 <= n -> 0 < d ->
  0 <= ieee_field p w n d <= exp_ones w * 2 ^ p.
Proof.
  intros Hp Hw Hn Hd. unfold ieee_field.
  assert (0 <= exp_ones w * 2 ^ p) as Hmax.
  { unfold exp_ones. pose proof (Z.pow_pos_nonneg 2 w). 
    pose proof (Z.pow_pos_nonneg 2 p). nia. }
  case_match; [lia|].
  set (ex := if _ : bool then _ else _).
  set (q := Z.max (ex - p) (qmin p w)).
  set (M := if 0 <=? q then _ else _).
  assert (0 <= M) as HM.
  { unfold M. case_match eqn:Hq.
    - apply Z.leb_le in Hq. apply round_half_even_nonneg; [done|].
      pose proof (Z.pow_pos_nonneg 2 q). nia.
    - apply Z.leb_gt in Hq. apply round_half_even_nonneg; [|done].
      pose proof (Z.pow_pos_nonneg 2 (- q)). nia. }
  assert (0 <= (q - qmin p w) * 2 ^ p).
  { pose proof (Z.pow_pos_nonneg 2 p). unfold q. nia. }
  lia.
Qed.

Lemma ieee_bits_range p w v :
  0 < p -> 0 < w -> 0 <= ieee_bits p w v < 2 ^ (p + w + 1).
Proof.
  intros Hp Hw.
  assert (2 ^ (p + w + 1) = 2 * 2 ^ (p + w)) as ->.
  { rewrite <- Z.pow_succ_r by lia. f_equal. }
  assert (0 < 2 ^ p) by (apply Z.pow_pos_nonneg; lia).
  assert (0 < 2 ^ w) by (apply Z.pow_pos_nonneg; lia).
  assert (2 ^ (p + w) = 2 ^ w * 2 ^ p) as Hpw by (rewrite Z.pow_add_r; lia).
  assert (2 ^ p = 2 * 2 ^ (p - 1)) as Hp1.
  { rewrite <- Z.pow_succ_r by lia. f_equal. lia. }
  assert (0 < 2 ^ (p - 1)) by (apply Z.pow_pos_nonneg; lia).
  assert (exp_ones w * 2 ^ p < 2 ^ (p + w)) by (unfold exp_ones; nia).
  assert (0 <= exp_ones w * 2 ^ p) by (unfold exp_ones; nia).
  destruct v as [|neg|m e|]; cbn [ieee_bits].
  - nia.
  - destruct neg; lia.
  - pose proof (ieee_field_range p w (Z.abs m) (10 ^ Z.of_nat e)) as Hf.
    assert (0 < 10 ^ Z.of_nat e) by (apply Z.pow_pos_nonneg; lia).
    case_match; lia.
  - nia.
Qed.

Lemma f32_bits_range v : 0 <= f32_bits v < 256 ^ 4.
Proof. apply (ieee_bits_range 23 8); lia. Qed.

Lemma f64_bits_range v : 0 <= f64_bits v < 256 ^ 8.
Proof. apply (ieee_bits_range 52 11); lia. Qed.

(** ** Reading arrays back *)

Lemma forallb_Forall {A} (f : A -> bool) (l : list A) :
  forallb f l = true -> Forall (fun x => f x = true) l.
Proof.
  induction l as [|x l IH]; cbn; [constructor|].
  intros [? ?]%andb_true_iff. constructor; auto.
Qed.

Lemma length_concat_be_bytes w (zs : list Z) :
  length (concat (be_bytes w <$> zs)) = (w * length zs)%nat.
Proof.
  induction zs as [|z zs IH]; cbn; [lia|].
  rewrite length_app, length_be_bytes, IH. lia.
Qed.

Lemma readItems_seg data (w : nat) (zs : list Z) : forall pos acc,
  (0 < w)%nat ->
  seg data pos (concat (be_bytes w <$> zs)) ->
  Forall (fun z => - 2 ^ (8 * Z.of_nat w - 1) <= z < 2 ^ (8 * Z.of_nat w - 1)) zs ->
  (pos + w * length zs < length data)%nat ->
  NBTParser.readItems (NBTParser.readInteger data (Z.of_nat w)) (length zs)
    (Z.of_nat pos) acc
  = OK (acc ++ zs, Z.of_nat (pos + w * length zs)).
Proof.
  induction zs as [|z zs IH]; intros pos acc Hw Hseg Hr Hl.
  - cbn. rewrite app_nil_r. do 2 f_equal. lia.
  - cbn [fmap list_fmap concat] in Hseg. apply seg_app in Hseg as [H1 H2].
    rewrite length_be_bytes in H2.
    apply Forall_cons in Hr as [Hz Hr]. cbn [length] in *.
    cbn [NBTParser.readItems].
    rewrite (readInteger_seg data w pos z) by (first [done | lia]). cbn.
    rewrite IH by (first [done | lia]).
    rewrite <- app_assoc. cbn. do 2 f_equal. lia.
Qed.

Lemma fmap_ofZ_toInteger lo hi (values : list number) :
  forallb (is_int lo hi) values = true ->
  ofZ <$> (toInteger <$> values) = values
  /\ Forall (fun z => lo <= z < hi) (toInteger <$> values).
Proof.
  induction values as [|v values IH]; cbn; [done|].
  intros [(m & -> & Hm)%is_int_spec Hr]%andb_true_iff.
  destruct (IH Hr) as [IH1 IH2]. rewrite IH1, toInteger_ofZ. split; [done|].
  by constructor.
Qed.

Lemma to_Uint8Array_small (values : list number) :
  forallb (is_int 0 128) values = true ->
  ofZ <$> NBTDumper.to_Uint8Array values = values.
Proof.
  unfold NBTDumper.to_Uint8Array.
  induction values as [|v values IH]; cbn; [done|].
  intros [(m & -> & Hm)%is_int_spec Hr]%andb_true_iff.
  rewrite IH by done. rewrite toInteger_ofZ, Z.mod_small by lia. done.
Qed.

(** ** Reading the leaves back *)

Ltac ok_step := rewrite bind_OK; cbv beta iota.

Ltac pick_tag :=
  repeat lazymatch goal with
    | |- context [decide (Some ?a = Some ?b)] =>
        destruct (decide (Some a = Some b)) as [Hd|Hd];
        [first [discriminate Hd | clear Hd]
        |first [exfalso; apply Hd; reflexivity | clear Hd]]
    end.

Lemma reads_back_leaf data tag : is_leaf tag -> reads_back data tag.
Proof.
  intros Hleaf fuel pos Hs Hfuel Hseg Htail.
  destruct fuel as [|fuel]; [destruct tag; cbn in Hfuel; lia|].
  assert ((pos + length (encodeValue tag) < length data)%nat) as Hl.
  { destruct Htail as [?|Hc]; [done|]. by destruct tag. }
  clear Htail Hfuel.
  destruct tag as [v|v|v|v|v|v|v|items|values|vs|vs|vs]; try done;
    rewrite parseFromTagType_S; cbn [getId]; pick_tag;
    cbn [encodeValue storable] in *.
  - (* Byte *)
    apply is_int_spec in Hs as (m & -> & Hm).
    rewrite toInteger_ofZ, Z.mod_small in Hseg by lia.
    rewrite (expectByte_seg data pos m) by done. cbn.
    do 2 f_equal. lia.
  - (* Short *)
    apply is_int_spec in Hs as (m & -> & Hm). rewrite toInteger_ofZ in *.
    rewrite length_be_bytes in Hl.
    pose proof (readInteger_seg data 2 pos m) as Hr.
    change (Z.of_nat 2) with 2 in Hr. rewrite Hr by (first [done | lia]).
    cbn. rewrite ?length_be_bytes. done.
  - (* Int *)
    apply is_int_spec in Hs as (m & -> & Hm). rewrite toInteger_ofZ in *.
    rewrite length_be_bytes in Hl.
    pose proof (readInteger_seg data 4 pos m) as Hr.
    change (Z.of_nat 4) with 4 in Hr. rewrite Hr by (first [done | lia]).
    cbn. rewrite ?length_be_bytes. done.
  - (* Long *)
    apply andb_true_iff in Hs as [H1%Z.leb_le H2%Z.ltb_lt].
    rewrite length_be_bytes in Hl.
    pose proof (readInteger_seg data 8 pos v) as Hr.
    change (Z.of_nat 8) with 8 in Hr. rewrite Hr by (first [done | lia]).
    cbn. rewrite ?length_be_bytes. done.
  - (* Float *)
    apply bool_decide_eq_true in Hs. rewrite length_be_bytes in Hl.
    pose proof (readFLoat_seg data 4 pos (f32_bits v)) as Hr.
    change (Z.of_nat 4) with 4 in Hr.
    rewrite Hr by (first [done | lia | apply f32_bits_range]).
    cbn. rewrite ?Hs, ?length_be_bytes. done.
  - (* Double *)
    apply bool_decide_eq_true in Hs. rewrite length_be_bytes in Hl.
    pose proof (readFLoat_seg data 8 pos (f64_bits v)) as Hr.
    change (Z.of_nat 8) with 8 in Hr.
    rewrite Hr by (first [done | lia | apply f64_bits_range]).
    cbn. rewrite ?Hs, ?length_be_bytes. done.
  - (* String *)
    apply andb_true_iff in Hs as [Hs%Z.ltb_lt Hp].
    rewrite (parseString_seg data pos v) by done. done.
  - (* ByteArray *)
    apply andb_true_iff in Hs as [Hn%Z.ltb_lt Hs].
    apply seg_app in Hseg as [H1 H2]. rewrite length_app, length_be_bytes in *.
    unfold NBTParser.parseByteArray.
    pose proof (readInteger_seg data 4 pos (Z.of_nat (length vs))) as Hr.
    change (Z.of_nat 4) with 4 in Hr. rewrite Hr by (first [done | lia]). ok_step.
    assert (length (NBTDumper.to_Uint8Array vs) = length vs) as Hlen
      by (unfold NBTDumper.to_Uint8Array; by rewrite length_fmap).
    rewrite Hlen in Hl.
    rewrite (proj2 (Z.leb_gt _ _)) by lia.
    rewrite <- Hlen at 1. rewrite js_slice_seg by done.
    rewrite to_Uint8Array_small by done. do 2 f_equal. lia.
  - (* IntArray *)
    apply andb_true_iff in Hs as [Hn%Z.ltb_lt Hs].
    assert (((fun v => be_bytes 4 (toInteger v)) <$> vs)
            = be_bytes 4 <$> (toInteger <$> vs)) as Heq
      by (by rewrite <- list_fmap_compose).
    rewrite Heq in *.
    apply seg_app in Hseg as [H1 H2].
    rewrite length_app, length_be_bytes in *.
    rewrite length_concat_be_bytes, length_fmap in Hl.
    unfold NBTParser.parseIntArray.
    pose proof (readInteger_seg data 4 pos (Z.of_nat (length vs))) as Hr.
    change (Z.of_nat 4) with 4 in Hr. rewrite Hr by (first [done | lia]). ok_step.
    destruct (fmap_ofZ_toInteger _ _ _ Hs) as [Hback Hrange].
    pose proof (readItems_seg data 4 (toInteger <$> vs) (pos + 4) []) as Hi.
    change (Z.of_nat 4) with 4 in Hi. rewrite length_fmap in Hi.
    rewrite Nat2Z.id, Hi by (first [done | lia]). ok_step.
    rewrite app_nil_l, Hback. do 2 f_equal.
    rewrite length_concat_be_bytes, length_fmap. lia.
  - (* LongArray *)
    apply andb_true_iff in Hs as [Hn%Z.ltb_lt Hs].
    apply seg_app in Hseg as [H1 H2].
    rewrite length_app, length_be_bytes in *.
    rewrite length_concat_be_bytes in Hl.
    unfold NBTParser.parseLongArray.
    pose proof (readInteger_seg data 4 pos (Z.of_nat (length vs))) as Hr.
    change (Z.of_nat 4) with 4 in Hr. rewrite Hr by (first [done | lia]). ok_step.
    pose proof (readItems_seg data 8 vs (pos + 4) []) as Hi.
    change (Z.of_nat 8) with 8 in Hi.
    rewrite Nat2Z.id, Hi; [| lia | done | | lia].
    + ok_step. do 2 f_equal. rewrite length_concat_be_bytes. lia.
    + eapply Forall_impl; [by apply forallb_Forall|]. cbn.
      intros z [?%Z.leb_le ?%Z.ltb_lt]%andb_true_iff. lia.
Qed.

(** ** Reading a Compound back *)

Lemma getId_not_End tag : Some (getId tag) <> Some TAG_End.
Proof. by destruct tag. Qed.

Lemma encodeValue_nonempty tag : (0 < length (encodeValue tag))%nat.
Proof.
  destruct tag; cbn [encodeValue]; unfold encodeString;
    rewrite ?length_app, ?length_be_bytes; cbn [length]; try lia.
  case_match; cbn [length]; lia.
Qed.

Lemma max_fuel_ge {A} (f : A -> nat) (x : A) (l : list A) :
  x ∈ l -> (f x <= foldr Nat.max 0 (f <$> l))%nat.
Proof.
  induction l as [|y l IH]; [by intros ?%elem_of_nil|].
  intros [->|Hin]%elem_of_cons; cbn; [lia|]. specialize (IH Hin). lia.
Qed.

Lemma parseCompound_entries data (entries : list (string * Tag)) :
  forall items fuel pos,
    Forall (fun kv => reads_back data kv.2) entries ->
    forallb (fun '(key, v) =>
               (Z.of_nat (length (TextEncoder_encode key)) <? 65536)
               && plain_text key && storable v)
      entries = true ->
    NoDup (items.*1 ++ entries.*1) ->
    (length entries + 1 + foldr Nat.max 0 ((fun '(_, v) => fuel_for v) <$> entries)
     <= fuel)%nat ->
    seg data pos
      (concat ((fun '(key, v) => getId v :: encodeString key ++ encodeValue v)
                 <$> entries) ++ [TAG_End]) ->
    NBTParser.parseCompound data fuel (Z.of_nat pos) items
    = OK (CompoundTag (items ++ entries),
          Z.of_nat (pos + length
                      (concat ((fun '(key, v) =>
                                  getId v :: encodeString key ++ encodeValue v)
                                 <$> entries) ++ [TAG_End]))).
Proof.
  induction entries as [|[k v] entries IH];
    intros items fuel pos Hback Hs Hnd Hfuel Hseg;
    (destruct fuel as [|fuel]; [cbn in Hfuel; lia|]);
    rewrite parseCompound_S.
  - cbn in Hseg |- *. rewrite (expectByte_seg data pos TAG_End) by done.
    ok_step. rewrite decide_True by done. rewrite app_nil_r.
    do 2 f_equal. lia.
  - cbn [fmap list_fmap concat length foldr] in *.
    apply Forall_cons in Hback as [Hv Hback]. cbn [snd] in Hv.
    apply andb_true_iff in Hs as [[[Hk%Z.ltb_lt Hpk]%andb_true_iff Hsv]%andb_true_iff Hs].
    pose proof (seg_length _ _ _ Hseg) as Hlen.
    cbn [app] in Hseg.
    apply seg_cons in Hseg as [Hs1 Hseg].
    rewrite <- !app_assoc in Hseg.
    apply seg_app in Hseg as [Hs2 Hseg].
    apply seg_app in Hseg as [Hs3 Hseg].
    rewrite ?length_app in *. cbn [length] in *. rewrite ?length_app in *.
    pose proof (encodeValue_nonempty v) as Hne.
    rewrite (expectByte_seg data pos (getId v)) by done. ok_step.
    rewrite decide_False by apply getId_not_End.
    rewrite (parseString_seg data (S pos) k) by (first [done | lia]). ok_step.
    rewrite (Hv fuel) by (first [done | lia | (left; cbn [length] in *; lia)]).
    ok_step.
    assert (k ∉ JsMap.keys items) as Hfresh.
    { unfold JsMap.keys. intros Hin.
      apply NoDup_app in Hnd as (_ & Hnd & _). apply (Hnd k Hin).
      apply list_elem_of_here. }
    rewrite (proj2 (has_false k items)) by done.
    rewrite set_fresh by done.
    rewrite (IH (items ++ [(k, v)]) fuel) by
      (first [done | lia | (rewrite fmap_app, <- app_assoc; exact Hnd)]).
    rewrite <- app_assoc. cbn [app]. do 2 f_equal.
    rewrite ?length_app. cbn [length]. lia.
Qed.

Lemma parseFromTagType_Compound data fuel pos :
  NBTParser.parseFromTagType data (S fuel) (Some TAG_Compound) pos
  = NBTParser.parseCompound data fuel pos [].
Proof. reflexivity. Qed.

Lemma parseFromTagType_List data fuel pos :
  NBTParser.parseFromTagType data (S fuel) (Some TAG_List) pos
  = NBTParser.parseList data (NBTParser.parseFromTagType data fuel) pos.
Proof. reflexivity. Qed.

Lemma reads_back_compound data items :
  Forall (fun kv => reads_back data kv.2) items ->
  reads_back data (CompoundTag items).
Proof.
  intros Hback fuel pos Hs Hfuel Hseg _.
  cbn [storable fuel_for encodeValue getId] in *.
  apply andb_true_iff in Hs as [Hnd%bool_decide_eq_true Hs].
  destruct fuel as [|fuel]; [lia|].
  rewrite parseFromTagType_Compound.
  rewrite (parseCompound_entries data items [] fuel pos)
    by (first [done | lia]).
  done.
Qed.

(** ** Reading a List back *)

Lemma sameType_spec values :
  NBTDumper.sameType values = true ->
  Forall (fun v => getId v = NBTDumper.valueId values) values.
Proof.
  destruct values as [|v values]; [constructor|]. cbn. intros H.
  constructor; [done|].
  eapply Forall_impl; [by apply forallb_Forall|]. cbn.
  by intros v' ?%bool_decide_eq_true.
Qed.

Lemma encodeValue_wrap tag :
  encodeValue (wrap tag)
  = (getId tag :: encodeString "" ++ encodeValue tag) ++ [TAG_End].
Proof. cbn. by rewrite app_nil_r. Qed.

Lemma unwrap_wrap (values : list Tag) : NBTParser.unwrap <$> (wrap <$> values) = values.
Proof.
  induction values as [|v values IH]; [done|].
  rewrite !fmap_cons, IH. reflexivity.
Qed.

Lemma isWrapped_wrap (values : list Tag) : forallb NBTParser.isWrapped (wrap <$> values) = true.
Proof. induction values as [|v values IH]; [done|]. rewrite fmap_cons. cbn. exact IH. Qed.

Lemma parseListItems_seg data tagId fuel (tags : list Tag) :
  forall pos acc flag,
    Forall (reads_back data) tags ->
    Forall (fun t => storable t = true /\ getId t = tagId
                     /\ (fuel_for t <= fuel)%nat) tags ->
    seg data pos (concat (encodeValue <$> tags)) ->
    (pos + length (concat (encodeValue <$> tags)) < length data)%nat ->
    NBTParser.parseListItems (NBTParser.parseFromTagType data fuel (Some tagId))
      (length tags) (Z.of_nat pos) acc flag
    = OK (acc ++ tags, flag && forallb NBTParser.isWrapped tags,
          Z.of_nat (pos + length (concat (encodeValue <$> tags)))).
Proof.
  induction tags as [|t tags IH]; intros pos acc flag Hback Hok Hseg Hl.
  - cbn. rewrite app_nil_r, andb_true_r. do 2 f_equal. lia.
  - apply Forall_cons in Hback as [Ht Hback].
    apply Forall_cons in Hok as [(Hs & Hid & Hf) Hok].
    rewrite fmap_cons in *. cbn [concat length] in *.
    apply seg_app in Hseg as [H1 H2]. rewrite length_app in *.
    cbn [NBTParser.parseListItems].
    assert ((pos + length (encodeValue t) < length data)%nat) as Hlt by lia.
    pose proof (Ht fuel pos Hs Hf H1 (or_introl Hlt)) as Hp.
    rewrite Hid in Hp. rewrite Hp. ok_step.
    rewrite IH by (first [done | lia]).
    rewrite <- app_assoc. cbn [app forallb]. do 2 f_equal; [|lia].
    f_equal. by destruct (NBTParser.isWrapped t), flag.
Qed.

Lemma reads_back_list data values :
  Forall (reads_back data) values -> reads_back data (ListTag values).
Proof.
  intros Hback fuel pos Hs Hfuel Hseg [Hl|[]].
  cbn [storable fuel_for encodeValue getId] in *.
  apply andb_true_iff in Hs as [[Hn%Z.ltb_lt Hs]%andb_true_iff Hdyn].
  apply forallb_Forall in Hs.
  destruct fuel as [|fuel]; [lia|].
  rewrite parseFromTagType_List. unfold NBTParser.parseList.
  pose proof (readInteger_seg data 4 (S pos) (Z.of_nat (length values))) as Hr.
  change (Z.of_nat 4) with 4 in Hr.
  destruct (NBTDumper.sameType values) eqn:Hsame;
    cbn [length] in Hl; rewrite length_app, length_be_bytes in Hl;
    apply seg_cons in Hseg as [H1 Hseg]; apply seg_app in Hseg as [H2 H3];
    rewrite length_be_bytes in H3;
    rewrite (expectByte_seg data pos _ H1); ok_step;
    rewrite Hr by (first [done | lia]); ok_step; rewrite Nat2Z.id.
  - rewrite (parseListItems_seg data (NBTDumper.valueId values) fuel values);
      [|done| |done|lia].
    2:{ apply Forall_forall. intros v Hv. split; [|split].
        - by apply (proj1 (Forall_forall _ _) Hs).
        - by apply (proj1 (Forall_forall _ _) (sameType_spec _ Hsame)).
        - pose proof (max_fuel_ge fuel_for v values Hv). lia. }
    ok_step. cbn [andb length]. rewrite length_app, length_be_bytes.
    destruct values as [|v values].
    + cbn. do 2 f_equal. lia.
    + cbn [orb] in Hdyn. apply negb_true_iff in Hdyn. rewrite Hdyn.
      do 2 f_equal. lia.
  - assert (concat ((fun v => (getId v :: encodeString "" ++ encodeValue v)
                              ++ [TAG_End]) <$> values)
            = concat (encodeValue <$> (wrap <$> values))) as Heq.
    { rewrite <- list_fmap_compose. f_equal. apply list_fmap_ext.
      intros i v _. cbn. by rewrite app_nil_r. }
    rewrite Heq in *.
    pose proof (parseListItems_seg data TAG_Compound fuel (wrap <$> values)) as Hi.
    rewrite length_fmap in Hi. rewrite Hi; [| | |done|lia].
    + ok_step. cbn [andb length]. rewrite isWrapped_wrap, app_nil_l, unwrap_wrap.
      rewrite length_app, length_be_bytes. do 2 f_equal. lia.
    + apply Forall_fmap, Forall_forall. intros v Hv.
      apply reads_back_compound. constructor; [|constructor]. cbn.
      by apply (proj1 (Forall_forall _ _) Hback).
    + apply Forall_fmap, Forall_forall. intros v Hv. cbn.
      split; [|split; [done|]].
      * rewrite (proj1 (Forall_forall _ _) Hs v Hv). reflexivity.
      * pose proof (max_fuel_ge fuel_for v values Hv). lia.
Qed.

Theorem reads_back_all data tag : reads_back data tag.
Proof.
  induction tag as [tag Hleaf|items IH|values IH] using Tag_nested_ind.
  - by apply reads_back_leaf.
  - by apply reads_back_compound.
  - by apply reads_back_list.
Qed.

Section Writer.
Import DumpContext.

(** ** The writer appends the layout *)

Lemma growBuffer_spec n ctx :
  ctx_ok ctx ->
  ctx_ok (growBuffer n ctx)
  /\ final (growBuffer n ctx) = final ctx
  /\ pointer (growBuffer n ctx) = pointer ctx
  /\ (view (growBuffer n ctx) = 0%nat
      \/ (pointer ctx + n < length (buffer (growBuffer n ctx)))%nat)
  /\ (pointer ctx + 1 <= length (buffer (growBuffer n ctx)))%nat.
Proof.
  intros [Hp Hl]. unfold growBuffer, ctx_ok, final.
  destruct (_ <=? _)%nat eqn:Hg; cbn.
  - rewrite length_app, length_replicate. rewrite take_app_le by done.
    repeat split; first [lia | auto].
  - apply Nat.leb_gt in Hg. repeat split; first [lia | auto].
Qed.

Lemma take_store off bs buf :
  (off <= length buf)%nat ->
  take (off + length bs) (store off bs buf) = take off buf ++ bs.
Proof.
  intros H. unfold store.
  rewrite take_app_add' by (by rewrite length_take_le).
  by rewrite take_app_length.
Qed.

Lemma length_store off bs buf :
  (off + length bs <= length buf)%nat -> length (store off bs buf) = length buf.
Proof.
  intros H. unfold store.
  rewrite !length_app, length_take_le, length_drop by lia. lia.
Qed.

Lemma view_set_appends n content :
  (0 < n)%nat -> length content = n -> appends (view_set n content) content.
Proof.
  intros Hn Hc ctx ctx' Hok. unfold view_set.
  destruct (growBuffer_spec n ctx Hok) as ([Hp Hl] & Hf & Hptr & Hv & _).
  destruct (_ <? _)%nat eqn:Hlt; [done|]. apply Nat.ltb_ge in Hlt.
  intros [= <-]. unfold final in *. rewrite Hptr in *.
  destruct Hv as [Hv|Hv]; [lia|].
  unfold ctx_ok. cbn.
  replace (pointer ctx + n - n)%nat with (pointer ctx) by lia.
  rewrite length_store by lia. split; [lia|].
  rewrite <- Hc at 1. rewrite take_store by lia. by rewrite Hf.
Qed.

Lemma dumpRaw_appends bytes : appends (dumpRaw bytes) bytes.
Proof.
  intros ctx ctx' Hok. unfold dumpRaw.
  destruct (growBuffer_spec (length bytes) ctx Hok) as ([Hp Hl] & Hf & Hptr & _ & _).
  destruct (_ <? _)%nat eqn:Hlt; [done|]. apply Nat.ltb_ge in Hlt.
  intros [= <-]. unfold final in *. rewrite Hptr in *. unfold ctx_ok. cbn.
  rewrite length_store by lia. split; [lia|].
  rewrite take_store by lia. by rewrite Hf.
Qed.

Lemma dumpByte_appends byte : appends (dumpByte byte) [byte mod 256].
Proof.
  intros ctx ctx' Hok. unfold dumpByte.
  destruct (growBuffer_spec 1 ctx Hok) as ([Hp Hl] & Hf & Hptr & _ & Hroom).
  intros [= <-]. unfold final in *. rewrite Hptr in *. unfold ctx_ok. cbn.
  rewrite length_insert. split; [lia|].
  rewrite (take_S_r _ _ (byte mod 256)) by (apply list_lookup_insert_eq; lia).
  rewrite take_insert_ge by lia. by rewrite Hf.
Qed.

Lemma appends_bind f g a b :
  appends f a -> appends g b -> appends (fun ctx => ctx ← f ctx; g ctx) (a ++ b).
Proof.
  intros Hf Hg ctx ctx' Hok H.
  destruct (f ctx) as [ctx1| |] eqn:E; try done. cbn in H.
  destruct (Hf ctx ctx1 Hok E) as [Hok1 E1].
  destruct (Hg ctx1 ctx' Hok1 H) as [Hok2 E2].
  split; [done|]. by rewrite E2, E1, app_assoc.
Qed.

Lemma appends_nil : appends OK [].
Proof. intros ctx ctx' Hok [= <-]. by rewrite app_nil_r. Qed.

Lemma dumpString_appends text : appends (dumpString text) (encodeString text).
Proof.
  unfold dumpString, encodeString, dumpUnsignedInteger.
  apply appends_bind; [|apply dumpRaw_appends].
  apply view_set_appends; [lia|apply length_be_bytes].
Qed.

Lemma dumpInteger_appends n v :
  (0 < n)%nat -> appends (dumpInteger n v) (be_bytes n v).
Proof. intros Hn. apply view_set_appends; [done|apply length_be_bytes]. Qed.

Lemma forEach_appends {A} (dumpOne : A -> t -> result t) (enc : A -> list Z) values :
  Forall (fun v => appends (dumpOne v) (enc v)) values ->
  appends (NBTDumper.forEach dumpOne values) (concat (enc <$> values)).
Proof.
  induction 1 as [|v values Hv _ IH]; cbn [NBTDumper.forEach].
  - apply appends_nil.
  - apply (appends_bind _ _ _ _ Hv IH).
Qed.

Lemma getId_byte tag : getId tag mod 256 = getId tag.
Proof. by destruct tag. Qed.

Lemma dumpEntry_appends key v :
  appends (NBTDumper.dumpTagValue v) (encodeValue v) ->
  appends (fun ctx => ctx ← dumpByte (getId v) ctx;
                      ctx ← dumpString key ctx;
                      NBTDumper.dumpTagValue v ctx)
    (getId v :: encodeString key ++ encodeValue v).
Proof.
  intros Hv.
  apply (appends_bind (dumpByte (getId v)) _ [getId v]).
  - rewrite <- (getId_byte v) at 2. apply dumpByte_appends.
  - apply (appends_bind (dumpString key) _ _ _ (dumpString_appends key) Hv).
Qed.

Lemma dumpCompound_appends items :
  Forall (fun kv => appends (NBTDumper.dumpTagValue kv.2) (encodeValue kv.2)) items ->
  appends (NBTDumper.dumpCompound NBTDumper.dumpTagValue items)
    (encodeValue (CompoundTag items)).
Proof.
  intros H. cbn [encodeValue]. unfold NBTDumper.dumpCompound.
  apply (appends_bind
           (NBTDumper.forEach
              (fun '(key, value) ctx =>
                 ctx ← dumpByte (getId value) ctx;
                 ctx ← dumpString key ctx;
                 NBTDumper.dumpTagValue value ctx) items)
           (dumpByte TAG_End) _ [TAG_End]); [|apply dumpByte_appends].
  apply forEach_appends. eapply Forall_impl; [exact H|].
  intros [k v] Hv. by apply dumpEntry_appends.
Qed.

Lemma dumpTagValue_appends tag :
  appends (NBTDumper.dumpTagValue tag) (encodeValue tag).
Proof.
  induction tag as [tag Hleaf|items IH|values IH] using Tag_nested_ind.
  - destruct tag as [v|v|v|v|v|v|v|items|values|vs|vs|vs]; try done;
      cbn [NBTDumper.dumpTagValue encodeValue].
    + apply dumpByte_appends.
    + apply dumpInteger_appends; lia.
    + apply dumpInteger_appends; lia.
    + apply dumpInteger_appends; lia.
    + apply (view_set_appends 4); [lia|apply length_be_bytes].
    + apply (view_set_appends 8); [lia|apply length_be_bytes].
    + apply dumpString_appends.
    + apply (appends_bind (dumpInteger 4 _) (dumpRaw _));
        [apply dumpInteger_appends; lia|apply dumpRaw_appends].
    + apply (appends_bind (dumpInteger 4 _) (NBTDumper.forEach _ vs));
        [apply dumpInteger_appends; lia|].
      apply forEach_appends, Forall_forall. intros v _.
      apply dumpInteger_appends; lia.
    + apply (appends_bind (dumpInteger 4 _) (NBTDumper.forEach _ vs));
        [apply dumpInteger_appends; lia|].
      apply forEach_appends, Forall_forall. intros v _.
      apply dumpInteger_appends; lia.
  - by apply dumpCompound_appends.
  - cbn [NBTDumper.dumpTagValue encodeValue]. unfold NBTDumper.dumpList.
    destruct (NBTDumper.sameType values).
    + apply (appends_bind (dumpByte _) _ [NBTDumper.valueId values]).
      { assert (NBTDumper.valueId values mod 256 = NBTDumper.valueId values) as Hid.
        { destruct values as [|v ?]; [done|apply getId_byte]. }
        rewrite <- Hid at 2. apply dumpByte_appends. }
      apply (appends_bind (dumpInteger 4 _) (NBTDumper.forEach _ values));
        [apply dumpInteger_appends; lia|].
      by apply forEach_appends.
    + apply (appends_bind (dumpByte _) _ [TAG_Compound]);
        [apply dumpByte_appends|].
      apply (appends_bind (dumpInteger 4 _) (NBTDumper.forEach _ values));
        [apply dumpInteger_appends; lia|].
      apply forEach_appends. eapply Forall_impl; [exact IH|].
      intros v Hv. cbn beta.
      pose proof (dumpCompound_appends [("", v)]) as Hc.
      cbn [encodeValue fmap list_fmap concat] in Hc. rewrite app_nil_r in Hc.
      apply Hc. by constructor.
Qed.

Lemma dump_single name value bytes :
  dump (CompoundTag [(name, value)]) = OK bytes ->
  bytes = TAG_Compound :: encodeString name ++ encodeValue value.
Proof.
  unfold dump, NBTDumper.dump.
  assert (ctx_ok new) as Hnew by (split; cbn; lia).
  destruct (dumpByte (getId (CompoundTag [(name, value)])) new ≫= _)
    as [ctx| |] eqn:E; cbn; intros H; try done.
  injection H as <-.
  (* the root writes its own id, TAG_Compound, where an entry writes the
     id of its value *)
  assert (appends (fun ctx => ctx ← dumpByte (getId (CompoundTag [(name, value)])) ctx;
                              ctx ← dumpString name ctx;
                              NBTDumper.dumpTagValue value ctx)
            (TAG_Compound :: encodeString name ++ encodeValue value)) as Hroot.
  { apply (appends_bind (dumpByte _) _ [TAG_Compound]); [apply dumpByte_appends|].
    apply (appends_bind (dumpString name) _ _ _ (dumpString_appends name)
             (dumpTagValue_appends value)). }
  by destruct (Hroot new ctx Hnew E) as [_ ->].
Qed.
End Writer.

(** C1, as amended: a tree that the binary form carries as it is
    ([storable]), that is a Compound with a single entry whose value is a
    Compound, and that [dump] writes without an error, is read back by
    [parseNBT] as it was, given enough fuel. *)
Theorem binary_round_trip name items bytes fuel :
  storable (CompoundTag [(name, CompoundTag items)]) = true ->
  dump (CompoundTag [(name, CompoundTag items)]) = OK bytes ->
  (fuel_for (CompoundTag items) <= fuel)%nat ->
  parseNBT fuel bytes = OK (CompoundTag [(name, CompoundTag items)]).
Proof.
  intros Hs Hdump Hfuel. apply dump_single in Hdump.
  cbn [storable forallb] in Hs. fold storable in Hs.
  apply andb_true_iff in Hs as [_ Hs]. rewrite andb_true_r in Hs.
  apply andb_true_iff in Hs as [[Hname%Z.ltb_lt Hplain]%andb_true_iff Hs].
  assert (seg bytes 0 (TAG_Compound :: encodeString name
                        ++ encodeValue (CompoundTag items))) as Hseg.
  { exists [], []. by rewrite app_nil_r. }
  apply seg_cons in Hseg as [H1 Hseg]. apply seg_app in Hseg as [H2 H3].
  pose proof (encodeValue_nonempty (CompoundTag items)) as Hne.
  assert (length bytes = S (length (encodeString name)
                            + length (encodeValue (CompoundTag items)))) as Hlen.
  { rewrite Hdump. cbn [length]. by rewrite length_app. }
  unfold parseNBT, NBTParser.parse.
  pose proof (expectByte_seg bytes 0 TAG_Compound H1) as He.
  change (Z.of_nat 0) with 0 in He. rewrite He. ok_step.
  rewrite decide_False by discriminate.
  rewrite (parseString_seg bytes 1 name) by (first [done | lia]). ok_step.
  pose proof (reads_back_all bytes (CompoundTag items) fuel
                (1 + length (encodeString name))%nat Hs Hfuel H3 (or_intror I)) as Hr.
  cbn [getId] in Hr. rewrite Hr. reflexivity.
Qed.

Lemma binary_round_trip_witness :
  exists bytes,
    dump (CompoundTag
            [("r", CompoundTag
                     [("a", IntTag (ofZ 5));
                      ("l", ListTag [IntTag (ofZ 1); StringTag "hi"]);
                      ("f", FloatTag (Finite 25 1));
                      ("b", ByteArrayTag [ofZ 1; ofZ 2]);
                      ("L", LongArrayTag [-1])])]) = OK bytes
    /\ parseNBT 12 bytes
       = OK (CompoundTag
               [("r", CompoundTag
                        [("a", IntTag (ofZ 5));
                         ("l", ListTag [IntTag (ofZ 1); StringTag "hi"]);
                         ("f", FloatTag (Finite 25 1));
                         ("b", ByteArrayTag [ofZ 1; ofZ 2]);
                         ("L", LongArrayTag [-1])])]).
Proof.
  eexists. split; [vm_compute; reflexivity|].
  apply binary_round_trip; [vm_compute; reflexivity|vm_compute; reflexivity|].
  cbn. lia.
Defined.

(** C1, as stated, fails.  By design: a List whose elements are all
    single-entry Compounds named by the empty string is read back as the
    List of their values; and a string that starts with U+FEFF, the byte
    order mark, is read back without it, as [TextDecoder] drops the mark.
    And a root whose single entry is not a Compound is written under the id
    of the root itself and read back as an empty Compound. *)
Lemma round_trip_fails :
  ((bytes ← dump (CompoundTag
                    [("r", CompoundTag
                             [("l", ListTag [CompoundTag [("", CompoundTag [])]])])]);
    parseNBT 8 bytes)
   = OK (CompoundTag [("r", CompoundTag [("l", ListTag [CompoundTag []])])]))
  /\ ListTag [CompoundTag []] <> ListTag [CompoundTag [("", CompoundTag [])]]
  /\ ((bytes ← dump (CompoundTag
                       [("r", CompoundTag
                                [("s", StringTag
                                         (String "239" (String "187" (String "191" "a"))))])]);
       parseNBT 8 bytes)
      = OK (CompoundTag [("r", CompoundTag [("s", StringTag "a")])]))
  /\ StringTag "a" <> StringTag (String "239" (String "187" (String "191" "a")))
  /\ ((bytes ← dump (CompoundTag [("a", IntTag (ofZ 5))]); parseNBT 8 bytes)
      = OK (CompoundTag [("a", CompoundTag [])]))
  /\ CompoundTag [] <> IntTag (ofZ 5).
Proof.
  split; [vm_compute; reflexivity|]. split; [discriminate|].
  split; [vm_compute; reflexivity|]. split; [discriminate|].
  split; [vm_compute; reflexivity|discriminate].
Qed.


(** * Further properties of the binary reader *)

(** ** The root of the input *)

Lemma parse_first_byte data fuel b rest :
  data = b :: rest -> b <> TAG_End ->
  parseNBT fuel data
  = ('(name, pos) ← NBTParser.parseString data 1;
     '(value, _) ← NBTParser.parseFromTagType data fuel (Some b) pos;
     OK (CompoundTag [(name, value)])).
Proof.
  intros -> Hb. unfold parseNBT, NBTParser.parse, NBTParser.expectByte.
  rewrite (proj2 (Z.leb_gt _ _)) by (cbn [length]; lia).
  rewrite bind_OK. cbv beta iota. unfold NBTParser.at_pos. cbn [Z.ltb Z.compare Z.to_nat lookup list_lookup].
  change (Z.of_nat 0) with 0. cbn [Z.add].
  change ((b :: rest) !! Z.to_nat 0) with (Some b).
  destruct (decide (Some b = Some TAG_End)) as [[= ->]|_]; done.
Qed.

(** X1: An input of at most three bytes is never accepted: a first byte
    [TAG_End] is an invalid root, and otherwise the input ends before the
    name of the root has been read. *)
Theorem parse_short_input fuel data :
  (length data <= 3)%nat ->
  parseNBT fuel data
  = match data with
    | b :: _ => if decide (b = TAG_End) then Err (InvalidRootTag TAG_End)
                else Err UnexpectedEOF
    | [] => Err UnexpectedEOF
    end.
Proof.
  intros Hl. destruct data as [|b rest]; [done|].
  destruct (decide (b = TAG_End)) as [->|Hb]; [done|].
  rewrite (parse_first_byte _ fuel b rest eq_refl Hb).
  unfold NBTParser.parseString, NBTParser.readUnsignedInteger.
  rewrite (proj2 (Z.leb_le _ _)); [done|]. cbn [length] in *. lia.
Qed.

Lemma parse_short_input_witness :
  parseNBT 5 [TAG_Byte; 0; 0] = Err UnexpectedEOF.
Proof. apply (parse_short_input 5 [TAG_Byte; 0; 0]). cbn. lia. Defined.


Lemma parseFromTagType_unknown data fuel id pos :
  ~ (1 <= id <= 12) ->
  NBTParser.parseFromTagType data (S fuel) (Some id) pos
  = Err (CannotParseTagId (Some id)).
Proof.
  intros Hid. cbn [NBTParser.parseFromTagType].
  repeat (rewrite decide_False;
          [|let H := fresh in intros H; injection H as ->; apply Hid; cbv; by split]).
  reflexivity.
Qed.

(** X2: A root whose tag id is none of the twelve is rejected with
    "cannot parse tag id", once its name has been read: the name has to
    be followed by at least one byte. *)
Theorem parse_unknown_tag_id fuel id name b rest :
  ~ (0 <= id <= 12) ->
  Z.of_nat (length (TextEncoder_encode name)) < 65536 ->
  parseNBT (S fuel) (id :: encodeString name ++ b :: rest)
  = Err (CannotParseTagId (Some id)).
Proof.
  intros Hid Hname.
  set (data := id :: encodeString name ++ b :: rest).
  rewrite (parse_first_byte data (S fuel) id (encodeString name ++ b :: rest) eq_refl)
    by (intros ->; apply Hid; cbv; by split).
  assert (seg data 1 (encodeString name)) as Hseg.
  { exists [id], (b :: rest). done. }
  pose proof (parseString_bytes data 1 name Hseg Hname) as Hs.
  change (Z.of_nat 1) with 1 in Hs. rewrite Hs.
  2:{ unfold data. cbn [length]. rewrite length_app. cbn [length]. lia. }
  rewrite bind_OK. cbv beta iota.
  rewrite parseFromTagType_unknown by lia. reflexivity.
Qed.

Lemma parse_unknown_tag_id_witness :
  parseNBT 1 [13; 0; 1; 97; 0] = Err (CannotParseTagId (Some 13)).
Proof. apply (parse_unknown_tag_id 0 13 "a" 0 []); [lia|cbn; lia]. Defined.

(** ** Lengths below zero *)

(** After the bytes of the name of the root, which are decoded whatever
    they are, and an optional byte [pre], a negative length is read as it
    is. *)
Lemma parse_length_prefix fuel id name (pre : list Z) L b rest :
  Z.of_nat (length (TextEncoder_encode name)) < 65536 ->
  - 2 ^ 31 <= L < 2 ^ 31 ->
  id <> TAG_End ->
  (length pre <= 1)%nat ->
  let data := id :: encodeString name ++ pre ++ be_bytes 4 L ++ b :: rest in
  let pos := (1 + length (encodeString name) + length pre)%nat in
  parseNBT fuel data
  = ('(value, _) ← NBTParser.parseFromTagType data fuel (Some id)
                      (Z.of_nat (1 + length (encodeString name)));
     OK (CompoundTag [(TextDecoder_decode (TextEncoder_encode name), value)]))
  /\ NBTParser.readInteger data 4 (Z.of_nat pos) = OK (L, Z.of_nat (pos + 4))
  /\ (pos + 4 < length data)%nat.
Proof.
  intros Hname HL Hid Hpre data pos.
  assert (length data = S (pos + 4 + length rest)) as Hlen.
  { unfold data, pos. cbn [length]. rewrite !length_app, length_be_bytes.
    cbn [length]. lia. }
  split; [|split].
  - rewrite (parse_first_byte data fuel id _ eq_refl Hid).
    assert (seg data 1 (encodeString name)) as Hseg by (by exists [id], (pre ++ be_bytes 4 L ++ b :: rest)).
    pose proof (parseString_bytes data 1 name Hseg Hname) as Hs.
    change (Z.of_nat 1) with 1 in Hs. rewrite Hs by (unfold pos in Hlen; lia).
    by rewrite bind_OK.
  - pose proof (readInteger_seg data 4 pos L) as Hr.
    change (Z.of_nat 4) with 4 in Hr. apply Hr; [lia| |lia|lia].
    exists (id :: encodeString name ++ pre), (b :: rest). split.
    + unfold data. rewrite <- app_comm_cons. by rewrite <- app_assoc.
    + unfold pos. cbn [length]. rewrite length_app. lia.
  - lia.
Qed.

(** X3: The length of an IntArray, of a LongArray and of a List is not checked
    for its sign: with a negative length the loop that reads the elements
    does not run at all, and the reader returns the empty array or list,
    under the name that [TextDecoder] makes of the bytes of the name,
    whatever these bytes are. *)
Theorem negative_length_reads_empty fuel name L b rest :
  Z.of_nat (length (TextEncoder_encode name)) < 65536 ->
  - 2 ^ 31 <= L < 0 ->
  let decoded := TextDecoder_decode (TextEncoder_encode name) in
  parseNBT (S fuel) (TAG_Int_Array :: encodeString name ++ be_bytes 4 L ++ b :: rest)
  = OK (CompoundTag [(decoded, IntArrayTag [])])
  /\ parseNBT (S fuel) (TAG_Long_Array :: encodeString name ++ be_bytes 4 L ++ b :: rest)
     = OK (CompoundTag [(decoded, LongArrayTag [])])
  /\ forall elementId,
       parseNBT (S fuel)
         (TAG_List :: encodeString name ++ elementId :: be_bytes 4 L ++ b :: rest)
       = OK (CompoundTag [(decoded, ListTag [])]).
Proof.
  intros Hname HL decoded. unfold decoded.
  assert (Z.to_nat L = 0%nat) as HL0 by lia.
  split; [|split; [|intros elementId]].
  - pose proof (parse_length_prefix (S fuel) TAG_Int_Array name [] L b rest) as H.
    cbv zeta in H. cbn [app length] in H. rewrite Nat.add_0_r in H.
    destruct H as (-> & Hr & _); [done|lia|done|lia|].
    cbn [NBTParser.parseFromTagType]. rewrite !decide_False by discriminate.
    rewrite decide_True by done. unfold NBTParser.parseIntArray.
    rewrite Hr, bind_OK. cbv beta iota. by rewrite HL0.
  - pose proof (parse_length_prefix (S fuel) TAG_Long_Array name [] L b rest) as H.
    cbv zeta in H. cbn [app length] in H. rewrite Nat.add_0_r in H.
    destruct H as (-> & Hr & _); [done|lia|done|lia|].
    cbn [NBTParser.parseFromTagType]. rewrite !decide_False by discriminate.
    rewrite decide_True by done. unfold NBTParser.parseLongArray.
    rewrite Hr, bind_OK. cbv beta iota. by rewrite HL0.
  - pose proof (parse_length_prefix (S fuel) TAG_List name [elementId] L b rest) as H.
    cbv zeta in H. cbn [app length] in H.
    destruct H as (-> & Hr & Hl); [done|lia|done|lia|].
    rewrite parseFromTagType_List. unfold NBTParser.parseList.
    set (data := TAG_List :: _) in *.
    assert (seg data (1 + length (encodeString name)) [elementId]) as Hseg.
    { exists (TAG_List :: encodeString name), (be_bytes 4 L ++ b :: rest).
      split; [done|cbn [length]; lia]. }
    rewrite (expectByte_seg data _ _ Hseg), bind_OK. cbv beta iota.
    replace (Z.of_nat (S (1 + length (encodeString name))))
      with (Z.of_nat (1 + length (encodeString name) + 1)) by lia.
    rewrite Hr, bind_OK. cbv beta iota. by rewrite HL0.
Qed.

(** A name of four bytes, a byte order mark and the letter a, is read as
    the letter. *)
Lemma negative_length_reads_empty_witness :
  parseNBT 1 [11; 0; 4; 239; 187; 191; 97; 255; 255; 255; 255; 0]
  = OK (CompoundTag [("a", IntArrayTag [])]).
Proof.
  assert (TAG_Int_Array
          :: encodeString (String "239" (String "187" (String "191" "a")))
          ++ be_bytes 4 (-1) ++ [0]
          = [11; 0; 4; 239; 187; 191; 97; 255; 255; 255; 255; 0]) as <-
    by (vm_compute; reflexivity).
  refine (proj1 (negative_length_reads_empty 0
                   (String "239" (String "187" (String "191" "a"))) (-1) 0 [] _ _));
    [cbn; lia|lia].
Defined.

(** X4: The length of a ByteArray is not checked for its sign either: a
    negative length passes the bounds check and moves the position backwards.  The array that is returned is
    empty as long as the position stays at or above zero; once it falls
    below zero, [slice] counts its end from the end of the input, and the
    array is a prefix of the bytes that follow the length.  The name is the
    one that [TextDecoder] makes of its bytes, whatever these are. *)
Theorem negative_byte_array_length fuel name L b rest :
  Z.of_nat (length (TextEncoder_encode name)) < 65536 ->
  - 2 ^ 31 <= L < 0 ->
  let payload := b :: rest in
  let pos := 7 + Z.of_nat (length (TextEncoder_encode name)) in
  parseNBT (S fuel) (TAG_Byte_Array :: encodeString name ++ be_bytes 4 L ++ payload)
  = OK (CompoundTag
          [(TextDecoder_decode (TextEncoder_encode name), ByteArrayTag
                    (ofZ <$> (if pos + L <? 0
                              then take (Z.to_nat (pos + Z.of_nat (length payload) + L))
                                     payload
                              else [])))]).
Proof.
  intros Hname HL payload pos.
  pose proof (parse_length_prefix (S fuel) TAG_Byte_Array name [] L b rest) as H.
  cbv zeta in H. cbn [app length] in H. rewrite Nat.add_0_r in H.
  fold payload in H.
  destruct H as (-> & Hr & Hl); [done|lia|done|lia|].
  set (data := TAG_Byte_Array :: _) in *.
  assert (length (encodeString name) = (2 + length (TextEncoder_encode name))%nat) as Hen.
  { unfold encodeString. by rewrite length_app, length_be_bytes. }
  assert (Z.of_nat (1 + length (encodeString name) + 4) = pos) as Hpos
    by (unfold pos; lia).
  assert (length data = (Z.to_nat pos + length payload)%nat) as Hlen.
  { unfold data. cbn [length]. rewrite !length_app, length_be_bytes. lia. }
  assert (drop (Z.to_nat pos) data = payload) as Hdrop.
  { unfold data. rewrite app_comm_cons, app_assoc. apply drop_app_length'.
    rewrite length_app, length_be_bytes. cbn [length]. lia. }
  cbn [NBTParser.parseFromTagType]. rewrite !decide_False by discriminate.
  rewrite decide_True by done. unfold NBTParser.parseByteArray.
  rewrite Hr, bind_OK. cbv beta iota. rewrite Hpos.
  rewrite (proj2 (Z.leb_gt _ _)) by lia.
  rewrite bind_OK. cbv beta iota. do 5 f_equal.
  unfold js_slice. rewrite (proj2 (Z.ltb_ge pos 0)) by lia.
  rewrite (Z.min_l pos) by lia. rewrite Hdrop.
  assert (0 <= pos) as Hpos0 by (unfold pos; lia).
  destruct (pos + L <? 0) eqn:Hneg.
  - do 2 f_equal. apply Z.ltb_lt in Hneg. lia.
  - apply Z.ltb_ge in Hneg. rewrite Z.min_l by lia.
    replace (Z.to_nat _) with 0%nat by lia. done.
Qed.

Lemma negative_byte_array_length_witness :
  parseNBT 1 [7; 0; 0; 255; 255; 255; 248; 1; 2; 3; 4; 5]
  = OK (CompoundTag [("", ByteArrayTag [ofZ 1; ofZ 2; ofZ 3; ofZ 4])]).
Proof.
  assert (TAG_Byte_Array :: encodeString "" ++ be_bytes 4 (-8) ++ [1; 2; 3; 4; 5]
          = [7; 0; 0; 255; 255; 255; 248; 1; 2; 3; 4; 5]) as <-
    by (vm_compute; reflexivity).
  refine (negative_byte_array_length 0 "" (-8) 1 [2; 3; 4; 5] _ _); [cbn; lia|lia].
Defined.


(** * Further properties of the binary writer *)

Section SmallWrites.
Import DumpContext.

Lemma growBuffer_fits n ctx :
  length (buffer ctx) = 256%nat -> (pointer ctx + n < 256)%nat -> growBuffer n ctx = ctx.
Proof.
  intros Hb Hp. unfold growBuffer. rewrite Hb.
  by rewrite (proj2 (Nat.leb_gt _ _)) by done.
Qed.

Lemma view_set_fits n content : length content = n -> fits (view_set n content) n.
Proof.
  intros Hc ctx Hb Hv Hp. unfold view_set. rewrite growBuffer_fits by done.
  rewrite Hv, (proj2 (Nat.ltb_ge _ _)) by lia.
  eexists. split; [done|]. cbn. rewrite length_store by lia. done.
Qed.

Lemma dumpRaw_fits bytes : fits (dumpRaw bytes) (length bytes).
Proof.
  intros ctx Hb Hv Hp. unfold dumpRaw. rewrite growBuffer_fits by done.
  rewrite Hb, (proj2 (Nat.ltb_ge _ _)) by lia.
  eexists. split; [done|]. cbn. rewrite length_store by lia. done.
Qed.

Lemma dumpByte_fits byte : fits (dumpByte byte) 1.
Proof.
  intros ctx Hb Hv Hp. unfold dumpByte. rewrite growBuffer_fits by done.
  eexists. split; [done|]. cbn. rewrite length_insert. repeat split; [done..|lia].
Qed.

Lemma fits_bind f g a b :
  fits f a -> fits g b -> fits (fun ctx => ctx ← f ctx; g ctx) (a + b).
Proof.
  intros Hf Hg ctx Hb Hv Hp.
  destruct (Hf ctx Hb Hv) as (ctx1 & E1 & Hb1 & Hv1 & Hp1); [lia|].
  destruct (Hg ctx1 Hb1 Hv1) as (ctx2 & E2 & Hb2 & Hv2 & Hp2); [lia|].
  exists ctx2. rewrite E1. cbn. repeat split; [done..|lia].
Qed.

Lemma fits_ext f n m : n = m -> fits f n -> fits f m.
Proof. by intros ->. Qed.

Lemma dumpString_fits text : fits (dumpString text) (length (encodeString text)).
Proof.
  unfold dumpString, encodeString, dumpUnsignedInteger.
  rewrite length_app, length_be_bytes.
  apply fits_bind; [|apply dumpRaw_fits].
  apply view_set_fits, length_be_bytes.
Qed.

Lemma dumpInteger_fits n v : fits (dumpInteger n v) n.
Proof. apply view_set_fits, length_be_bytes. Qed.

Lemma forEach_fits {A} (dumpOne : A -> t -> result t) (enc : A -> list Z) values :
  Forall (fun v => fits (dumpOne v) (length (enc v))) values ->
  fits (NBTDumper.forEach dumpOne values) (length (concat (enc <$> values))).
Proof.
  induction 1 as [|v values Hv _ IH]; cbn [NBTDumper.forEach fmap list_fmap concat].
  - intros ctx Hb Hv Hp. exists ctx. cbn. repeat split; [done..|lia].
  - rewrite length_app. apply (fits_bind _ _ _ _ Hv IH).
Qed.

Lemma dumpEntry_fits key v :
  fits (NBTDumper.dumpTagValue v) (length (encodeValue v)) ->
  fits (fun ctx => ctx ← dumpByte (getId v) ctx;
                   ctx ← dumpString key ctx;
                   NBTDumper.dumpTagValue v ctx)
    (length (getId v :: encodeString key ++ encodeValue v)).
Proof.
  intros Hv. cbn [length]. rewrite length_app.
  apply (fits_bind (dumpByte (getId v)) _ 1); [apply dumpByte_fits|].
  apply (fits_bind (dumpString key) _ _ _ (dumpString_fits key) Hv).
Qed.

Lemma dumpCompound_fits items :
  Forall (fun kv => fits (NBTDumper.dumpTagValue kv.2) (length (encodeValue kv.2))) items ->
  fits (NBTDumper.dumpCompound NBTDumper.dumpTagValue items)
    (length (encodeValue (CompoundTag items))).
Proof.
  intros H. cbn [encodeValue]. unfold NBTDumper.dumpCompound.
  rewrite length_app.
  apply (fits_bind
           (NBTDumper.forEach
              (fun '(key, value) ctx =>
                 ctx ← dumpByte (getId value) ctx;
                 ctx ← dumpString key ctx;
                 NBTDumper.dumpTagValue value ctx) items)
           (dumpByte TAG_End) _ 1); [|apply dumpByte_fits].
  apply forEach_fits. eapply Forall_impl; [exact H|].
  intros [k v] Hv. by apply dumpEntry_fits.
Qed.

Lemma dumpTagValue_fits tag :
  fits (NBTDumper.dumpTagValue tag) (length (encodeValue tag)).
Proof.
  induction tag as [tag Hleaf|items IH|values IH] using Tag_nested_ind.
  - destruct tag as [v|v|v|v|v|v|v|items|values|vs|vs|vs]; try done;
      cbn [NBTDumper.dumpTagValue encodeValue];
      rewrite ?length_app, ?length_be_bytes.
    + apply dumpByte_fits.
    + apply dumpInteger_fits.
    + apply dumpInteger_fits.
    + apply dumpInteger_fits.
    + apply (view_set_fits 4), length_be_bytes.
    + apply (view_set_fits 8), length_be_bytes.
    + apply dumpString_fits.
    + apply (fits_bind (dumpInteger 4 _) (dumpRaw _));
        [apply dumpInteger_fits|apply dumpRaw_fits].
    + apply (fits_bind (dumpInteger 4 _) (NBTDumper.forEach _ vs));
        [apply dumpInteger_fits|].
      apply forEach_fits, Forall_forall. intros v _.
      rewrite length_be_bytes. apply dumpInteger_fits.
    + apply (fits_bind (dumpInteger 4 _) (NBTDumper.forEach _ vs));
        [apply dumpInteger_fits|].
      apply forEach_fits, Forall_forall. intros v _.
      rewrite length_be_bytes. apply dumpInteger_fits.
  - by apply dumpCompound_fits.
  - cbn [NBTDumper.dumpTagValue encodeValue]. unfold NBTDumper.dumpList.
    destruct (NBTDumper.sameType values); cbn [length];
      rewrite length_app, length_be_bytes.
    + apply (fits_bind (dumpByte _) _ 1); [apply dumpByte_fits|].
      apply (fits_bind (dumpInteger 4 _) (NBTDumper.forEach _ values));
        [apply dumpInteger_fits|].
      by apply forEach_fits.
    + apply (fits_bind (dumpByte _) _ 1); [apply dumpByte_fits|].
      apply (fits_bind (dumpInteger 4 _) (NBTDumper.forEach _ values));
        [apply dumpInteger_fits|].
      apply forEach_fits. eapply Forall_impl; [exact IH|].
      intros v Hv. cbn beta.
      pose proof (dumpCompound_fits [("", v)]) as Hc.
      cbn [encodeValue fmap list_fmap concat] in Hc. rewrite app_nil_r in Hc.
      apply Hc. by constructor.
Qed.

Lemma dump_from_parts (op : t -> result t) bytes :
  fits op (length bytes) -> appends op bytes -> (length bytes < 256)%nat ->
  (ctx ← op new; OK (final ctx)) = OK bytes.
Proof.
  intros Hfits Happ Hlen.
  destruct (Hfits new) as (ctx' & E & _); [done..|].
  rewrite E. cbn. f_equal.
  assert (ctx_ok new) as Hnew by (split; cbn; lia).
  by destruct (Happ new ctx' Hnew E) as [_ ->].
Qed.

Lemma dump_single_small name value :
  (length (encodeRoot (CompoundTag [(name, value)])) < 256)%nat ->
  dump (CompoundTag [(name, value)]) = OK (encodeRoot (CompoundTag [(name, value)])).
Proof.
  intros Hlen. unfold dump, NBTDumper.dump.
  apply (dump_from_parts
           (fun ctx => ctx ← dumpByte (getId (CompoundTag [(name, value)])) ctx;
                       ctx ← dumpString name ctx;
                       NBTDumper.dumpTagValue value ctx)); [| |done].
  - cbn [encodeRoot length]. rewrite length_app.
    apply (fits_bind (dumpByte _) _ 1); [apply dumpByte_fits|].
    apply (fits_bind (dumpString name) _ _ _ (dumpString_fits name)
             (dumpTagValue_fits value)).
  - apply (appends_bind (dumpByte _) _ [TAG_Compound]); [apply dumpByte_appends|].
    apply (appends_bind (dumpString name) _ _ _ (dumpString_appends name)
             (dumpTagValue_appends value)).
Qed.

Lemma dump_other_small root :
  (length (TAG_Compound :: encodeString "" ++ getId root :: encodeValue root) < 256)%nat ->
  (ctx ← (ctx ← dumpByte TAG_Compound new;
          ctx ← dumpString "" ctx;
          NBTDumper.dumpTag root ctx);
   OK (final ctx))
  = OK (TAG_Compound :: encodeString "" ++ getId root :: encodeValue root).
Proof.
  intros Hlen.
  apply (dump_from_parts
           (fun ctx => ctx ← dumpByte TAG_Compound ctx;
                       ctx ← dumpString "" ctx;
                       NBTDumper.dumpTag root ctx)); [| |done].
  - cbn [length]. rewrite length_app. cbn [length].
    apply (fits_bind (dumpByte _) _ 1); [apply dumpByte_fits|].
    apply (fits_bind (dumpString "") _ _ _ (dumpString_fits "")).
    apply (fits_bind (dumpByte _) _ 1 _ (dumpByte_fits _) (dumpTagValue_fits root)).
  - apply (appends_bind (dumpByte _) _ [TAG_Compound]); [apply dumpByte_appends|].
    apply (appends_bind (dumpString "") _ _ _ (dumpString_appends "")).
    apply (appends_bind (dumpByte _) _ [getId root]);
      [|apply dumpTagValue_appends].
    rewrite <- (getId_byte root) at 2. apply dumpByte_appends.
Qed.
End SmallWrites.

(** X5: As long as the bytes to write are fewer than 256, so that the buffer
    does not have to grow, [dump] returns, and returns the layout
    [encodeRoot] of its root. *)
Theorem dump_small root :
  (length (encodeRoot root) < 256)%nat -> dump root = OK (encodeRoot root).
Proof.
  destruct root as [v|v|v|v|v|v|v|items|values|vs|vs|vs];
    try apply dump_other_small.
  destruct items as [|[name value] [|kv items]];
    [apply dump_other_small|apply dump_single_small|apply dump_other_small].
Qed.

Lemma dump_small_witness :
  dump (ListTag [IntTag (ofZ 1); StringTag "a"])
  = OK [10; 0; 0; 9; 10; 0; 0; 0; 2; 3; 0; 0; 0; 0; 0; 1; 0; 8; 0; 0; 0; 1; 97; 0].
Proof.
  assert (encodeRoot (ListTag [IntTag (ofZ 1); StringTag "a"])
          = [10; 0; 0; 9; 10; 0; 0; 0; 2; 3; 0; 0; 0; 0; 0; 1; 0; 8; 0; 0; 0; 1; 97; 0])
    as <- by (vm_compute; reflexivity).
  refine (dump_small (ListTag [IntTag (ofZ 1); StringTag "a"]) _).
  vm_compute. lia.
Defined.

(** ** A root that is not a Compound *)

Lemma be_value_nonneg bs : Forall (fun b => 0 <= b) bs -> 0 <= be_value bs.
Proof.
  induction bs as [|b bs IH] using rev_ind; [done|].
  intros [H1 H2]%Forall_app. apply Forall_inv in H2.
  unfold be_value in *. rewrite foldl_app. cbn [foldl]. specialize (IH H1).
  cbv beta in *. lia.
Qed.

Lemma be_bytes_nonneg n v : Forall (fun b => 0 <= b) (be_bytes n v).
Proof.
  induction n as [|n IH]; cbn [be_bytes]; constructor; [|done].
  apply Z.mod_pos_bound. lia.
Qed.

(** Where it does not fail with the end of the input, [parseString] moves
    on by two bytes at least. *)
Lemma parseString_cases data pos :
  Forall (fun b => 0 <= b) data -> 0 <= pos ->
  NBTParser.parseString data pos = Err UnexpectedEOF
  \/ exists name pos', NBTParser.parseString data pos = OK (name, pos') /\ pos + 2 <= pos'.
Proof.
  intros Hd Hpos. unfold NBTParser.parseString, NBTParser.readUnsignedInteger.
  destruct (_ <=? pos + 2); [by left|].
  rewrite (proj2 (Z.ltb_ge _ _)) by done. rewrite bind_OK. cbv beta iota.
  destruct (_ <=? _); [by left|]. right. eexists _, _. split; [done|].
  assert (0 <= getUint 2 data pos); [|lia].
  apply be_value_nonneg, Forall_take, Forall_drop, Hd.
Qed.

Lemma parseCompound_unfold data fuel pos items :
  NBTParser.parseCompound data (S fuel) pos items
  = ('(tagId, pos) ← NBTParser.expectByte data None pos;
     if decide (tagId = Some TAG_End) then OK (CompoundTag items, pos)
     else
       '(name, pos) ← NBTParser.parseString data pos;
       '(value, pos) ← NBTParser.parseFromTagType data fuel tagId pos;
       if JsMap.has name items then throw (DuplicateKey name)
       else NBTParser.parseCompound data fuel pos (JsMap.set name value items)).
Proof. reflexivity. Qed.

Lemma parse_bare_root fuel id payload :
  Forall (fun b => 0 <= b) payload ->
  (id, length payload) ∈ [(TAG_Byte, 1%nat); (TAG_Short, 2%nat); (TAG_Int, 4%nat);
                          (TAG_Long, 8%nat); (TAG_Float, 4%nat); (TAG_Double, 8%nat)] ->
  parseNBT (S (S (S fuel))) (TAG_Compound :: encodeString "" ++ id :: payload)
  = Err UnexpectedEOF.
Proof.
  intros Hp Hid.
  set (data := TAG_Compound :: encodeString "" ++ id :: payload).
  assert (length data = (4 + length payload)%nat) as Hlen by done.
  assert (Forall (fun b => 0 <= b) data) as Hd.
  { repeat (constructor; [done|]). constructor; [|done].
    repeat (apply elem_of_cons in Hid as [[= -> _]|Hid]; [done|]).
    by apply elem_of_nil in Hid. }
  rewrite (parse_first_byte data _ TAG_Compound _ eq_refl) by done.
  replace (NBTParser.parseString data 1) with (OK ("", 3) : result (string * Z)).
  2:{ symmetry.
      apply (parseString_seg data 1 ""); [by exists [TAG_Compound], (id :: payload)|done| |done].
      rewrite Hlen. cbn. lia. }
  rewrite bind_OK. cbv beta iota.
  rewrite parseFromTagType_Compound, parseCompound_unfold.
  replace (NBTParser.expectByte data None 3) with (OK (Some id, 4) : result (option Z * Z)).
  2:{ symmetry. apply (expectByte_seg data 3 id). by exists [TAG_Compound; 0; 0], payload. }
  rewrite bind_OK. cbv beta iota.
  rewrite decide_False.
  2:{ intros [= ->]. repeat (apply elem_of_cons in Hid as [[=]|Hid]).
      by apply elem_of_nil in Hid. }
  destruct (parseString_cases data 4 Hd) as [->|(name & pos' & -> & Hpos')];
    [done|done|].
  rewrite bind_OK. cbv beta iota.
  assert (NBTParser.parseFromTagType data (S fuel) (Some id) pos' = Err UnexpectedEOF) as ->;
    [|done].
  repeat (apply elem_of_cons in Hid as [[= -> Hn]|Hid]);
    [..|by apply elem_of_nil in Hid];
    cbn [NBTParser.parseFromTagType];
    rewrite ?decide_False by discriminate; rewrite decide_True by done;
    unfold NBTParser.expectByte, NBTParser.readInteger, NBTParser.readFLoat;
    rewrite Hlen, Hn; by rewrite (proj2 (Z.leb_le _ _)) by lia.
Qed.

(** X6: A root that is a bare number is written by [dump] after the id of a
    Compound and an empty name, but without the name that an entry of that
    Compound would carry; [parseNBT] takes the first bytes of the number for
    that name and then always runs into the end of the input. *)
Theorem number_root_is_unreadable root fuel :
  is_number_tag root ->
  (3 <= fuel)%nat ->
  exists bytes, dump root = OK bytes /\ parseNBT fuel bytes = Err UnexpectedEOF.
Proof.
  intros Hroot Hfuel.
  destruct fuel as [|[|[|fuel]]]; [lia..|].
  exists (TAG_Compound :: encodeString "" ++ getId root :: encodeValue root).
  assert (Forall (fun b => 0 <= b) (encodeValue root)
          /\ (getId root, length (encodeValue root))
             ∈ [(TAG_Byte, 1%nat); (TAG_Short, 2%nat); (TAG_Int, 4%nat);
                (TAG_Long, 8%nat); (TAG_Float, 4%nat); (TAG_Double, 8%nat)])
    as [Hnn Hid].
  { destruct root; try done; cbn [encodeValue getId]; rewrite ?length_be_bytes;
      (split; [first [apply be_bytes_nonneg
                     | constructor; [apply Z.mod_pos_bound; lia|done]]
              | repeat constructor]). }
  split; [|by apply parse_bare_root].
  assert (length (TAG_Compound :: encodeString "" ++ getId root :: encodeValue root) < 256)%nat
    as Hlen.
  { cbn [length]. rewrite length_app. cbn [length].
    assert (length (encodeValue root) <= 8)%nat; [|cbn; lia].
    repeat (apply elem_of_cons in Hid as [[= _ ->]|Hid]; [lia|]).
    by apply elem_of_nil in Hid. }
  destruct root; try done; by apply dump_other_small.
Qed.

Lemma number_root_is_unreadable_witness :
  exists bytes,
    dump (IntTag (ofZ 5)) = OK bytes /\ parseNBT 3 bytes = Err UnexpectedEOF.
Proof. apply (number_root_is_unreadable (IntTag (ofZ 5)) 3); [exact I|lia]. Defined.


(** * The Map of a [CompoundTag] *)

Lemma get_set_other {V} (k k' : string) (v : V) (m : list (string * V)) :
  k' <> k -> JsMap.get k' (JsMap.set k v m) = JsMap.get k' m.
Proof.
  intros Hne. induction m as [|[k0 v0] m IH]; cbn.
  - by rewrite decide_False.
  - case_decide as Hk; cbn.
    + subst k0. by rewrite !decide_False.
    + case_decide; [done|apply IH].
Qed.

Lemma NoDup_keys_set {V} (k : string) (v : V) (m : list (string * V)) :
  NoDup (JsMap.keys m) -> NoDup (JsMap.keys (JsMap.set k v m)).
Proof.
  intros Hm. destruct (decide (k ∈ JsMap.keys m)) as [Hin|Hin].
  - by rewrite keys_set_present.
  - rewrite set_fresh by done. unfold JsMap.keys in *. rewrite fmap_app. cbn.
    apply NoDup_app. split; [done|]. split; [|apply NoDup_singleton].
    intros x Hx ->%list_elem_of_singleton. done.
Qed.

(** X7: [put] then [get]: the name that was put maps to the new tag, every
    other name to what it mapped to before.  [list] keeps its order: a name
    that was present stays where it was, a new name comes last; no name
    is ever listed twice. *)
Theorem compound_put_spec items name tag :
  (forall name',
      compound_get (compound_put items name tag) name'
      = if decide (name' = name) then Some tag else compound_get items name')
  /\ compound_list (compound_put items name tag)
     = (if JsMap.has name items then compound_list items
        else compound_list items ++ [name])
  /\ (NoDup (compound_list items) -> NoDup (compound_list (compound_put items name tag))).
Proof.
  unfold compound_get, compound_put, compound_list. split; [|split].
  - intros name'. case_decide as Hn; [subst; apply get_set|by apply get_set_other].
  - destruct (JsMap.has name items) eqn:Hhas.
    + by apply keys_set_present, has_true.
    + apply has_false in Hhas. rewrite set_fresh by done.
      unfold JsMap.keys. by rewrite fmap_app.
  - apply NoDup_keys_set.
Qed.

Lemma compound_put_spec_witness :
  NoDup (compound_list (compound_put [("a", IntTag (ofZ 1))] "b" (IntTag (ofZ 2)))).
Proof.
  refine (proj2 (proj2 (compound_put_spec [("a", IntTag (ofZ 1))] "b" (IntTag (ofZ 2)))) _).
  apply (bool_decide_unpack _). vm_compute. exact I.
Defined.

Lemma get_delete {V} (k k' : string) (m : list (string * V)) :
  NoDup (JsMap.keys m) ->
  JsMap.get k' (JsMap_delete k m) = if decide (k' = k) then None else JsMap.get k' m.
Proof.
  unfold JsMap.keys. induction m as [|[k0 v0] m IH]; cbn.
  - by case_decide.
  - intros [Hnotin Hm]%NoDup_cons. specialize (IH Hm).
    destruct (decide (k0 = k)) as [->|Hk0].
    + destruct (decide (k' = k)) as [->|Hk'].
      * destruct (JsMap.get k m) eqn:E; [|done].
        exfalso. apply Hnotin. apply has_true. unfold JsMap.has.
        rewrite E. by apply bool_decide_eq_true.
      * by rewrite decide_False.
    + cbn. rewrite IH. destruct (decide (k' = k)) as [->|Hk'].
      * by rewrite decide_False.
      * done.
Qed.

Lemma filter_all {A} (P : A -> Prop) `{!forall x, Decision (P x)} (l : list A) :
  Forall P l -> filter P l = l.
Proof.
  induction 1 as [|x l Hx _ IH]; [done|]. by rewrite filter_cons_True, IH.
Qed.

Lemma keys_delete {V} (k : string) (m : list (string * V)) :
  NoDup (JsMap.keys m) ->
  JsMap.keys (JsMap_delete k m) = filter (fun k' => k' <> k) (JsMap.keys m).
Proof.
  unfold JsMap.keys. induction m as [|[k0 v0] m IH]; [done|].
  cbn [JsMap_delete fmap list_fmap fst].
  intros [Hnotin Hm]%NoDup_cons. specialize (IH Hm). rewrite filter_cons.
  destruct (decide (k0 = k)) as [->|Hk0].
  - rewrite decide_False by (by intros ?).
    symmetry. apply filter_all, Forall_forall. by intros x Hx ->.
  - rewrite decide_True by done. cbn. by rewrite IH.
Qed.

(** X8: [delete], on a Map, which has no key twice: the deleted name maps to
    nothing afterwards, every other name to what it mapped to before, and
    [list] loses that name only. *)
Theorem compound_delete_spec items name :
  NoDup (compound_list items) ->
  (forall name',
      compound_get (compound_delete items name) name'
      = if decide (name' = name) then None else compound_get items name')
  /\ compound_list (compound_delete items name)
     = filter (fun name' => name' <> name) (compound_list items)
  /\ NoDup (compound_list (compound_delete items name)).
Proof.
  unfold compound_get, compound_delete, compound_list. intros Hm.
  split; [|split].
  - intros name'. by apply get_delete.
  - by apply keys_delete.
  - rewrite keys_delete by done. by apply NoDup_filter.
Qed.

Lemma compound_delete_spec_witness :
  compound_list (compound_delete [("a", IntTag (ofZ 1)); ("b", IntTag (ofZ 2))] "a")
  = ["b"].
Proof.
  refine (proj1 (proj2 (compound_delete_spec
                          [("a", IntTag (ofZ 1)); ("b", IntTag (ofZ 2))] "a" _))).
  apply (bool_decide_unpack _). vm_compute. exact I.
Defined.


(** * Further properties of the lexer *)

Lemma numberLoop_bound rest : forall isFloat content pos,
  (pos <= (Lexer.numberLoop rest isFloat content pos).2 <= pos + length rest)%nat.
Proof.
  induction rest as [|c rest IH]; intros isFloat content pos; cbn [Lexer.numberLoop length].
  - cbn. lia.
  - destruct (_ || _); [|cbn; lia].
    specialize (IH (if bool_decide (c = "."%char) then true else isFloat)
                  (content ++ [c]) (S pos)). lia.
Qed.

Lemma identifierLoop_bound rest : forall pos,
  (pos <= Lexer.identifierLoop rest pos <= pos + length rest)%nat.
Proof.
  induction rest as [|c rest IH]; intros pos; cbn [Lexer.identifierLoop length]; [lia|].
  destruct (isIdentifierChar c); [|lia]. specialize (IH (S pos)). lia.
Qed.

Lemma charLoop_bound rest opener : forall content pos content' pos',
  Lexer.charLoop rest opener content pos = OK (content', pos') ->
  (pos <= pos' < pos + length rest)%nat.
Proof.
  induction rest as [rest IH] using (induction_ltof1 _ length).
  unfold ltof in IH. intros content pos content' pos'.
  destruct rest as [|c rest]; [done|]. cbn [Lexer.charLoop length].
  assert ((if bool_decide (c = opener) then OK (content, pos)
           else Lexer.charLoop rest opener (content ++ [c]) (S pos)) = OK (content', pos') ->
          (pos <= pos' < pos + S (length rest))%nat) as Hstep.
  { destruct (bool_decide (c = opener)); [intros [= <- <-]; lia|].
    intros Hr%IH; [lia|cbn; lia]. }
  destruct (bool_decide (c = "\"%char)); [|done].
  destruct rest as [|c1 rest]; [done|].
  destruct (is_quote c1); [|done].
  intros Hr%IH; cbn [length] in *; lia.
Qed.

Lemma nextFrom_bound rest : forall st tok st',
  Lexer.nextFrom rest st = OK (tok, st') ->
  (Lexer.pos st' <= Lexer.pos st + length rest)%nat
  /\ (if decide (kind tok = EOF) then Lexer.pos st' = (Lexer.pos st + length rest)%nat
      else (Lexer.pos st < Lexer.pos st')%nat).
Proof.
  induction rest as [|c rest IH]; intros st tok st'; cbn [Lexer.nextFrom length].
  - intros [= <- <-]. cbn. rewrite decide_True by done. lia.
  - destruct (includes SKIP_CHARS c).
    { intros H%IH. cbn [Lexer.pos] in H. destruct H as [H1 H2]. split; [lia|].
      case_decide; lia. }
    destruct (includes CONSTANT_TOKENS c).
    { intros [= <- <-]. cbn [Lexer.pos kind]. rewrite decide_False by done. lia. }
    destruct (_ && _).
    { intros [= <- <-]. cbn [Lexer.pos kind]. rewrite decide_False by done. lia. }
    destruct (_ || _).
    { pose proof (numberLoop_bound rest false [c] (S (Lexer.pos st))) as Hb.
      destruct (Lexer.numberLoop _ _ _ _) as [content pos']. cbn [snd] in Hb.
      intros [= <- <-]. cbn [Lexer.pos kind]. rewrite decide_False by done. lia. }
    destruct (isIdentifierChar c) eqn:Hid.
    { pose proof (identifierLoop_bound rest (S (Lexer.pos st))) as Hb.
      intros [= <- <-]. cbn [Lexer.identifierLoop Lexer.pos kind]. rewrite Hid.
      rewrite decide_False; [lia|]. by case_match. }
    destruct (is_quote c); [|done].
    destruct (Lexer.charLoop _ _ _ _) as [[content pos']| |] eqn:E; try done.
    apply charLoop_bound in E. intros [= <- <-]. cbn [Lexer.pos kind].
    rewrite decide_False by done. lia.
Qed.

(** X9: The lexer moves forward: from a position within the source, a token
    other than EOF ends strictly after the position it was asked at, and
    never beyond the end of the source; EOF is returned at the end of the
    source only. *)
Theorem lexer_advances source st tok st' :
  (Lexer.pos st <= length source)%nat ->
  Lexer.next source st = OK (tok, st') ->
  (Lexer.pos st' <= length source)%nat
  /\ (if decide (kind tok = EOF) then Lexer.pos st' = length source
      else (Lexer.pos st < Lexer.pos st')%nat).
Proof.
  intros Hpos H. unfold Lexer.next in H. apply nextFrom_bound in H.
  rewrite length_drop in H. destruct H as [H1 H2]. split; [lia|].
  case_decide; lia.
Qed.

Lemma lexer_advances_witness :
  (Lexer.pos (Lexer.mk 4 (-777)) <= length (String.list_ascii_of_string "  ab"))%nat.
Proof.
  refine (proj1 (lexer_advances (String.list_ascii_of_string "  ab") Lexer.new
                   (mkToken STRING "ab") (Lexer.mk 4 (-777)) _ _)).
  - cbn. lia.
  - reflexivity.
Defined.


(** * Numbers as text *)

(** ** Decimal digits *)

Lemma digit_char_is_digit d : 0 <= d < 10 -> is_digit (digit_char d) = true.
Proof.
  intros Hd. unfold is_digit, digit_char.
  rewrite nat_ascii_embedding by lia.
  apply andb_true_iff. split; apply Nat.leb_le; lia.
Qed.

Lemma digit_value_digit_char d : 0 <= d < 10 -> digit_value (digit_char d) = d.
Proof.
  intros Hd. unfold digit_value, digit_char. rewrite nat_ascii_embedding by lia. lia.
Qed.

Lemma low_digits_is_digit k : forall n, Forall (fun c => is_digit c = true) (low_digits k n).
Proof.
  induction k as [|k IH]; intros n; cbn [low_digits]; [done|].
  apply Forall_app. split; [apply IH|]. constructor; [|done].
  apply digit_char_is_digit, Z.mod_pos_bound. lia.
Qed.

Lemma length_low_digits k n : length (low_digits k n) = k.
Proof.
  revert n. induction k as [|k IH]; intros n; cbn [low_digits]; [done|].
  rewrite length_app, IH. cbn. lia.
Qed.

Lemma digits_value_app l1 : forall acc l2,
  digits_value acc (l1 ++ l2)
  = match digits_value acc l1 with Some n => digits_value n l2 | None => None end.
Proof.
  induction l1 as [|c l1 IH]; intros acc l2; cbn [app digits_value]; [done|].
  destruct (is_digit c); [apply IH|done].
Qed.

Lemma digits_value_low_digits k : forall acc n,
  0 <= n ->
  digits_value acc (low_digits k n) = Some (acc * 10 ^ Z.of_nat k + n mod 10 ^ Z.of_nat k).
Proof.
  induction k as [|k IH]; intros acc n Hn; cbn [low_digits].
  - cbn. rewrite Z.mod_1_r. f_equal. lia.
  - rewrite digits_value_app, IH by (apply Z.div_pos; lia).
    cbn [digits_value]. rewrite digit_char_is_digit by (apply Z.mod_pos_bound; lia).
    rewrite digit_value_digit_char by (apply Z.mod_pos_bound; lia).
    f_equal. rewrite Nat2Z.inj_succ, Z.pow_succ_r by lia.
    rewrite Z.rem_mul_r by lia. cbn [digits_value]. lia.
Qed.

Lemma ndigits_go_spec fuel : forall n,
  0 <= n < 2 ^ (Z.of_nat fuel + 1) ->
  n < 10 ^ Z.of_nat (ndigits_go fuel n)
  /\ (0 < n -> 10 ^ (Z.of_nat (ndigits_go fuel n) - 1) <= n)
  /\ (0 < ndigits_go fuel n)%nat.
Proof.
  induction fuel as [|fuel IH]; intros n Hn; cbn [ndigits_go].
  - change (2 ^ (Z.of_nat 0 + 1)) with 2 in Hn. cbn. lia.
  - destruct (n <? 10) eqn:Hlt.
    + apply Z.ltb_lt in Hlt. cbn. lia.
    + apply Z.ltb_ge in Hlt.
      assert (0 <= n / 10 < 2 ^ (Z.of_nat fuel + 1)) as Hq.
      { split; [apply Z.div_pos; lia|].
        apply Z.div_lt_upper_bound; [lia|].
        replace (Z.of_nat (S fuel) + 1) with (Z.succ (Z.of_nat fuel + 1)) in Hn by lia.
        rewrite Z.pow_succ_r in Hn by lia. lia. }
      destruct (IH _ Hq) as (H1 & H2 & H3).
      pose proof (Z.div_mod n 10 ltac:(lia)) as Hdm.
      pose proof (Z.mod_pos_bound n 10 ltac:(lia)) as Hm.
      rewrite Nat2Z.inj_succ, Z.pow_succ_r by lia.
      replace (Z.succ (Z.of_nat (ndigits_go fuel (n / 10))) - 1)
        with (Z.succ (Z.of_nat (ndigits_go fuel (n / 10)) - 1)) by lia.
      rewrite Z.pow_succ_r by lia.
      split; [lia|]. split; [|lia]. intros _.
      assert (0 < n / 10) as Hpos by (apply Z.div_str_pos; lia).
      specialize (H2 Hpos). lia.
Qed.

Lemma ndigits_spec n :
  0 <= n ->
  n < 10 ^ Z.of_nat (ndigits n)
  /\ (0 < n -> 10 ^ (Z.of_nat (ndigits n) - 1) <= n)
  /\ (0 < ndigits n)%nat.
Proof.
  intros Hn. apply ndigits_go_spec.
  destruct (decide (n = 0)) as [->|Hne]; [done|].
  rewrite Z2Nat.id by apply Z.log2_nonneg.
  split; [done|]. rewrite Z.add_1_r. apply Z.log2_spec. lia.
Qed.

Lemma digits_value_digits n : 0 <= n -> digits_value 0 (digits n) = Some n.
Proof.
  intros Hn. unfold digits. rewrite digits_value_low_digits by done.
  rewrite Z.mod_small by (split; [done|apply ndigits_spec; done]). done.
Qed.

Lemma digits_is_digit n : Forall (fun c => is_digit c = true) (digits n).
Proof. apply low_digits_is_digit. Qed.

Lemma digits_nonempty n : 0 <= n -> exists c ds, digits n = c :: ds /\ is_digit c = true.
Proof.
  intros Hn. pose proof (digits_is_digit n) as Hd.
  destruct (digits n) as [|c ds] eqn:E.
  - apply (f_equal length) in E. unfold digits in E. rewrite length_low_digits in E.
    pose proof (ndigits_spec n Hn). cbn in E. lia.
  - exists c, ds. split; [done|]. by inversion Hd.
Qed.

Lemma is_digit_cases c :
  is_digit c = true ->
  c <> "-"%char /\ c <> "+"%char /\ c <> "."%char /\ in_range "0" "9" c = true.
Proof.
  intros H. repeat split; try (intros ->; done). exact H.
Qed.

Lemma chars_str l : String.list_ascii_of_string (str l) = l.
Proof. apply String.list_ascii_of_string_of_list_ascii. Qed.

(** ** [BigInt::toString] is read back by [BigInt] *)

Lemma strip_sign_BigInt_toString z :
  strip_sign (BigInt_toString z) = (z <? 0, digits (Z.abs z)).
Proof.
  unfold BigInt_toString. destruct (z <? 0) eqn:Hz; [done|].
  destruct (digits_nonempty (Z.abs z)) as (c & ds & -> & Hc); [lia|].
  apply is_digit_cases in Hc as (H1 & H2 & _).
  cbn. by rewrite !decide_False.
Qed.

Lemma BigInt_toString_cons z : exists c l, BigInt_toString z = c :: l.
Proof.
  unfold BigInt_toString. destruct (z <? 0); [by eexists _, _|].
  destruct (digits_nonempty (Z.abs z)) as (c & ds & -> & _); [lia|]. by eexists _, _.
Qed.

Lemma BigInt_BigInt_toString z : BigInt (str (BigInt_toString z)) = OK z.
Proof.
  unfold BigInt. rewrite chars_str, strip_sign_BigInt_toString.
  destruct (digits_nonempty (Z.abs z)) as (c & ds & E & _); [lia|].
  pose proof (digits_value_digits (Z.abs z) ltac:(lia)) as Hv.
  rewrite E in *. rewrite Hv. f_equal.
  destruct (z <? 0) eqn:Hz; [apply Z.ltb_lt in Hz|apply Z.ltb_ge in Hz]; lia.
Qed.

(** ** Integers below [2^53] are binary64 values *)

Lemma normalize_pow m k : normalize (m * 10 ^ Z.of_nat k) k = Finite m 0.
Proof.
  induction k as [|k IH]; cbn [normalize].
  - f_equal. cbn. lia.
  - rewrite Nat2Z.inj_succ, Z.pow_succ_r by lia.
    replace (m * (10 * 10 ^ Z.of_nat k)) with (m * 10 ^ Z.of_nat k * 10) by lia.
    rewrite Z.mod_mul, Z.div_mul by lia. cbn. apply IH.
Qed.

Lemma ieee_field_int n :
  0 < n < 2 ^ 53 ->
  ieee_field 52 11 n 1
  = (Z.log2 n + 1022) * 2 ^ 52 + n * 2 ^ (52 - Z.log2 n).
Proof.
  intros Hn. unfold ieee_field.
  rewrite (proj2 (Z.eqb_neq _ _)) by lia.
  pose proof (Z.log2_spec n ltac:(lia)) as Hlog.
  pose proof (Z.log2_nonneg n) as Hl0.
  assert (Z.log2 n < 53) as Hl53 by (apply Z.log2_lt_pow2; lia).
  set (l := Z.log2 n) in *.
  change (Z.log2 1) with 0. rewrite Z.sub_0_r.
  rewrite (proj2 (Z.leb_le 0 l)) by lia.
  rewrite Z.mul_1_l, (proj2 (Z.leb_le _ _)) by lia.
  change (qmin 52 11) with (-1074). change (exp_ones 11) with 2047.
  rewrite (Z.max_l (l - 52)) by lia.
  assert (2 ^ 52 <= n * 2 ^ (52 - l) < 2 ^ 53) as HM.
  { replace (2 ^ 52) with (2 ^ l * 2 ^ (52 - l))
      by (rewrite <- Z.pow_add_r by lia; f_equal; lia).
    replace (2 ^ 53) with (2 ^ Z.succ l * 2 ^ (52 - l))
      by (rewrite <- Z.pow_add_r by lia; f_equal; lia).
    assert (0 < 2 ^ (52 - l)) by (apply Z.pow_pos_nonneg; lia). nia. }
  assert ((if 0 <=? l - 52 then round_half_even n (1 * 2 ^ (l - 52))
           else round_half_even (n * 2 ^ (- (l - 52))) 1) = n * 2 ^ (52 - l)) as ->.
  { destruct (0 <=? l - 52) eqn:Hq.
    - apply Z.leb_le in Hq. replace (l - 52) with 0 by lia.
      replace (52 - l) with 0 by lia. unfold round_half_even.
      change (1 * 2 ^ 0) with 1. rewrite Z.mod_1_r, Z.div_1_r.
      change (2 * 0 <? 1) with true. cbv iota. change (2 ^ 0) with 1. lia.
    - unfold round_half_even. rewrite Z.mod_1_r, Z.div_1_r.
      change (2 * 0 <? 1) with true. cbv iota. do 2 f_equal. lia. }
  rewrite Z.min_l; [lia|].
  change (2047 * 2 ^ 52) with 9218868437227405312.
  change (2 ^ 53) with 9007199254740992 in HM.
  change (2 ^ 52) with 4503599627370496 in *. lia.
Qed.

Lemma to_double_int z : Z.abs z < 2 ^ 53 -> to_double (Finite z 0) = Finite z 0.
Proof.
  intros Hz. destruct (decide (z = 0)) as [->|Hne]; [by vm_compute|].
  unfold to_double, f64_bits, f64_value, ieee_bits.
  change (10 ^ Z.of_nat 0) with 1. rewrite ieee_field_int by lia.
  pose proof (Z.log2_spec (Z.abs z) ltac:(lia)) as Hlog.
  pose proof (Z.log2_nonneg (Z.abs z)) as Hl0.
  assert (Z.log2 (Z.abs z) < 53) as Hl53 by (apply Z.log2_lt_pow2; lia).
  set (l := Z.log2 (Z.abs z)) in *.
  assert (2 ^ 52 <= Z.abs z * 2 ^ (52 - l) < 2 ^ 53) as HM.
  { replace (2 ^ 52) with (2 ^ l * 2 ^ (52 - l))
      by (rewrite <- Z.pow_add_r by lia; f_equal; lia).
    replace (2 ^ 53) with (2 ^ Z.succ l * 2 ^ (52 - l))
      by (rewrite <- Z.pow_add_r by lia; f_equal; lia).
    assert (0 < 2 ^ (52 - l)) by (apply Z.pow_pos_nonneg; lia). nia. }
  set (M := Z.abs z * 2 ^ (52 - l)) in *.
  set (s := if z <? 0 then 1 else 0).
  assert ((if z <? 0 then 2 ^ (52 + 11) else 0) = s * 2 ^ 63) as ->
    by (unfold s; by destruct (z <? 0)).
  assert (0 <= s <= 1) as Hs by (unfold s; destruct (z <? 0); lia).
  change (2 ^ 53) with 9007199254740992 in HM.
  change (2 ^ 52) with 4503599627370496 in *.
  change (2 ^ 63) with 9223372036854775808.
  set (bits := s * 9223372036854775808 + ((l + 1022) * 4503599627370496 + M)).
  unfold ieee_value.
  change (2 ^ (52 + 11)) with 9223372036854775808.
  change (2 ^ 52) with 4503599627370496. change (2 ^ 11) with 2048.
  change (exp_ones 11) with 2047. change (qmin 52 11) with (-1074).
  assert (bits / 9223372036854775808 = s) as ->.
  { symmetry. apply (Z.div_unique _ _ _ ((l + 1022) * 4503599627370496 + M)); [|unfold bits]; lia. }
  assert (bits / 4503599627370496 = s * 2048 + (l + 1023)) as ->.
  { symmetry. apply (Z.div_unique _ _ _ (M - 4503599627370496)); [|unfold bits]; lia. }
  assert (bits mod 4503599627370496 = M - 4503599627370496) as ->.
  { symmetry. apply (Z.mod_unique _ _ (s * 2048 + (l + 1023))); [|unfold bits]; lia. }
  assert ((s * 2048 + (l + 1023)) mod 2048 = l + 1023) as ->.
  { symmetry. apply (Z.mod_unique _ _ s); lia. }
  rewrite (proj2 (Z.eqb_neq _ 2047)) by lia.
  rewrite (proj2 (Z.eqb_neq _ 0)) by lia.
  replace (4503599627370496 + (M - 4503599627370496)) with M by lia.
  replace (l + 1023 - 1 + -1074) with (l - 52) by lia.
  assert (Z.odd s = (z <? 0)) as -> by (unfold s; by destruct (z <? 0)).
  unfold dyadic.
  assert ((if z <? 0 then -1 else 1) * Z.abs z = z) as Hsign.
  { destruct (z <? 0) eqn:E; [apply Z.ltb_lt in E|apply Z.ltb_ge in E]; lia. }
  destruct (0 <=? l - 52) eqn:Hq.
  - apply Z.leb_le in Hq. f_equal. unfold M.
    replace (52 - l) with 0 by lia. replace (l - 52) with 0 by lia.
    change (2 ^ 0) with 1. lia.
  - apply Z.leb_gt in Hq.
    replace (- (l - 52)) with (52 - l) by lia.
    replace ((if z <? 0 then -1 else 1) * M * 5 ^ (52 - l))
      with (z * 10 ^ Z.of_nat (Z.to_nat (52 - l))).
    + apply normalize_pow.
    + rewrite Z2Nat.id by lia. unfold M.
      change 10 with (2 * 5). rewrite Z.pow_mul_l. rewrite <- Hsign at 1. lia.
Qed.

(** ** [Number] reads the decimal digits of an integer back *)

Lemma split_dot_digits l :
  Forall (fun c => is_digit c = true) l -> split_dot l = (l, None).
Proof.
  induction 1 as [|c l Hc _ IH]; cbn [split_dot]; [done|].
  apply is_digit_cases in Hc as (_ & _ & Hdot & _).
  rewrite decide_False by done. by rewrite IH.
Qed.

Lemma Number_BigInt_toString z :
  Z.abs z < 2 ^ 53 -> Number (str (BigInt_toString z)) = ofZ z.
Proof.
  intros Hz. unfold Number. rewrite chars_str, strip_sign_BigInt_toString.
  rewrite split_dot_digits by apply digits_is_digit.
  cbn [default]. rewrite app_nil_r.
  destruct (digits_nonempty (Z.abs z)) as (c & ds & E & _); [lia|].
  pose proof (digits_value_digits (Z.abs z) ltac:(lia)) as Hv.
  rewrite E in *. rewrite Hv. cbn [length normalize].
  replace (if z <? 0 then - Z.abs z else Z.abs z) with z.
  - by apply to_double_int.
  - destruct (z <? 0) eqn:Hneg; [apply Z.ltb_lt in Hneg|apply Z.ltb_ge in Hneg]; lia.
Qed.

Lemma no_dot_BigInt_toString z : "."%char ∉ BigInt_toString z.
Proof.
  unfold BigInt_toString. intros [H|H]%elem_of_app.
  - destruct (z <? 0); [|by apply elem_of_nil in H].
    by apply list_elem_of_singleton in H.
  - pose proof (digits_is_digit (Z.abs z)) as Hd.
    rewrite Forall_forall in Hd. by apply Hd in H.
Qed.

(** ** [Number::toString] on an integer *)

Lemma shortest_int j : forall m,
  0 < m -> m + 10 ^ Z.of_nat j < 2 ^ 53 -> shortest j m 0 = m.
Proof.
  induction j as [|j IH]; intros m Hm Hb; [done|].
  cbn [shortest]. cbv zeta. cbn [normalize].
  set (p := 10 ^ Z.of_nat (S j)) in *.
  assert (0 < p) as Hp by (apply Z.pow_pos_nonneg; lia).
  pose proof (Z.div_mod m p ltac:(lia)) as Hdm.
  pose proof (Z.mod_pos_bound m p Hp) as Hmod.
  assert (0 <= m / p) as Hq by (apply Z.div_pos; lia).
  assert (0 <= m / p * p <= m) as Hlo by nia.
  rewrite !to_double_int by lia.
  rewrite (bool_decide_eq_false_2 (Finite (m / p * p + p) 0 = Finite m 0))
    by (intros [=]; lia).
  case_bool_decide as Hok; [by injection Hok|].
  apply IH; [done|].
  assert (10 ^ Z.of_nat j <= p); [|lia].
  unfold p. apply Z.pow_le_mono_r; lia.
Qed.

Lemma strip_zeros_spec l :
  strip_zeros l ++ replicate (length l - length (strip_zeros l)) "0"%char = l
  /\ (length (strip_zeros l) <= length l)%nat.
Proof.
  induction l as [|d l [IH1 IH2]]; [done|]. cbn [strip_zeros].
  destruct (strip_zeros l) as [|r rs] eqn:E.
  - cbn [app length] in IH1. rewrite Nat.sub_0_r in IH1.
    case_bool_decide as Hd.
    + subst d. cbn [length app]. split; [|lia]. cbn. by rewrite IH1.
    + cbn [length app]. split; [|lia].
      replace (S (length l) - 1)%nat with (length l) by lia. by rewrite IH1.
  - cbn [length app] in *. split; [|lia]. f_equal.
    replace (S (length l) - S (S (length rs)))%nat with (length l - S (length rs))%nat
      by lia.
    exact IH1.
Qed.

Lemma Number_toString_int z :
  Z.abs z < 10 ^ 15 -> Number_toString (ofZ z) = BigInt_toString z.
Proof.
  intros Hz. unfold Number_toString, ofZ, BigInt_toString.
  destruct (z =? 0) eqn:Hz0.
  { apply Z.eqb_eq in Hz0. by subst z. }
  apply Z.eqb_neq in Hz0. f_equal.
  assert (0 < Z.abs z) as Hpos by lia.
  destruct (ndigits_spec (Z.abs z) ltac:(lia)) as (Hub & Hlb & Hnz).
  specialize (Hlb Hpos).
  assert (Z.of_nat (ndigits (Z.abs z)) - 1 < 15) as Hnd.
  { apply (Z.pow_lt_mono_r_iff 10); lia. }
  rewrite shortest_int; [|done|].
  2:{ replace (Z.of_nat (ndigits (Z.abs z) - 1)) with (Z.of_nat (ndigits (Z.abs z)) - 1) by lia.
      change (2 ^ 53) with 9007199254740992.
      change (10 ^ 15) with 1000000000000000 in Hz. lia. }
  change (Z.of_nat 0) with 0. rewrite Z.sub_0_r.
  destruct (strip_zeros_spec (digits (Z.abs z))) as [Hs1 Hs2].
  assert (length (digits (Z.abs z)) = ndigits (Z.abs z)) as Hlen
    by apply length_low_digits.
  rewrite Hlen in Hs1, Hs2.
  unfold format_digits.
  rewrite (proj2 (Z.leb_le _ _)) by lia.
  rewrite (proj2 (Z.leb_le _ 21)) by lia. cbn [andb].
  rewrite <- Hs1 at 3. do 2 f_equal. lia.
Qed.


(** * Reading a printed tag back *)

(** ** The parser on a stream of tokens *)

Section OnTokens.
Variable source : list ascii.

Lemma sees_cons st tok toks lxE :
  sees source st (tok :: toks) lxE ->
  exists lx, st = SNBTParser.mk lx tok /\ stream source lx toks lxE.
Proof.
  intros (rest & [= -> ->] & Hs). destruct st as [lx cur]. by exists lx.
Qed.

Lemma sees_intro lx tok toks lxE :
  stream source lx toks lxE -> sees source (SNBTParser.mk lx tok) (tok :: toks) lxE.
Proof. intros Hs. by exists toks. Qed.

Lemma stream_cons_inv lx tok toks lxE :
  stream source lx (tok :: toks) lxE ->
  exists lx1, Lexer.next source lx = OK (tok, lx1) /\ stream source lx1 toks lxE.
Proof. inversion 1; subst. by eexists. Qed.

(** [eat] hands over the token that the parser holds and takes the next
    one from the stream. *)
Lemma eat_sees kind' value' lx tok t1 toks lxE :
  SNBTParser.matches kind' value' (SNBTParser.mk lx tok) = true ->
  stream source lx (t1 :: toks) lxE ->
  exists lx1,
    SNBTParser.eat source kind' value' (SNBTParser.mk lx tok)
    = OK (tok, SNBTParser.mk lx1 t1)
    /\ stream source lx1 toks lxE.
Proof.
  intros Hm (lx1 & Hn & Hs)%stream_cons_inv. exists lx1. split; [|done].
  by apply eat_OK.
Qed.

Lemma matches_kind kind' lx k v :
  SNBTParser.matches kind' None (SNBTParser.mk lx (mkToken k v))
  = bool_decide (k = kind').
Proof. unfold SNBTParser.matches. cbn. by rewrite andb_true_r. Qed.

Lemma matches_other kind' value' lx k v :
  k <> kind' ->
  SNBTParser.matches kind' value' (SNBTParser.mk lx (mkToken k v)) = false.
Proof. intros Hk. unfold SNBTParser.matches. cbn. by rewrite bool_decide_false. Qed.

Lemma parseNumber_plain text lx nxt toks lxE :
  stream source lx (nxt :: toks) lxE ->
  kind nxt <> SUFFIX ->
  exists lx1,
    SNBTParser.parseNumber source (SNBTParser.mk lx (mkToken NUMBER (str text)))
    = OK (if bool_decide ("."%char ∈ text) then FloatTag (Number (str text))
          else IntTag (Number (str text)),
          SNBTParser.mk lx1 nxt)
    /\ stream source lx1 toks lxE.
Proof.
  intros Hs Hk. unfold SNBTParser.parseNumber.
  destruct (eat_sees NUMBER None lx (mkToken NUMBER (str text)) nxt toks lxE)
    as (lx1 & -> & Hs1); [by rewrite matches_kind|done|].
  exists lx1. split; [|done]. rewrite bind_OK. cbv beta iota.
  destruct nxt as [k v]. rewrite matches_kind. cbn [kind] in Hk.
  rewrite bool_decide_false by done. cbn [negb value].
  rewrite chars_str. by case_bool_decide.
Qed.

Lemma parseNumber_suffixed text c lx nxt toks lxE :
  stream source lx (mkToken SUFFIX (str [c]) :: nxt :: toks) lxE ->
  c ∈ ["b"; "s"; "l"; "f"; "d"]%char ->
  exists lx2,
    SNBTParser.parseNumber source (SNBTParser.mk lx (mkToken NUMBER (str text)))
    = (if bool_decide (c = "b"%char) then OK (ByteTag (Number (str text)), SNBTParser.mk lx2 nxt)
       else if bool_decide (c = "s"%char) then OK (ShortTag (Number (str text)), SNBTParser.mk lx2 nxt)
       else if bool_decide (c = "l"%char) then
         z ← BigInt (str text); OK (LongTag z, SNBTParser.mk lx2 nxt)
       else if bool_decide (c = "f"%char) then OK (FloatTag (Number (str text)), SNBTParser.mk lx2 nxt)
       else OK (DoubleTag (Number (str text)), SNBTParser.mk lx2 nxt))
    /\ stream source lx2 toks lxE.
Proof.
  intros Hs Hc. unfold SNBTParser.parseNumber.
  destruct (eat_sees NUMBER None lx (mkToken NUMBER (str text)) _ _ lxE
              ltac:(by rewrite matches_kind) Hs) as (lx1 & -> & Hs1).
  rewrite bind_OK. cbv beta iota. rewrite matches_kind.
  rewrite bool_decide_true by done. cbn [negb].
  destruct (eat_sees SUFFIX None lx1 (mkToken SUFFIX (str [c])) _ _ lxE
              ltac:(by rewrite matches_kind) Hs1) as (lx2 & -> & Hs2).
  exists lx2. split; [|done]. rewrite bind_OK. cbv beta iota zeta. cbn [value].
  repeat (apply elem_of_cons in Hc as [->|Hc]; [reflexivity|]).
  by apply elem_of_nil in Hc.
Qed.

Lemma eatNumberSuffixes_plain text suffixes lx nxt toks lxE :
  "."%char ∉ text ->
  "i" ∈ suffixes ->
  stream source lx (nxt :: toks) lxE ->
  kind nxt <> SUFFIX ->
  exists lx1,
    SNBTParser.eatNumberSuffixes source "int" suffixes
      (SNBTParser.mk lx (mkToken NUMBER (str text)))
    = OK (str text, SNBTParser.mk lx1 nxt)
    /\ stream source lx1 toks lxE.
Proof.
  intros Hdot Hi Hs Hk. unfold SNBTParser.eatNumberSuffixes.
  rewrite matches_kind, bool_decide_false by done.
  destruct (eat_sees NUMBER None lx (mkToken NUMBER (str text)) _ _ lxE
              ltac:(by rewrite matches_kind) Hs) as (lx1 & -> & Hs1).
  exists lx1. split; [|done]. rewrite bind_OK. cbv beta iota zeta. cbn [value].
  rewrite chars_str, (bool_decide_false _ Hdot), andb_false_r.
  rewrite (bool_decide_false ("int" = "float")) by done. cbn [andb].
  destruct nxt as [k v]. rewrite matches_kind. cbn [kind] in Hk.
  rewrite bool_decide_false by done. cbn [negb]. rewrite bind_OK. cbv beta iota.
  by rewrite bool_decide_true.
Qed.

Lemma eatNumberSuffixes_suffixed text c suffixes lx nxt toks lxE :
  "."%char ∉ text ->
  str [c] ∈ suffixes ->
  stream source lx (mkToken SUFFIX (str [c]) :: nxt :: toks) lxE ->
  exists lx2,
    SNBTParser.eatNumberSuffixes source "int" suffixes
      (SNBTParser.mk lx (mkToken NUMBER (str text)))
    = OK (str text, SNBTParser.mk lx2 nxt)
    /\ stream source lx2 toks lxE.
Proof.
  intros Hdot Hc Hs. unfold SNBTParser.eatNumberSuffixes.
  rewrite matches_kind, bool_decide_false by done.
  destruct (eat_sees NUMBER None lx (mkToken NUMBER (str text)) _ _ lxE
              ltac:(by rewrite matches_kind) Hs) as (lx1 & -> & Hs1).
  rewrite bind_OK. cbv beta iota zeta. cbn [value].
  rewrite chars_str, (bool_decide_false _ Hdot), andb_false_r.
  rewrite (bool_decide_false ("int" = "float")) by done. cbn [andb].
  rewrite matches_kind, bool_decide_true by done. cbn [negb].
  destruct (eat_sees SUFFIX None lx1 (mkToken SUFFIX (str [c])) _ _ lxE
              ltac:(by rewrite matches_kind) Hs1) as (lx2 & -> & Hs2).
  exists lx2. split; [|done]. rewrite !bind_OK. cbv beta iota. cbn [value].
  by rewrite bool_decide_true.
Qed.

(** ** The loop of a list *)

Lemma parseListLoop_unfold fuel arrayType first items st :
  SNBTParser.parseListLoop source (S fuel) arrayType first items st
  = (if SNBTParser.matches DELIMITER (Some "]") st then OK (items, st)
     else
       '(_, st) ← (if negb first then SNBTParser.eat source DELIMITER (Some ",") st
                    else OK (SNBTParser.current st, st));
       '(item, st) ←
         (if bool_decide (arrayType = Some "B") then
            '(text, st) ← SNBTParser.eatNumberSuffixes source "int" ["b"; "B"] st;
            OK (SNBTParser.ENumber (Number text), st)
          else if bool_decide (arrayType = Some "I") then
            '(text, st) ←
              SNBTParser.eatNumberSuffixes source "int" ["b"; "B"; "s"; "S"; "i"; "I"] st;
            OK (SNBTParser.ENumber (Number text), st)
          else if bool_decide (arrayType = Some "L") then
            '(text, st) ←
              SNBTParser.eatNumberSuffixes source "int"
                ["b"; "B"; "s"; "S"; "i"; "I"; "l"; "L"] st;
            z ← BigInt text; OK (SNBTParser.EBigInt z, st)
          else '(tag, st) ← SNBTParser.parseItem source fuel st;
               OK (SNBTParser.ETag tag, st));
       SNBTParser.parseListLoop source fuel arrayType false (items ++ [item]) st).
Proof. reflexivity. Qed.

Lemma follows_separated (items : list (list Token)) toks :
  follows (separated false items ++ delimiter "]" :: toks).
Proof. destruct items; cbn; done. Qed.

Lemma parseListLoop_items {A} (elem : A -> list Token) (res : A -> SNBTParser.element)
    (need : A -> nat) arrayType (items : list A) :
  Forall (fun x =>
    (exists tok rest,
        elem x = tok :: rest
        /\ forall lx, SNBTParser.matches DELIMITER (Some "]") (SNBTParser.mk lx tok) = false)
    /\ forall fuel st toks lxE,
         (need x <= fuel)%nat ->
         sees source st (elem x ++ toks) lxE ->
         follows toks ->
         exists st',
           (if bool_decide (arrayType = Some "B") then
              '(text, st) ← SNBTParser.eatNumberSuffixes source "int" ["b"; "B"] st;
              OK (SNBTParser.ENumber (Number text), st)
            else if bool_decide (arrayType = Some "I") then
              '(text, st) ←
                SNBTParser.eatNumberSuffixes source "int"
                  ["b"; "B"; "s"; "S"; "i"; "I"] st;
              OK (SNBTParser.ENumber (Number text), st)
            else if bool_decide (arrayType = Some "L") then
              '(text, st) ←
                SNBTParser.eatNumberSuffixes source "int"
                  ["b"; "B"; "s"; "S"; "i"; "I"; "l"; "L"] st;
              z ← BigInt text; OK (SNBTParser.EBigInt z, st)
            else '(tag, st) ← SNBTParser.parseItem source fuel st;
                 OK (SNBTParser.ETag tag, st))
           = OK (res x, st')
           /\ sees source st' toks lxE) items ->
  forall fuel first acc st toks lxE,
    (length items + foldr Nat.max 0%nat (need <$> items) < fuel)%nat ->
    sees source st (separated first (elem <$> items) ++ delimiter "]" :: toks) lxE ->
    exists st',
      SNBTParser.parseListLoop source fuel arrayType first acc st
      = OK (acc ++ (res <$> items), st')
      /\ sees source st' (delimiter "]" :: toks) lxE.
Proof.
  induction 1 as [|x items [(tok & rest & Hx & Htok) Hstep] _ IH];
    intros fuel first acc st toks lxE Hfuel Hsees.
  - destruct fuel as [|fuel]; [cbn in Hfuel; lia|].
    cbn [separated fmap list_fmap app] in Hsees.
    destruct (sees_cons _ _ _ _ Hsees) as (lx & -> & Hs).
    rewrite parseListLoop_unfold. exists (SNBTParser.mk lx (delimiter "]")).
    split; [|done]. cbn [fmap list_fmap]. by rewrite app_nil_r.
  - destruct fuel as [|fuel]; [cbn in Hfuel; lia|].
    cbn [length fmap list_fmap foldr] in Hfuel.
    cbn [separated fmap list_fmap] in Hsees. rewrite <- !app_assoc in Hsees.
    assert (follows (separated false (elem <$> items) ++ delimiter "]" :: toks)) as Hfol
      by apply follows_separated.
    assert (exists st1,
               SNBTParser.parseListLoop source (S fuel) arrayType first acc st
               = SNBTParser.parseListLoop source (S fuel) arrayType true acc st1
               /\ sees source st1
                    (elem x ++ separated false (elem <$> items) ++ delimiter "]" :: toks) lxE)
      as (st1 & -> & Hsees1).
    { destruct first; [by exists st|].
      cbn [app] in Hsees. destruct (sees_cons _ _ _ _ Hsees) as (lx & -> & Hs).
      rewrite Hx in Hs. cbn [app] in Hs.
      destruct (eat_sees DELIMITER (Some ",") lx (delimiter ",") _ _ lxE eq_refl Hs)
        as (lx1 & Heat & Hs1).
      exists (SNBTParser.mk lx1 tok). split.
      - rewrite !parseListLoop_unfold.
        change (SNBTParser.matches DELIMITER (Some "]") (SNBTParser.mk lx (delimiter ",")))
          with false.
        cbv iota. cbn [negb]. rewrite Heat, bind_OK. cbv beta iota.
        rewrite Htok. cbn [negb]. by rewrite bind_OK.
      - rewrite Hx. by apply sees_intro. }
    rewrite parseListLoop_unfold.
    pose proof Hsees1 as Hsees1'. rewrite Hx in Hsees1'. cbn [app] in Hsees1'.
    destruct (sees_cons _ _ _ _ Hsees1') as (lx & -> & _).
    rewrite Htok. cbn [negb]. rewrite bind_OK. cbv beta iota.
    destruct (Hstep fuel _ _ lxE ltac:(lia) Hsees1 Hfol) as (st2 & -> & Hsees2).
    rewrite bind_OK. cbv beta iota.
    destruct (IH fuel false (acc ++ [res x]) st2 toks lxE ltac:(lia) Hsees2)
      as (st3 & -> & Hsees3).
    exists st3. split; [|done]. cbn [fmap list_fmap]. by rewrite <- app_assoc.
Qed.

(** ** The loop of a Compound *)

Lemma parseCompoundLoop_unfold fuel first items st :
  SNBTParser.parseCompoundLoop source (S fuel) first items st
  = (if SNBTParser.matches DELIMITER (Some "}") st then OK (items, st)
     else
       '(_, st) ← (if negb first then SNBTParser.eat source DELIMITER (Some ",") st
                    else OK (SNBTParser.current st, st));
       '(key, st) ← SNBTParser.eat source STRING None st;
       '(_, st) ← SNBTParser.eat source DELIMITER (Some ":") st;
       '(value', st) ← SNBTParser.parseItem source fuel st;
       SNBTParser.parseCompoundLoop source fuel false
         (JsMap.set (value key) value' items) st).
Proof. reflexivity. Qed.

Lemma follows_separated_brace (items : list (list Token)) toks :
  follows (separated false items ++ delimiter "}" :: toks).
Proof. destruct items; cbn; done. Qed.

Lemma parseCompoundLoop_repeated (items : list (string * Tag)) :
  Forall (fun kv =>
    forall fuel st toks lxE,
      (text_fuel kv.2 <= fuel)%nat ->
      sees source st (tokens kv.2 ++ toks) lxE ->
      follows toks ->
      exists st',
        SNBTParser.parseItem source fuel st = OK (kv.2, st')
        /\ sees source st' toks lxE) items ->
  forall fuel first acc st toks lxE,
    (length items + foldr Nat.max 0%nat ((fun '(_, v) => text_fuel v) <$> items) < fuel)%nat ->
    sees source st
      (separated first
         ((fun '(key, value) => mkToken STRING key :: delimiter ":" :: tokens value)
            <$> items)
       ++ delimiter "}" :: toks) lxE ->
    exists st',
      SNBTParser.parseCompoundLoop source fuel first acc st = OK (set_all items acc, st')
      /\ sees source st' (delimiter "}" :: toks) lxE.
Proof.
  induction 1 as [|[k v] items Hstep _ IH];
    intros fuel first acc st toks lxE Hfuel Hsees.
  - destruct fuel as [|fuel]; [cbn in Hfuel; lia|].
    cbn [separated fmap list_fmap app] in Hsees.
    destruct (sees_cons _ _ _ _ Hsees) as (lx & -> & Hs).
    rewrite parseCompoundLoop_unfold. exists (SNBTParser.mk lx (delimiter "}")).
    split; [|done]. done.
  - destruct fuel as [|fuel]; [cbn in Hfuel; lia|].
    cbn [length fmap list_fmap foldr] in Hfuel. cbn [snd] in Hstep.
    cbn [separated fmap list_fmap] in Hsees. rewrite <- !app_assoc in Hsees.
    cbn [app] in Hsees.
    set (entries := (fun '(key, value) => mkToken STRING key :: delimiter ":" :: tokens value)
                      <$> items) in *.
    assert (follows (separated false entries ++ delimiter "}" :: toks)) as Hfol
      by apply follows_separated_brace.
    assert (exists lx,
               SNBTParser.parseCompoundLoop source (S fuel) first acc st
               = SNBTParser.parseCompoundLoop source (S fuel) true acc
                   (SNBTParser.mk lx (mkToken STRING k))
               /\ stream source lx
                    (delimiter ":" :: tokens v
                     ++ separated false entries ++ delimiter "}" :: toks) lxE)
      as (lx & -> & Hs).
    { destruct first.
      - destruct (sees_cons _ _ _ _ Hsees) as (lx & -> & Hs). by exists lx.
      - cbn [app] in Hsees. destruct (sees_cons _ _ _ _ Hsees) as (lx & -> & Hs).
        destruct (eat_sees DELIMITER (Some ",") lx (delimiter ",") _ _ lxE eq_refl Hs)
          as (lx1 & Heat & Hs1).
        exists lx1. split; [|done].
        rewrite !parseCompoundLoop_unfold.
        change (SNBTParser.matches DELIMITER (Some "}") (SNBTParser.mk lx (delimiter ",")))
          with false.
        cbv iota. cbn [negb]. rewrite Heat, bind_OK. cbv beta iota.
        rewrite matches_other by done. cbn [negb].
        by rewrite bind_OK. }
    rewrite parseCompoundLoop_unfold.
    rewrite matches_other by done.
    cbn [negb]. rewrite bind_OK. cbv beta iota.
    destruct (eat_sees STRING None lx (mkToken STRING k) _ _ lxE
                ltac:(by rewrite matches_kind) Hs) as (lx1 & -> & Hs1).
    rewrite bind_OK. cbv beta iota.
    destruct (tokens v ++ separated false entries ++ delimiter "}" :: toks)
      as [|t1 more] eqn:Hmore.
    { apply (f_equal length) in Hmore. rewrite !length_app in Hmore.
      cbn [length] in Hmore. lia. }
    destruct (eat_sees DELIMITER (Some ":") lx1 (delimiter ":") _ _ lxE eq_refl Hs1)
      as (lx2 & -> & Hs2).
    rewrite bind_OK. cbv beta iota.
    destruct (Hstep fuel (SNBTParser.mk lx2 t1)
                (separated false entries ++ delimiter "}" :: toks) lxE)
      as (st3 & -> & Hsees3); [lia|rewrite Hmore; by apply sees_intro|done|].
    rewrite bind_OK. cbv beta iota. cbn [value].
    destruct (IH fuel false (JsMap.set k v acc) st3 toks lxE) as (st4 & -> & Hsees4);
      [lia|done|].
    exists st4. split; [|done]. done.
Qed.

Lemma set_all_fresh {V} (items acc : list (string * V)) :
  NoDup (acc.*1 ++ items.*1) -> set_all items acc = acc ++ items.
Proof.
  revert acc. induction items as [|[k v] items IH]; intros acc Hnd.
  - by rewrite app_nil_r.
  - cbn [set_all foldl]. fold (set_all items (JsMap.set k v acc)).
    cbn [fmap list_fmap fst] in Hnd.
    assert (k ∉ JsMap.keys acc) as Hk.
    { apply NoDup_app in Hnd as (_ & Hdis & _). intros Hin.
      apply (Hdis k Hin). apply list_elem_of_here. }
    rewrite set_fresh by done. rewrite IH; [by rewrite <- app_assoc|].
    rewrite fmap_app. cbn [fmap list_fmap fst]. by rewrite <- app_assoc.
Qed.

Lemma parseCompoundLoop_entries (items : list (string * Tag)) :
  Forall (fun kv =>
    forall fuel st toks lxE,
      (text_fuel kv.2 <= fuel)%nat ->
      sees source st (tokens kv.2 ++ toks) lxE ->
      follows toks ->
      exists st',
        SNBTParser.parseItem source fuel st = OK (kv.2, st')
        /\ sees source st' toks lxE) items ->
  forall fuel first acc st toks lxE,
    NoDup (acc.*1 ++ items.*1) ->
    (length items + foldr Nat.max 0%nat ((fun '(_, v) => text_fuel v) <$> items) < fuel)%nat ->
    sees source st
      (separated first
         ((fun '(key, value) => mkToken STRING key :: delimiter ":" :: tokens value)
            <$> items)
       ++ delimiter "}" :: toks) lxE ->
    exists st',
      SNBTParser.parseCompoundLoop source fuel first acc st = OK (acc ++ items, st')
      /\ sees source st' (delimiter "}" :: toks) lxE.
Proof.
  intros Hitems fuel first acc st toks lxE Hnd Hfuel Hsees.
  rewrite <- (set_all_fresh items acc Hnd).
  by apply (parseCompoundLoop_repeated items Hitems fuel first acc st toks lxE).
Qed.

(** ** One tag *)

Lemma printable_number_spec v :
  printable_number v = true ->
  exists z, v = ofZ z /\ Z.abs z < 10 ^ 15
            /\ Number_toString v = BigInt_toString z
            /\ Number (str (BigInt_toString z)) = ofZ z.
Proof.
  intros (z & -> & Hz)%is_int_spec. exists z.
  assert (Z.abs z < 10 ^ 15) as Habs by lia.
  repeat split; [done|by apply Number_toString_int|].
  apply Number_BigInt_toString.
  change (10 ^ 15) with 1000000000000000 in Habs.
  change (2 ^ 53) with 9007199254740992. lia.
Qed.

Lemma follows_cons toks : follows toks -> exists nxt more, toks = nxt :: more /\ kind nxt <> SUFFIX.
Proof. destruct toks as [|nxt more]; [done|]. intros H. by exists nxt, more. Qed.

Lemma parseItem_suffixed_number fuel st toks lxE v c (tag : number -> Tag) :
  printable_number v = true ->
  (c, tag) ∈ [("b"%char, ByteTag); ("s"%char, ShortTag); ("f"%char, FloatTag);
               ("d"%char, DoubleTag)] ->
  sees source st (number_tokens (Number_toString v) (Some c) ++ toks) lxE ->
  follows toks ->
  exists st',
    SNBTParser.parseItem source (S fuel) st = OK (tag v, st') /\ sees source st' toks lxE.
Proof.
  intros (z & -> & _ & -> & Hnum)%printable_number_spec Hc Hsees
    (nxt & more & -> & Hk)%follows_cons.
  cbn [number_tokens app] in Hsees.
  destruct (sees_cons _ _ _ _ Hsees) as (lx & -> & Hs).
  rewrite parseItem_number by (by rewrite matches_kind).
  destruct (parseNumber_suffixed (BigInt_toString z) c lx nxt more lxE Hs)
    as (lx2 & -> & Hs2).
  { repeat (apply elem_of_cons in Hc as [[= -> _]|Hc]; [repeat constructor|]).
    by apply elem_of_nil in Hc. }
  exists (SNBTParser.mk lx2 nxt). split; [|by apply sees_intro].
  rewrite Hnum.
  repeat (apply elem_of_cons in Hc as [[= -> ->]|Hc]; [reflexivity|]).
  by apply elem_of_nil in Hc.
Qed.

Lemma parseItem_int fuel st toks lxE v :
  printable_number v = true ->
  sees source st (number_tokens (Number_toString v) None ++ toks) lxE ->
  follows toks ->
  exists st',
    SNBTParser.parseItem source (S fuel) st = OK (IntTag v, st')
    /\ sees source st' toks lxE.
Proof.
  intros (z & -> & _ & -> & Hnum)%printable_number_spec Hsees
    (nxt & more & -> & Hk)%follows_cons.
  cbn [number_tokens app] in Hsees.
  destruct (sees_cons _ _ _ _ Hsees) as (lx & -> & Hs).
  rewrite parseItem_number by (by rewrite matches_kind).
  destruct (parseNumber_plain (BigInt_toString z) lx nxt more lxE Hs Hk)
    as (lx1 & -> & Hs1).
  exists (SNBTParser.mk lx1 nxt). split; [|by apply sees_intro].
  rewrite bool_decide_false by apply no_dot_BigInt_toString. by rewrite Hnum.
Qed.

Lemma parseItem_long fuel st toks lxE z :
  sees source st (number_tokens (BigInt_toString z) (Some "l"%char) ++ toks) lxE ->
  follows toks ->
  exists st',
    SNBTParser.parseItem source (S fuel) st = OK (LongTag z, st')
    /\ sees source st' toks lxE.
Proof.
  intros Hsees (nxt & more & -> & Hk)%follows_cons.
  cbn [number_tokens app] in Hsees.
  destruct (sees_cons _ _ _ _ Hsees) as (lx & -> & Hs).
  rewrite parseItem_number by (by rewrite matches_kind).
  destruct (parseNumber_suffixed (BigInt_toString z) "l" lx nxt more lxE Hs)
    as (lx2 & -> & Hs2); [repeat constructor|].
  exists (SNBTParser.mk lx2 nxt). split; [|by apply sees_intro].
  cbn [bool_decide decide_rel]. rewrite BigInt_BigInt_toString. reflexivity.
Qed.

Lemma parseItem_unfold fuel st :
  SNBTParser.parseItem source (S fuel) st
  = (if SNBTParser.matches NUMBER None st then SNBTParser.parseNumber source st
     else if SNBTParser.matches STRING None st then SNBTParser.parseString source st
     else if SNBTParser.matches BOOLEAN None st then SNBTParser.parseBoolean source st
     else if SNBTParser.matches DELIMITER (Some "[") st then
       '(_, st) ← SNBTParser.eat source DELIMITER (Some "[") st;
       '(arrayType, st) ← SNBTParser.arrayMarker source st;
       '(items, st) ← SNBTParser.parseListLoop source fuel arrayType true [] st;
       '(_, st) ← SNBTParser.eat source DELIMITER (Some "]") st;
       if bool_decide (arrayType = Some "B") then
         OK (ByteArrayTag (SNBTParser.as_number <$> items), st)
       else if bool_decide (arrayType = Some "I") then
         OK (IntArrayTag (SNBTParser.as_number <$> items), st)
       else if bool_decide (arrayType = Some "L") then
         OK (LongArrayTag (SNBTParser.as_bigint <$> items), st)
       else OK (ListTag (SNBTParser.as_tag <$> items), st)
     else if SNBTParser.matches DELIMITER (Some "{") st then
       '(_, st) ← SNBTParser.eat source DELIMITER (Some "{") st;
       '(items, st) ← SNBTParser.parseCompoundLoop source fuel true [] st;
       '(_, st) ← SNBTParser.eat source DELIMITER (Some "}") st;
       OK (CompoundTag items, st)
     else throw (ExpectedItem (value (SNBTParser.current st)))).
Proof. reflexivity. Qed.

Lemma parseItem_string fuel st toks lxE text :
  sees source st (mkToken STRING text :: toks) lxE ->
  follows toks ->
  exists st',
    SNBTParser.parseItem source (S fuel) st = OK (StringTag text, st')
    /\ sees source st' toks lxE.
Proof.
  intros Hsees (nxt & more & -> & Hk)%follows_cons.
  destruct (sees_cons _ _ _ _ Hsees) as (lx & -> & Hs).
  rewrite parseItem_unfold. rewrite matches_other by done.
  rewrite matches_kind, bool_decide_true by done.
  unfold SNBTParser.parseString.
  destruct (eat_sees STRING None lx (mkToken STRING text) _ _ lxE
              ltac:(by rewrite matches_kind) Hs) as (lx1 & -> & Hs1).
  exists (SNBTParser.mk lx1 nxt). split; [done|by apply sees_intro].
Qed.

Lemma tokens_head tag :
  exists tok rest,
    tokens tag = tok :: rest
    /\ (forall lx, SNBTParser.matches DELIMITER (Some "]") (SNBTParser.mk lx tok) = false)
    /\ (kind tok = STRING -> tag = StringTag (value tok)).
Proof.
  destruct tag; eexists _, _; (split; [reflexivity|]); split; done.
Qed.

Lemma arrayMarker_none lx tok :
  (kind tok = STRING -> value tok <> "B" /\ value tok <> "I" /\ value tok <> "L") ->
  SNBTParser.arrayMarker source (SNBTParser.mk lx tok) = OK (None, SNBTParser.mk lx tok).
Proof.
  intros H. unfold SNBTParser.arrayMarker. cbn [SNBTParser.current].
  destruct (decide (kind tok = STRING)) as [Hk|Hk].
  - destruct (H Hk) as (H1 & H2 & H3).
    by rewrite (bool_decide_false _ H1), (bool_decide_false _ H2),
      (bool_decide_false _ H3), andb_false_r.
  - by rewrite (bool_decide_false _ Hk).
Qed.

Lemma parseItem_list (items : list Tag) fuel st toks lxE :
  Forall (fun x =>
    forall fuel st toks lxE,
      (text_fuel x <= fuel)%nat ->
      sees source st (tokens x ++ toks) lxE ->
      follows toks ->
      exists st',
        SNBTParser.parseItem source fuel st = OK (x, st') /\ sees source st' toks lxE)
    items ->
  match items with first :: _ => is_array_marker first = false | [] => True end ->
  (length items + foldr Nat.max 0%nat (text_fuel <$> items) < fuel)%nat ->
  sees source st (tokens (ListTag items) ++ toks) lxE ->
  follows toks ->
  exists st',
    SNBTParser.parseItem source (S fuel) st = OK (ListTag items, st')
    /\ sees source st' toks lxE.
Proof.
  intros Hitems Hmark Hfuel Hsees (nxt & more & -> & Hk)%follows_cons.
  cbn [tokens app] in Hsees. rewrite <- app_assoc in Hsees. cbn [app] in Hsees.
  destruct (sees_cons _ _ _ _ Hsees) as (lx & -> & Hs).
  rewrite parseItem_unfold.
  change (delimiter "[") with (mkToken DELIMITER "[") in *.
  rewrite !matches_other by done.
  change (SNBTParser.matches DELIMITER (Some "[")
            (SNBTParser.mk lx (mkToken DELIMITER "["))) with true.
  cbv iota.
  destruct (separated true (tokens <$> items) ++ delimiter "]" :: nxt :: more)
    as [|t1 rest] eqn:Hrest.
  { apply (f_equal length) in Hrest. rewrite length_app in Hrest.
    cbn [length] in Hrest. lia. }
  destruct (eat_sees DELIMITER (Some "[") lx (mkToken DELIMITER "[") _ _ lxE eq_refl Hs)
    as (lx1 & -> & Hs1).
  rewrite bind_OK. cbv beta iota.
  rewrite arrayMarker_none.
  2:{ intros Hstr. destruct items as [|first items].
      - cbn in Hrest. by injection Hrest as <- _.
      - cbn [separated fmap list_fmap app] in Hrest.
        destruct (tokens_head first) as (tok & rest' & Ht & _ & Hfirst).
        rewrite Ht in Hrest. cbn [app] in Hrest. injection Hrest as <- _.
        specialize (Hfirst Hstr). subst first. cbn [is_array_marker] in Hmark.
        apply orb_false_iff in Hmark as [[H1 H2]%orb_false_iff H3].
        apply bool_decide_eq_false in H1, H2, H3. done. }
  rewrite bind_OK. cbv beta iota.
  destruct (parseListLoop_items tokens SNBTParser.ETag text_fuel None items)
    with (fuel := fuel) (first := true) (acc := @nil SNBTParser.element)
         (st := SNBTParser.mk lx1 t1) (toks := nxt :: more) (lxE := lxE)
    as (st2 & -> & Hsees2).
  { eapply Forall_impl; [exact Hitems|]. intros x Hx. split.
    - destruct (tokens_head x) as (tok & rest' & Ht & Hm & _). by exists tok, rest'.
    - intros fuel' st' toks' lxE' Hf Hsees' Hfol.
      destruct (Hx fuel' st' toks' lxE' Hf Hsees' Hfol) as (st'' & -> & Hsees'').
      by exists st''. }
  { done. }
  { rewrite Hrest. by apply sees_intro. }
  rewrite bind_OK. cbv beta iota.
  destruct (sees_cons _ _ _ _ Hsees2) as (lx2 & -> & Hs2).
  destruct (eat_sees DELIMITER (Some "]") lx2 (delimiter "]") _ _ lxE eq_refl Hs2)
    as (lx3 & -> & Hs3).
  exists (SNBTParser.mk lx3 nxt). split; [|by apply sees_intro].
  rewrite bind_OK. cbv beta iota. cbn [app bool_decide decide_rel].
  do 3 f_equal. rewrite <- list_fmap_compose. apply list_fmap_id.
Qed.

Lemma parseItem_typed {A} (marker : string) (elem : A -> list Token)
    (res : A -> SNBTParser.element) (items : list A) fuel st toks lxE :
  marker ∈ ["B"; "I"; "L"] ->
  Forall (fun x =>
    (exists tok rest,
        elem x = tok :: rest
        /\ forall lx, SNBTParser.matches DELIMITER (Some "]") (SNBTParser.mk lx tok) = false)
    /\ forall fuel st toks lxE,
         (0 <= fuel)%nat ->
         sees source st (elem x ++ toks) lxE ->
         follows toks ->
         exists st',
           (if bool_decide (Some marker = Some "B") then
              '(text, st) ← SNBTParser.eatNumberSuffixes source "int" ["b"; "B"] st;
              OK (SNBTParser.ENumber (Number text), st)
            else if bool_decide (Some marker = Some "I") then
              '(text, st) ←
                SNBTParser.eatNumberSuffixes source "int"
                  ["b"; "B"; "s"; "S"; "i"; "I"] st;
              OK (SNBTParser.ENumber (Number text), st)
            else if bool_decide (Some marker = Some "L") then
              '(text, st) ←
                SNBTParser.eatNumberSuffixes source "int"
                  ["b"; "B"; "s"; "S"; "i"; "I"; "l"; "L"] st;
              z ← BigInt text; OK (SNBTParser.EBigInt z, st)
            else '(tag, st) ← SNBTParser.parseItem source fuel st;
                 OK (SNBTParser.ETag tag, st))
           = OK (res x, st')
           /\ sees source st' toks lxE) items ->
  (length items < fuel)%nat ->
  sees source st
    (delimiter "[" :: mkToken STRING marker :: delimiter ";"
     :: separated true (elem <$> items) ++ delimiter "]" :: toks) lxE ->
  follows toks ->
  exists st',
    SNBTParser.parseItem source (S fuel) st
    = OK (if bool_decide (Some marker = Some "B") then
            ByteArrayTag (SNBTParser.as_number <$> (res <$> items))
          else if bool_decide (Some marker = Some "I") then
            IntArrayTag (SNBTParser.as_number <$> (res <$> items))
          else LongArrayTag (SNBTParser.as_bigint <$> (res <$> items)), st')
    /\ sees source st' toks lxE.
Proof.
  intros Hmarker Hitems Hfuel Hsees (nxt & more & -> & Hk)%follows_cons.
  destruct (sees_cons _ _ _ _ Hsees) as (lx & -> & Hs).
  rewrite parseItem_unfold.
  change (delimiter "[") with (mkToken DELIMITER "[") in *.
  rewrite !matches_other by done.
  change (SNBTParser.matches DELIMITER (Some "[")
            (SNBTParser.mk lx (mkToken DELIMITER "["))) with true.
  cbv iota.
  destruct (eat_sees DELIMITER (Some "[") lx (mkToken DELIMITER "[") _ _ lxE eq_refl Hs)
    as (lx1 & -> & Hs1).
  rewrite bind_OK. cbv beta iota.
  destruct (separated true (elem <$> items) ++ delimiter "]" :: nxt :: more)
    as [|t1 rest] eqn:Hrest.
  { apply (f_equal length) in Hrest. rewrite length_app in Hrest.
    cbn [length] in Hrest. lia. }
  assert (SNBTParser.matches STRING None (SNBTParser.mk lx1 (mkToken STRING marker)) = true)
    as Hm by (by rewrite matches_kind).
  destruct (eat_sees STRING None lx1 (mkToken STRING marker) _ _ lxE Hm Hs1)
    as (lx2 & Heat2 & Hs2).
  destruct (eat_sees DELIMITER (Some ";") lx2 (delimiter ";") _ _ lxE eq_refl Hs2)
    as (lx3 & Heat3 & Hs3).
  assert (SNBTParser.arrayMarker source (SNBTParser.mk lx1 (mkToken STRING marker))
          = OK (Some marker, SNBTParser.mk lx3 t1)) as ->.
  { unfold SNBTParser.arrayMarker. cbn [SNBTParser.current kind value].
    assert (bool_decide (STRING = STRING)
            && (bool_decide (marker = "B") || bool_decide (marker = "I")
                || bool_decide (marker = "L")) = true) as ->.
    { repeat (apply elem_of_cons in Hmarker as [->|Hmarker]; [reflexivity|]).
      by apply elem_of_nil in Hmarker. }
    rewrite Heat2, bind_OK. cbv beta iota. by rewrite Heat3, bind_OK. }
  rewrite bind_OK. cbv beta iota.
  destruct (parseListLoop_items elem res (fun _ => 0%nat) (Some marker) items)
    with (fuel := fuel) (first := true) (acc := @nil SNBTParser.element)
         (st := SNBTParser.mk lx3 t1) (toks := nxt :: more) (lxE := lxE)
    as (st4 & -> & Hsees4).
  { exact Hitems. }
  { assert (foldr Nat.max 0%nat ((fun _ : A => 0%nat) <$> items) = 0%nat) as ->; [|lia].
    clear. induction items as [|x items IH]; [done|]. cbn. by rewrite IH. }
  { rewrite Hrest. by apply sees_intro. }
  rewrite bind_OK. cbv beta iota.
  destruct (sees_cons _ _ _ _ Hsees4) as (lx4 & -> & Hs4).
  destruct (eat_sees DELIMITER (Some "]") lx4 (delimiter "]") _ _ lxE eq_refl Hs4)
    as (lx5 & -> & Hs5).
  exists (SNBTParser.mk lx5 nxt). split; [|by apply sees_intro].
  rewrite bind_OK. cbv beta iota. cbn [app].
  repeat (apply elem_of_cons in Hmarker as [->|Hmarker]; [reflexivity|]).
  by apply elem_of_nil in Hmarker.
Qed.

Lemma parseItem_compound_repeated (items : list (string * Tag)) fuel st toks lxE :
  Forall (fun kv =>
    forall fuel st toks lxE,
      (text_fuel kv.2 <= fuel)%nat ->
      sees source st (tokens kv.2 ++ toks) lxE ->
      follows toks ->
      exists st',
        SNBTParser.parseItem source fuel st = OK (kv.2, st')
        /\ sees source st' toks lxE) items ->
  (length items + foldr Nat.max 0%nat ((fun '(_, v) => text_fuel v) <$> items) < fuel)%nat ->
  sees source st (tokens (CompoundTag items) ++ toks) lxE ->
  follows toks ->
  exists st',
    SNBTParser.parseItem source (S fuel) st = OK (CompoundTag (set_all items []), st')
    /\ sees source st' toks lxE.
Proof.
  intros Hitems Hfuel Hsees (nxt & more & -> & Hk)%follows_cons.
  cbn [tokens app] in Hsees. rewrite <- app_assoc in Hsees. cbn [app] in Hsees.
  destruct (sees_cons _ _ _ _ Hsees) as (lx & -> & Hs).
  rewrite parseItem_unfold.
  change (delimiter "{") with (mkToken DELIMITER "{") in *.
  rewrite !matches_other by done.
  change (SNBTParser.matches DELIMITER (Some "[")
            (SNBTParser.mk lx (mkToken DELIMITER "{"))) with false.
  change (SNBTParser.matches DELIMITER (Some "{")
            (SNBTParser.mk lx (mkToken DELIMITER "{"))) with true.
  cbv iota.
  match type of Hs with stream _ _ (?l ++ _) _ => set (entries := l) in * end.
  destruct (entries ++ delimiter "}" :: nxt :: more) as [|t1 rest] eqn:Hrest.
  { apply (f_equal length) in Hrest. rewrite length_app in Hrest.
    cbn [length] in Hrest. lia. }
  destruct (eat_sees DELIMITER (Some "{") lx (mkToken DELIMITER "{") _ _ lxE eq_refl Hs)
    as (lx1 & -> & Hs1).
  rewrite bind_OK. cbv beta iota.
  destruct (parseCompoundLoop_repeated items Hitems fuel true [] (SNBTParser.mk lx1 t1)
              (nxt :: more) lxE) as (st2 & -> & Hsees2); [done| |].
  { fold entries. rewrite Hrest. by apply sees_intro. }
  rewrite bind_OK. cbv beta iota.
  destruct (sees_cons _ _ _ _ Hsees2) as (lx2 & -> & Hs2).
  destruct (eat_sees DELIMITER (Some "}") lx2 (delimiter "}") _ _ lxE eq_refl Hs2)
    as (lx3 & -> & Hs3).
  exists (SNBTParser.mk lx3 nxt). split; [done|by apply sees_intro].
Qed.

Lemma parseItem_compound (items : list (string * Tag)) fuel st toks lxE :
  Forall (fun kv =>
    forall fuel st toks lxE,
      (text_fuel kv.2 <= fuel)%nat ->
      sees source st (tokens kv.2 ++ toks) lxE ->
      follows toks ->
      exists st',
        SNBTParser.parseItem source fuel st = OK (kv.2, st')
        /\ sees source st' toks lxE) items ->
  NoDup items.*1 ->
  (length items + foldr Nat.max 0%nat ((fun '(_, v) => text_fuel v) <$> items) < fuel)%nat ->
  sees source st (tokens (CompoundTag items) ++ toks) lxE ->
  follows toks ->
  exists st',
    SNBTParser.parseItem source (S fuel) st = OK (CompoundTag items, st')
    /\ sees source st' toks lxE.
Proof.
  intros Hitems Hnd Hfuel Hsees Hfol.
  pose proof (set_all_fresh items [] Hnd) as Heq. cbn [app] in Heq.
  destruct (parseItem_compound_repeated items fuel st toks lxE Hitems Hfuel Hsees Hfol)
    as (st' & H1 & H2).
  rewrite Heq in H1. by exists st'.
Qed.

Lemma number_tokens_head text suffix :
  exists tok rest,
    number_tokens text suffix = tok :: rest
    /\ forall lx, SNBTParser.matches DELIMITER (Some "]") (SNBTParser.mk lx tok) = false.
Proof. by eexists _, _. Qed.

(** The parser reads a printable tag back from its tokens. *)
Lemma parseItem_tokens tag :
  forall fuel st toks lxE,
    printable tag = true ->
    (text_fuel tag <= fuel)%nat ->
    sees source st (tokens tag ++ toks) lxE ->
    follows toks ->
    exists st',
      SNBTParser.parseItem source fuel st = OK (tag, st') /\ sees source st' toks lxE.
Proof.
  induction tag as [tag Hleaf|items IH|values IH] using Tag_nested_ind;
    intros fuel st toks lxE Hp Hfuel Hsees Hfol.
  - destruct fuel as [|fuel]; [destruct tag; cbn in Hfuel; lia|].
    destruct tag as [v|v|v|v|v|v|v|items|values|vs|vs|vs]; try done;
      cbn [printable tokens text_fuel] in *.
    + apply (parseItem_suffixed_number fuel st toks lxE v "b" ByteTag); try done.
      repeat constructor.
    + apply (parseItem_suffixed_number fuel st toks lxE v "s" ShortTag); try done.
      repeat constructor.
    + by apply parseItem_int.
    + by apply parseItem_long.
    + apply (parseItem_suffixed_number fuel st toks lxE v "f" FloatTag); try done.
      repeat constructor.
    + apply (parseItem_suffixed_number fuel st toks lxE v "d" DoubleTag); try done.
      repeat constructor.
    + by apply parseItem_string.
    + (* ByteArray *)
      destruct (parseItem_typed "B"
                  (fun item => number_tokens (Number_toString item) (Some "b"%char))
                  SNBTParser.ENumber vs fuel st toks lxE) as (st' & -> & Hsees');
        [repeat constructor| |lia
        |cbn [app] in Hsees; rewrite <- app_assoc in Hsees; exact Hsees|done|].
      { apply forallb_Forall in Hp. eapply Forall_impl; [exact Hp|].
        intros v (z & -> & _ & -> & Hnum)%printable_number_spec.
        split; [apply number_tokens_head|].
        intros fuel' st1 toks1 lxE1 _ Hsees1 (nxt & more & -> & Hk)%follows_cons.
        cbn [number_tokens app] in Hsees1.
        destruct (sees_cons _ _ _ _ Hsees1) as (lx & -> & Hs).
        destruct (eatNumberSuffixes_suffixed (BigInt_toString z) "b" ["b"; "B"]
                    lx nxt more lxE1) as (lx2 & -> & Hs2);
          [apply no_dot_BigInt_toString|repeat constructor|done|].
        exists (SNBTParser.mk lx2 nxt). split; [|by apply sees_intro].
        cbn [bool_decide decide_rel]. rewrite bind_OK. cbv beta iota. by rewrite Hnum. }
      exists st'. split; [|done]. cbn [bool_decide decide_rel]. do 3 f_equal.
      rewrite <- list_fmap_compose. apply list_fmap_id.
    + (* IntArray *)
      destruct (parseItem_typed "I"
                  (fun item => number_tokens (Number_toString item) None)
                  SNBTParser.ENumber vs fuel st toks lxE) as (st' & -> & Hsees');
        [repeat constructor| |lia
        |cbn [app] in Hsees; rewrite <- app_assoc in Hsees; exact Hsees|done|].
      { apply forallb_Forall in Hp. eapply Forall_impl; [exact Hp|].
        intros v (z & -> & _ & -> & Hnum)%printable_number_spec.
        split; [apply number_tokens_head|].
        intros fuel' st1 toks1 lxE1 _ Hsees1 (nxt & more & -> & Hk)%follows_cons.
        cbn [number_tokens app] in Hsees1.
        destruct (sees_cons _ _ _ _ Hsees1) as (lx & -> & Hs).
        destruct (eatNumberSuffixes_plain (BigInt_toString z)
                    ["b"; "B"; "s"; "S"; "i"; "I"] lx nxt more lxE1)
          as (lx2 & -> & Hs2);
          [apply no_dot_BigInt_toString|repeat constructor|done|done|].
        exists (SNBTParser.mk lx2 nxt). split; [|by apply sees_intro].
        cbn [bool_decide decide_rel]. rewrite bind_OK. cbv beta iota. by rewrite Hnum. }
      exists st'. split; [|done]. cbn [bool_decide decide_rel]. do 3 f_equal.
      rewrite <- list_fmap_compose. apply list_fmap_id.
    + (* LongArray *)
      destruct (parseItem_typed "L"
                  (fun item => number_tokens (BigInt_toString item) (Some "l"%char))
                  SNBTParser.EBigInt vs fuel st toks lxE) as (st' & -> & Hsees');
        [repeat constructor| |lia
        |cbn [app] in Hsees; rewrite <- app_assoc in Hsees; exact Hsees|done|].
      { apply Forall_forall. intros z _.
        split; [apply number_tokens_head|].
        intros fuel' st1 toks1 lxE1 _ Hsees1 (nxt & more & -> & Hk)%follows_cons.
        cbn [number_tokens app] in Hsees1.
        destruct (sees_cons _ _ _ _ Hsees1) as (lx & -> & Hs).
        destruct (eatNumberSuffixes_suffixed (BigInt_toString z) "l"
                    ["b"; "B"; "s"; "S"; "i"; "I"; "l"; "L"] lx nxt more lxE1)
          as (lx2 & -> & Hs2);
          [apply no_dot_BigInt_toString|repeat constructor|done|].
        exists (SNBTParser.mk lx2 nxt). split; [|by apply sees_intro].
        cbn [bool_decide decide_rel]. rewrite bind_OK. cbv beta iota.
        by rewrite BigInt_BigInt_toString. }
      exists st'. split; [|done]. cbn [bool_decide decide_rel]. do 3 f_equal.
      rewrite <- list_fmap_compose. apply list_fmap_id.
  - (* Compound *)
    cbn [printable text_fuel] in Hp, Hfuel.
    apply andb_true_iff in Hp as [Hnd%bool_decide_eq_true Hp].
    apply forallb_Forall in Hp.
    destruct fuel as [|fuel]; [lia|].
    apply parseItem_compound; try done; [|lia].
    apply Forall_forall. intros [k v] Hin fuel' st1 toks1 lxE1 Hf Hsees1 Hfol1.
    rewrite Forall_forall in IH, Hp.
    apply (IH _ Hin); try done.
    specialize (Hp _ Hin). cbn beta iota in Hp. by apply andb_true_iff in Hp as [_ Hp].
  - (* List *)
    cbn [printable text_fuel] in Hp, Hfuel.
    apply andb_true_iff in Hp as [Hp Hmark].
    apply forallb_Forall in Hp.
    destruct fuel as [|fuel]; [lia|].
    apply parseItem_list; try done; [| |lia].
    + apply Forall_forall. intros v Hin fuel' st1 toks1 lxE1 Hf Hsees1 Hfol1.
      rewrite Forall_forall in IH, Hp. apply (IH _ Hin); try done. by apply Hp.
    + destruct values; [done|]. by apply negb_true_iff.
Qed.
End OnTokens.


(** ** The lexer on a printed tag *)

Section OnText.
Variable source : list ascii.

Lemma lexes_one p ln tok p' ln' :
  Lexer.next source (Lexer.mk p ln) = OK (tok, Lexer.mk p' ln') ->
  lexes source p ln [tok] p' ln'.
Proof. intros H more lx' Hs. by apply (stream_cons _ _ _ _ _ _ H). Qed.

Lemma lexes_nil p ln : lexes source p ln [] p ln.
Proof. by intros more lx' Hs. Qed.

Lemma lexes_app p ln toks1 p1 ln1 toks2 p2 ln2 :
  lexes source p ln toks1 p1 ln1 ->
  lexes source p1 ln1 toks2 p2 ln2 ->
  lexes source p ln (toks1 ++ toks2) p2 ln2.
Proof. intros H1 H2 more lx' Hs. rewrite <- app_assoc. by apply H1, H2. Qed.

Lemma lexes_cons p ln tok p1 ln1 toks p2 ln2 :
  Lexer.next source (Lexer.mk p ln) = OK (tok, Lexer.mk p1 ln1) ->
  lexes source p1 ln1 toks p2 ln2 ->
  lexes source p ln (tok :: toks) p2 ln2.
Proof. intros H1 H2. by apply (lexes_app _ _ [tok] _ _ _ _ _ (lexes_one _ _ _ _ _ H1)). Qed.

Lemma drop_after p (X Y : list ascii) :
  drop p source = X ++ Y -> drop (p + length X) source = Y.
Proof. intros H. by rewrite <- drop_drop, H, drop_app_length. Qed.

Lemma next_skip p ln c rest :
  drop p source = c :: rest -> includes SKIP_CHARS c = true ->
  Lexer.next source (Lexer.mk p ln) = Lexer.next source (Lexer.mk (S p) ln).
Proof.
  intros Hd Hc. unfold Lexer.next. cbn [Lexer.pos].
  assert (drop (S p) source = rest) as ->
    by (rewrite <- Nat.add_1_r; apply (drop_after p [c] rest Hd)).
  rewrite Hd. cbn [Lexer.nextFrom Lexer.pos Lexer.lastNumber]. by rewrite Hc.
Qed.

Lemma lexes_skip p ln c rest toks p' ln' :
  drop p source = c :: rest -> includes SKIP_CHARS c = true ->
  toks <> [] ->
  lexes source (S p) ln toks p' ln' ->
  lexes source p ln toks p' ln'.
Proof.
  intros Hd Hc Hne H more lx' Hs. specialize (H more lx' Hs).
  destruct toks as [|tok toks]; [done|].
  inversion H as [|? ? lx1 ? ? Hn Hs1]; subst.
  apply (stream_cons _ _ _ lx1); [|done]. by rewrite (next_skip p ln c rest).
Qed.

Lemma next_delimiter p ln c rest :
  drop p source = c :: rest -> includes CONSTANT_TOKENS c = true ->
  Lexer.next source (Lexer.mk p ln) = OK (delimiter c, Lexer.mk (S p) ln).
Proof.
  intros Hd Hc. unfold Lexer.next. cbn [Lexer.pos]. rewrite Hd. cbn [Lexer.nextFrom].
  assert (includes SKIP_CHARS c = false) as ->.
  { apply bool_decide_eq_true in Hc. apply bool_decide_eq_false. intros Hin.
    repeat (apply elem_of_cons in Hc as [->|Hc];
            [repeat (apply elem_of_cons in Hin as [?|Hin]; [done|]);
             by apply elem_of_nil in Hin|]).
    by apply elem_of_nil in Hc. }
  by rewrite Hc.
Qed.

Lemma next_eof p ln :
  drop p source = [] ->
  Lexer.next source (Lexer.mk p ln) = OK (mkToken EOF "", Lexer.mk p ln).
Proof. intros Hd. unfold Lexer.next. cbn [Lexer.pos]. by rewrite Hd. Qed.

(** *** Numbers *)

Lemma not_includes (P : ascii -> Prop) (l : list ascii) c :
  P c -> Forall (fun x => ~ P x) l -> includes l c = false.
Proof.
  intros Hc Hl. apply bool_decide_eq_false. intros Hin.
  rewrite Forall_forall in Hl. by apply (Hl c Hin).
Qed.

Lemma number_start c :
  c = "-"%char \/ is_digit c = true ->
  includes SKIP_CHARS c = false
  /\ includes CONSTANT_TOKENS c = false
  /\ includes NUMBER_SUFFIXES c = false
  /\ bool_decide (c = "+"%char) || bool_decide (c = "-"%char) || in_range "0" "9" c = true.
Proof.
  intros [->|Hc]; [done|].
  repeat split;
    try (apply (not_includes (fun x => is_digit x = true)); [done|];
         repeat constructor; by intros ?).
  apply is_digit_cases in Hc as (_ & _ & _ & ->). by rewrite orb_true_r.
Qed.

Lemma numberLoop_digits ds : forall post content pos,
  Forall (fun c => is_digit c = true) ds ->
  match post with
  | c :: _ => in_range "0" "9" c || bool_decide (c = "."%char) = false
  | [] => True
  end ->
  Lexer.numberLoop (ds ++ post) false content pos = (content ++ ds, (pos + length ds)%nat).
Proof.
  induction ds as [|d ds IH]; intros post content pos Hds Hpost.
  - rewrite app_nil_r, Nat.add_0_r. destruct post as [|c post]; [done|].
    cbn [app Lexer.numberLoop negb andb]. by rewrite Hpost.
  - apply Forall_cons in Hds as [Hd Hds].
    apply is_digit_cases in Hd as (_ & _ & Hdot & Hr).
    cbn [app Lexer.numberLoop]. rewrite Hr. cbn [orb].
    rewrite (bool_decide_false _ Hdot). rewrite IH by done.
    rewrite <- app_assoc. cbn [app length]. f_equal. lia.
Qed.

Lemma BigInt_toString_shape z :
  exists c ds,
    BigInt_toString z = c :: ds
    /\ (c = "-"%char \/ is_digit c = true)
    /\ Forall (fun c => is_digit c = true) ds.
Proof.
  unfold BigInt_toString. destruct (z <? 0).
  - exists "-"%char, (digits (Z.abs z)). repeat split; [by left|apply digits_is_digit].
  - pose proof (digits_is_digit (Z.abs z)) as Hd.
    destruct (digits_nonempty (Z.abs z)) as (c & ds & E & Hc); [lia|].
    rewrite E in *. exists c, ds. apply Forall_cons in Hd as [_ Hd]. by repeat split; [right|].
Qed.

Lemma next_number z post p ln :
  drop p source = BigInt_toString z ++ post ->
  match post with
  | c :: _ => in_range "0" "9" c || bool_decide (c = "."%char) = false
  | [] => True
  end ->
  Lexer.next source (Lexer.mk p ln)
  = OK (mkToken NUMBER (str (BigInt_toString z)),
        Lexer.mk (p + length (BigInt_toString z))
          (Z.of_nat (p + length (BigInt_toString z)) - 1)).
Proof.
  intros Hd Hpost. unfold Lexer.next. cbn [Lexer.pos]. rewrite Hd.
  destruct (BigInt_toString_shape z) as (c & ds & -> & Hc & Hds).
  destruct (number_start c Hc) as (H1 & H2 & H3 & H4).
  cbn [app Lexer.nextFrom Lexer.pos Lexer.lastNumber].
  rewrite H1, H2, H3, andb_false_r, H4.
  rewrite numberLoop_digits by done. cbn [app length].
  replace (S p + length ds)%nat with (p + S (length ds))%nat by lia. done.
Qed.

Lemma next_suffix c post p :
  drop p source = c :: post ->
  c ∈ ["b"; "s"; "l"; "f"; "d"]%char ->
  Lexer.next source (Lexer.mk p (Z.of_nat p - 1))
  = OK (mkToken SUFFIX (str [c]), Lexer.mk (S p) (Z.of_nat p - 1)).
Proof.
  intros Hd Hc. unfold Lexer.next. cbn [Lexer.pos]. rewrite Hd.
  cbn [Lexer.nextFrom Lexer.pos Lexer.lastNumber].
  rewrite bool_decide_true by done.
  repeat (apply elem_of_cons in Hc as [->|Hc]; [reflexivity|]).
  by apply elem_of_nil in Hc.
Qed.

(** *** Strings and names *)

Lemma is_letter_range c :
  is_letter c = true ->
  (97 <= nat_of_ascii c <= 122)%nat \/ (65 <= nat_of_ascii c <= 90)%nat.
Proof.
  unfold is_letter, in_range.
  change (nat_of_ascii "a") with 97%nat. change (nat_of_ascii "z") with 122%nat.
  change (nat_of_ascii "A") with 65%nat. change (nat_of_ascii "Z") with 90%nat.
  intros [H|H]%orb_true_iff;
    apply andb_true_iff in H as [H1%Nat.leb_le H2%Nat.leb_le]; lia.
Qed.

Lemma letter_start c :
  is_letter c = true ->
  includes SKIP_CHARS c = false
  /\ includes CONSTANT_TOKENS c = false
  /\ bool_decide (c = "+"%char) || bool_decide (c = "-"%char) || in_range "0" "9" c = false
  /\ isIdentifierChar c = true.
Proof.
  intros Hc. repeat split;
    try (apply (not_includes (fun x => is_letter x = true)); [done|];
         repeat constructor; by intros ?).
  - rewrite !bool_decide_false by (intros ->; done). cbn [orb].
    apply is_letter_range in Hc. unfold in_range.
    change (nat_of_ascii "0") with 48%nat. change (nat_of_ascii "9") with 57%nat.
    apply andb_false_iff. right. apply Nat.leb_gt. lia.
  - unfold isIdentifierChar. fold (is_letter c). by rewrite Hc.
Qed.

Lemma boundary_stops post :
  boundary post ->
  match post with c :: _ => isIdentifierChar c = false | [] => True end.
Proof.
  destruct post as [|c post]; [done|]. cbn. intros Hc%bool_decide_eq_true.
  repeat (apply elem_of_cons in Hc as [->|Hc]; [done|]). by apply elem_of_nil in Hc.
Qed.

Lemma boundary_stops_number post :
  boundary post ->
  match post with
  | c :: _ => in_range "0" "9" c || bool_decide (c = "."%char) = false
  | [] => True
  end.
Proof.
  destruct post as [|c post]; [done|]. cbn. intros Hc%bool_decide_eq_true.
  repeat (apply elem_of_cons in Hc as [->|Hc]; [done|]). by apply elem_of_nil in Hc.
Qed.

Lemma identifierLoop_all text : forall post pos,
  forallb isIdentifierChar text = true ->
  match post with c :: _ => isIdentifierChar c = false | [] => True end ->
  Lexer.identifierLoop (text ++ post) pos = (pos + length text)%nat.
Proof.
  induction text as [|c text IH]; intros post pos Ht Hpost.
  - rewrite Nat.add_0_r. destruct post as [|c post]; [done|].
    cbn [app Lexer.identifierLoop]. by rewrite Hpost.
  - cbn [forallb] in Ht. apply andb_true_iff in Ht as [Hc Ht].
    cbn [app Lexer.identifierLoop length]. rewrite Hc, IH by done. lia.
Qed.

Lemma next_identifier_prefix c text post p ln :
  drop p source = (c :: text) ++ post ->
  is_letter c = true ->
  forallb isIdentifierChar (c :: text) = true ->
  match post with c' :: _ => isIdentifierChar c' = false | [] => True end ->
  ln <> Z.of_nat p - 1 ->
  Lexer.next source (Lexer.mk p ln)
  = OK (mkToken (if bool_decide (str (c :: text) = "true")
                    || bool_decide (str (c :: text) = "false")
                 then BOOLEAN else STRING) (str (c :: text)),
        Lexer.mk (p + length (c :: text)) ln).
Proof.
  intros Hd Hc Ht Hpost Hln. unfold Lexer.next. cbn [Lexer.pos]. rewrite Hd.
  destruct (letter_start c Hc) as (H1 & H2 & H3 & H4).
  change ((c :: text) ++ post) with (c :: text ++ post).
  cbn [Lexer.nextFrom Lexer.pos Lexer.lastNumber].
  rewrite H1, H2, (bool_decide_false _ Hln), H3, H4. cbn [andb].
  change (c :: text ++ post) with ((c :: text) ++ post).
  rewrite identifierLoop_all by done.
  replace (p + length (c :: text) - p)%nat with (length (c :: text)) by lia.
  by rewrite take_app_length.
Qed.

Lemma next_identifier c text post p ln :
  drop p source = (c :: text) ++ post ->
  is_letter c = true ->
  forallb isIdentifierChar (c :: text) = true ->
  boundary post ->
  ln <> Z.of_nat p - 1 ->
  Lexer.next source (Lexer.mk p ln)
  = OK (mkToken (if bool_decide (str (c :: text) = "true")
                    || bool_decide (str (c :: text) = "false")
                 then BOOLEAN else STRING) (str (c :: text)),
        Lexer.mk (p + length (c :: text)) ln).
Proof.
  intros Hd Hc Ht Hpost Hln. apply (next_identifier_prefix c text post); try done.
  by apply boundary_stops.
Qed.

Lemma next_quoted body post p ln :
  drop p source = "034"%char :: body ++ "034"%char :: post ->
  closed_body "034" body = true ->
  Lexer.next source (Lexer.mk p ln)
  = OK (mkToken STRING (str (unescape "034" body)), Lexer.mk (p + length body + 2) ln).
Proof.
  intros Hd Hc. unfold Lexer.next. cbn [Lexer.pos]. rewrite Hd.
  rewrite nextFrom_quote by done.
  rewrite (charLoop_closed (length body)) by done.
  rewrite bind_OK. cbv beta iota. cbn [app Lexer.pos Lexer.lastNumber].
  do 3 f_equal. lia.
Qed.

Lemma replaceAll_absent pattern replacement text :
  pattern ∉ text -> replaceAll pattern replacement text = text.
Proof.
  induction text as [|c text IH]; [done|]. intros [Hc Ht]%not_elem_of_cons.
  cbn [replaceAll]. rewrite bool_decide_false by done. cbn [app]. by rewrite IH.
Qed.

Lemma escaped_reads_back text :
  "\"%char ∉ text ->
  closed_body "034" (replaceAll "034" ["\"; "034"]%char text) = true
  /\ unescape "034" (replaceAll "034" ["\"; "034"]%char text) = text.
Proof.
  induction text as [|c text IH]; [done|]. intros [Hc Ht]%not_elem_of_cons.
  destruct (IH Ht) as [IH1 IH2]. cbn [replaceAll].
  case_bool_decide as Hq.
  - subst c. cbn [app closed_body unescape]. cbn [bool_decide decide_rel is_quote].
    change (is_quote "034") with true. cbv iota. by rewrite IH1, IH2.
  - cbn [app closed_body unescape]. rewrite !(bool_decide_false (c = "\"%char)) by done.
    rewrite (bool_decide_false (c = "034"%char)) by done. cbn [negb andb].
    by rewrite IH1, IH2.
Qed.

Lemma regex_starts_with_letter text :
  VALID_QUOTELESS_STRING_RE text = true \/ VALID_QUOTELESS_KEY_RE text = true ->
  exists c rest, text = c :: rest /\ is_letter c = true.
Proof.
  destruct text as [|c rest]; [by intros [?|?]|].
  intros [H|H]; apply andb_true_iff in H as [Hc _]; by exists c, rest.
Qed.

Lemma str_chars (text : string) : str (chars text) = text.
Proof. apply String.string_of_list_ascii_of_string. Qed.

Lemma lexes_text re text post p ln :
  (re text = true -> exists c rest, text = c :: rest /\ is_letter c = true) ->
  printable_text re text = true ->
  drop p source = stringifyTextEscaped text re ++ post ->
  boundary post ->
  ln < Z.of_nat p - 1 ->
  lexes source p ln [mkToken STRING (str text)]
    (p + length (stringifyTextEscaped text re)) ln.
Proof.
  unfold printable_text, stringifyTextEscaped. intros Hre Hp Hd Hpost Hln.
  apply lexes_one. destruct (re text).
  - destruct (Hre eq_refl) as (c & rest & -> & Hc).
    apply andb_true_iff in Hp as [[Hid Ht%negb_true_iff]%andb_true_iff Hf%negb_true_iff].
    rewrite (next_identifier c rest post p ln) by (first [done | lia]).
    by rewrite Ht, Hf.
  - apply negb_true_iff, bool_decide_eq_false in Hp.
    rewrite (replaceAll_absent "\" _ text Hp) in *.
    destruct (escaped_reads_back text Hp) as [Hclosed Hback].
    cbn [app] in Hd. rewrite <- app_assoc in Hd. cbn [app] in Hd.
    rewrite (next_quoted _ post p ln Hd Hclosed), Hback.
    do 3 f_equal. cbn [length]. rewrite length_app. cbn [length]. lia.
Qed.

(** *** Lists *)

Lemma join_cons (item : list ascii) items :
  Array_join (item :: items)
  = item ++ concat ((fun x => ","%char :: " "%char :: x) <$> items).
Proof.
  revert item. induction items as [|y items IH]; intros item.
  - cbn. by rewrite app_nil_r.
  - change (Array_join (item :: y :: items))
      with (item ++ ","%char :: " "%char :: Array_join (y :: items)).
    rewrite IH. cbn [fmap list_fmap concat app]. done.
Qed.

Lemma includes_space : includes SKIP_CHARS " " = true.
Proof. reflexivity. Qed.

Lemma lexes_rest {A} (text_of : A -> list ascii) (toks_of : A -> list Token) items :
  Forall (fun x =>
    (exists tok rest, toks_of x = tok :: rest)
    /\ forall p post ln,
         drop p source = text_of x ++ post ->
         boundary post ->
         ln < Z.of_nat p - 1 ->
         exists ln',
           ln' < Z.of_nat (p + length (text_of x))
           /\ lexes source p ln (toks_of x) (p + length (text_of x)) ln') items ->
  forall p post ln,
    drop p source
    = concat ((fun x => ","%char :: " "%char :: x) <$> (text_of <$> items)) ++ post ->
    boundary post ->
    ln < Z.of_nat p ->
    exists ln',
      ln' < Z.of_nat
              (p + length (concat ((fun x => ","%char :: " "%char :: x)
                                     <$> (text_of <$> items))))
      /\ lexes source p ln (separated false (toks_of <$> items))
           (p + length (concat ((fun x => ","%char :: " "%char :: x)
                                  <$> (text_of <$> items)))) ln'.
Proof.
  induction 1 as [|x items [(tok & rest & Htoks) Hx] _ IH]; intros p post ln Hd Hpost Hln.
  - exists ln. cbn. rewrite Nat.add_0_r. split; [lia|apply lexes_nil].
  - cbn [fmap list_fmap concat] in *. cbn [app] in Hd. rewrite <- app_assoc in Hd.
    set (tail := concat ((fun x => ","%char :: " "%char :: x) <$> (text_of <$> items))) in *.
    assert (drop (S p) source = " "%char :: text_of x ++ tail ++ post) as Hd1.
    { rewrite <- Nat.add_1_r. by apply (drop_after p [","%char]). }
    assert (drop (S (S p)) source = text_of x ++ tail ++ post) as Hd2.
    { rewrite <- (Nat.add_1_r (S p)). by apply (drop_after (S p) [" "%char]). }
    assert (boundary (tail ++ post)) as Hb.
    { unfold tail. destruct items; [done|]. reflexivity. }
    destruct (Hx (S (S p)) (tail ++ post) ln Hd2 Hb ltac:(lia)) as (ln1 & Hln1 & Hlex1).
    apply drop_after in Hd2.
    destruct (IH _ post ln1 Hd2 Hpost Hln1) as (ln2 & Hln2 & Hlex2).
    exists ln2. cbn [app length]. rewrite length_app.
    replace (p + S (S (length (text_of x) + length tail)))%nat
      with (S (S p) + length (text_of x) + length tail)%nat by lia.
    split; [done|].
    cbn [separated app].
    apply (lexes_cons p ln _ (S p) ln); [by apply (next_delimiter p ln _ _ Hd)|].
    rewrite Htoks in *. cbn [app].
    apply (lexes_skip (S p) ln " " _ _ _ _ Hd1 includes_space); [done|].
    change (tok :: rest ++ separated false (toks_of <$> items))
      with ((tok :: rest) ++ separated false (toks_of <$> items)).
    by apply (lexes_app _ _ _ _ _ _ _ _ Hlex1).
Qed.

Lemma lexes_joined {A} (text_of : A -> list ascii) (toks_of : A -> list Token) items :
  Forall (fun x =>
    (exists tok rest, toks_of x = tok :: rest)
    /\ forall p post ln,
         drop p source = text_of x ++ post ->
         boundary post ->
         ln < Z.of_nat p - 1 ->
         exists ln',
           ln' < Z.of_nat (p + length (text_of x))
           /\ lexes source p ln (toks_of x) (p + length (text_of x)) ln') items ->
  forall p post ln,
    drop p source = Array_join (text_of <$> items) ++ post ->
    boundary post ->
    ln < Z.of_nat p - 1 ->
    exists ln',
      ln' < Z.of_nat (p + length (Array_join (text_of <$> items)))
      /\ lexes source p ln (separated true (toks_of <$> items))
           (p + length (Array_join (text_of <$> items))) ln'.
Proof.
  intros Hitems p post ln Hd Hpost Hln.
  destruct Hitems as [|x items [_ Hx] Hitems].
  - exists ln. cbn. rewrite Nat.add_0_r. split; [lia|apply lexes_nil].
  - cbn [fmap list_fmap] in *. rewrite join_cons in *. rewrite <- app_assoc in Hd.
    set (tail := concat ((fun x => ","%char :: " "%char :: x) <$> (text_of <$> items))) in *.
    assert (boundary (tail ++ post)) as Hb.
    { unfold tail. destruct items; [done|]. reflexivity. }
    destruct (Hx p (tail ++ post) ln Hd Hb Hln) as (ln1 & Hln1 & Hlex1).
    apply drop_after in Hd.
    destruct (lexes_rest text_of toks_of items Hitems _ post ln1 Hd Hpost Hln1)
      as (ln2 & Hln2 & Hlex2).
    exists ln2. rewrite length_app, Nat.add_assoc. split; [done|].
    cbn [separated app]. by apply (lexes_app _ _ _ _ _ _ _ _ Hlex1).
Qed.

(** *** The text of a Compound *)

Lemma stringify_compound_loop (K : string -> list ascii) (parts : list (string * list ascii)) :
  forall acc,
    (1 < length acc)%nat ->
    foldl (fun stringified '(key, value) =>
             (if (1 <? length stringified)%nat then stringified ++ chars ", "
              else stringified) ++ K key ++ chars ": " ++ value) acc parts
    = acc ++ concat ((fun x => ","%char :: " "%char :: x)
                       <$> ((fun '(key, value) => K key ++ chars ": " ++ value) <$> parts)).
Proof.
  induction parts as [|[k v] parts IH]; intros acc Hacc; cbn [foldl fmap list_fmap concat].
  - by rewrite app_nil_r.
  - rewrite (proj2 (Nat.ltb_lt _ _) Hacc). rewrite IH.
    + change (chars ", ") with [","; " "]%char. rewrite <- !app_assoc.
      cbn [app]. by rewrite <- !app_assoc.
    + rewrite !length_app. lia.
Qed.

Lemma stringify_compound items :
  stringify (CompoundTag items)
  = "{"%char
    :: Array_join ((fun '(key, value) =>
                      stringifyTextEscaped (chars key) VALID_QUOTELESS_KEY_RE
                      ++ chars ": " ++ stringify value) <$> items)
    ++ ["}"%char].
Proof.
  cbn [stringify].
  change (chars "}") with ["}"%char]. change (chars "{") with ["{"%char].
  destruct items as [|[k v] items]; [done|].
  cbn [fmap list_fmap foldl]. change (1 <? length ["{"%char])%nat with false. cbv iota.
  rewrite join_cons.
  rewrite (stringify_compound_loop
             (fun key => stringifyTextEscaped (chars key) VALID_QUOTELESS_KEY_RE)).
  2:{ change (chars ": ") with [":"; " "]%char.
      cbn [app length]. rewrite !length_app. cbn [length]. lia. }
  cbn [app]. rewrite <- !app_assoc. do 5 f_equal.
  rewrite <- !list_fmap_compose. f_equal.
  apply list_fmap_ext. by intros i [k' v'] _.
Qed.

(** *** One tag *)

Lemma lexes_number_plain z post p ln :
  drop p source = BigInt_toString z ++ post ->
  boundary post ->
  exists ln',
    ln' < Z.of_nat (p + length (BigInt_toString z))
    /\ lexes source p ln (number_tokens (BigInt_toString z) None)
         (p + length (BigInt_toString z)) ln'.
Proof.
  intros Hd Hpost. exists (Z.of_nat (p + length (BigInt_toString z)) - 1).
  split; [lia|]. apply lexes_one, (next_number z post); [done|].
  by apply boundary_stops_number.
Qed.

Lemma lexes_number_suffixed z c post p ln :
  c ∈ ["b"; "s"; "l"; "f"; "d"]%char ->
  drop p source = (BigInt_toString z ++ [c]) ++ post ->
  exists ln',
    ln' < Z.of_nat (p + length (BigInt_toString z ++ [c]))
    /\ lexes source p ln (number_tokens (BigInt_toString z) (Some c))
         (p + length (BigInt_toString z ++ [c])) ln'.
Proof.
  intros Hc Hd. rewrite <- app_assoc in Hd. cbn [app] in Hd.
  exists (Z.of_nat (p + length (BigInt_toString z)) - 1).
  rewrite length_app. cbn [length]. split; [lia|].
  apply (lexes_cons p ln _ (p + length (BigInt_toString z))
           (Z.of_nat (p + length (BigInt_toString z)) - 1)).
  - apply (next_number z (c :: post)); [done|].
    repeat (apply elem_of_cons in Hc as [->|Hc]; [done|]). by apply elem_of_nil in Hc.
  - apply lexes_one. apply drop_after in Hd.
    rewrite (next_suffix c post _ Hd Hc). do 3 f_equal. lia.
Qed.

Lemma separated_snoc_nonempty first (items : list (list Token)) tok :
  separated first items ++ [tok] <> [].
Proof. by destruct (separated first items). Qed.

Lemma lexes_bracketed {A} (opening closing : ascii) (text_of : A -> list ascii)
    (toks_of : A -> list Token) items post p ln :
  includes CONSTANT_TOKENS opening = true ->
  includes CONSTANT_TOKENS closing = true ->
  Forall (fun x =>
    (exists tok rest, toks_of x = tok :: rest)
    /\ forall p post ln,
         drop p source = text_of x ++ post ->
         boundary post ->
         ln < Z.of_nat p - 1 ->
         exists ln',
           ln' < Z.of_nat (p + length (text_of x))
           /\ lexes source p ln (toks_of x) (p + length (text_of x)) ln') items ->
  drop p source = (opening :: Array_join (text_of <$> items) ++ [closing]) ++ post ->
  ln < Z.of_nat p ->
  exists ln',
    ln' < Z.of_nat (p + length (opening :: Array_join (text_of <$> items) ++ [closing]))
    /\ lexes source p ln
         (delimiter opening :: separated true (toks_of <$> items) ++ [delimiter closing])
         (p + length (opening :: Array_join (text_of <$> items) ++ [closing])) ln'.
Proof.
  intros Ho Hc Hitems Hd Hln.
  cbn [app] in Hd. rewrite <- app_assoc in Hd. cbn [app] in Hd.
  assert (drop (S p) source = Array_join (text_of <$> items) ++ closing :: post) as Hd1.
  { rewrite <- Nat.add_1_r. by apply (drop_after p [opening]). }
  destruct (lexes_joined text_of toks_of items Hitems (S p) (closing :: post) ln Hd1)
    as (ln1 & Hln1 & Hlex1); [done|lia|].
  apply drop_after in Hd1.
  exists ln1. cbn [length]. rewrite length_app. cbn [length]. split; [lia|].
  apply (lexes_cons p ln _ (S p) ln); [by apply (next_delimiter p ln _ _ Hd)|].
  apply (lexes_app _ _ _ _ _ _ _ _ Hlex1).
  apply lexes_one. rewrite (next_delimiter _ ln1 _ _ Hd1 Hc). do 3 f_equal. lia.
Qed.

Lemma lexes_typed {A} (marker : ascii) (text_of : A -> list ascii)
    (toks_of : A -> list Token) items post p ln :
  marker ∈ ["B"; "I"; "L"]%char ->
  Forall (fun x =>
    (exists tok rest, toks_of x = tok :: rest)
    /\ forall p post ln,
         drop p source = text_of x ++ post ->
         boundary post ->
         ln < Z.of_nat p - 1 ->
         exists ln',
           ln' < Z.of_nat (p + length (text_of x))
           /\ lexes source p ln (toks_of x) (p + length (text_of x)) ln') items ->
  drop p source
  = ("["%char :: marker :: ";"%char :: " "%char
     :: Array_join (text_of <$> items) ++ ["]"%char]) ++ post ->
  ln < Z.of_nat p - 1 ->
  exists ln',
    ln' < Z.of_nat (p + length ("["%char :: marker :: ";"%char :: " "%char
                                 :: Array_join (text_of <$> items) ++ ["]"%char]))
    /\ lexes source p ln
         (delimiter "[" :: mkToken STRING (str [marker]) :: delimiter ";"
          :: separated true (toks_of <$> items) ++ [delimiter "]"])
         (p + length ("["%char :: marker :: ";"%char :: " "%char
                      :: Array_join (text_of <$> items) ++ ["]"%char])) ln'.
Proof.
  intros Hm Hitems Hd Hln.
  cbn [app] in Hd. rewrite <- app_assoc in Hd. cbn [app] in Hd.
  set (body := Array_join (text_of <$> items)) in *.
  assert (drop (S p) source = [marker] ++ ";"%char :: " "%char :: body ++ "]"%char :: post)
    as Hd1 by (rewrite <- Nat.add_1_r; by apply (drop_after p ["["%char])).
  assert (drop (S (S p)) source = ";"%char :: " "%char :: body ++ "]"%char :: post)
    as Hd2 by (rewrite <- (Nat.add_1_r (S p)); by apply (drop_after (S p) [marker])).
  assert (drop (S (S (S p))) source = " "%char :: body ++ "]"%char :: post)
    as Hd3 by (rewrite <- (Nat.add_1_r (S (S p))); by apply (drop_after (S (S p)) [";"%char])).
  assert (drop (S (S (S (S p)))) source = body ++ "]"%char :: post)
    as Hd4 by (rewrite <- (Nat.add_1_r (S (S (S p))));
               by apply (drop_after (S (S (S p))) [" "%char])).
  destruct (lexes_joined text_of toks_of items Hitems _ ("]"%char :: post) ln Hd4)
    as (ln1 & Hln1 & Hlex1); [done|lia|].
  apply drop_after in Hd4. fold body in Hln1, Hlex1, Hd4.
  exists ln1. cbn [length]. rewrite length_app. cbn [length]. split; [lia|].
  apply (lexes_cons p ln _ (S p) ln); [by apply (next_delimiter p ln _ _ Hd)|].
  apply (lexes_cons (S p) ln _ (S (S p)) ln).
  { rewrite (next_identifier marker [] _ (S p) ln Hd1); [| | |done|lia].
    - cbn [length]. rewrite Nat.add_1_r.
      repeat (apply elem_of_cons in Hm as [->|Hm]; [reflexivity|]).
      by apply elem_of_nil in Hm.
    - repeat (apply elem_of_cons in Hm as [->|Hm]; [reflexivity|]).
      by apply elem_of_nil in Hm.
    - repeat (apply elem_of_cons in Hm as [->|Hm]; [reflexivity|]).
      by apply elem_of_nil in Hm. }
  apply (lexes_cons (S (S p)) ln _ (S (S (S p))) ln);
    [by apply (next_delimiter _ ln _ _ Hd2)|].
  apply (lexes_skip _ ln " " _ _ _ _ Hd3 includes_space);
    [apply separated_snoc_nonempty|].
  apply (lexes_app _ _ _ _ _ _ _ _ Hlex1).
  apply lexes_one. rewrite (next_delimiter _ ln1 _ _ Hd4 eq_refl). do 3 f_equal. lia.
Qed.

Lemma lexes_entry key value :
  printable_text VALID_QUOTELESS_KEY_RE (chars key) = true ->
  (forall p post ln,
      drop p source = stringify value ++ post ->
      boundary post ->
      ln < Z.of_nat p - 1 ->
      exists ln',
        ln' < Z.of_nat (p + length (stringify value))
        /\ lexes source p ln (tokens value) (p + length (stringify value)) ln') ->
  forall p post ln,
    drop p source
    = (stringifyTextEscaped (chars key) VALID_QUOTELESS_KEY_RE
       ++ chars ": " ++ stringify value) ++ post ->
    boundary post ->
    ln < Z.of_nat p - 1 ->
    exists ln',
      ln' < Z.of_nat (p + length (stringifyTextEscaped (chars key) VALID_QUOTELESS_KEY_RE
                                  ++ chars ": " ++ stringify value))
      /\ lexes source p ln (mkToken STRING key :: delimiter ":" :: tokens value)
           (p + length (stringifyTextEscaped (chars key) VALID_QUOTELESS_KEY_RE
                        ++ chars ": " ++ stringify value)) ln'.
Proof.
  intros Hkey Hvalue p post ln Hd Hpost Hln.
  change (chars ": ") with [":"; " "]%char in *.
  set (K := stringifyTextEscaped (chars key) VALID_QUOTELESS_KEY_RE) in *.
  rewrite <- !app_assoc in Hd. cbn [app] in Hd.
  pose proof (lexes_text VALID_QUOTELESS_KEY_RE (chars key)
                (":"%char :: " "%char :: stringify value ++ post) p ln) as Hlex.
  rewrite str_chars in Hlex. fold K in Hlex.
  specialize (Hlex ltac:(intros H; apply regex_starts_with_letter; by right)
                Hkey Hd eq_refl Hln).
  apply drop_after in Hd.
  assert (drop (S (p + length K)) source = " "%char :: stringify value ++ post) as Hd1
    by (rewrite <- Nat.add_1_r; by apply (drop_after _ [":"%char])).
  assert (drop (S (S (p + length K))) source = stringify value ++ post) as Hd2
    by (rewrite <- (Nat.add_1_r (S _)); by apply (drop_after _ [" "%char])).
  destruct (Hvalue _ post ln Hd2 Hpost ltac:(lia)) as (ln1 & Hln1 & Hlex1).
  assert ((p + length (K ++ [":"; " "]%char ++ stringify value))%nat
          = (S (S (p + length K)) + length (stringify value))%nat) as ->.
  { rewrite !length_app. cbn [length]. lia. }
  exists ln1. split; [done|].
  apply (lexes_app _ _ [mkToken STRING key] _ _ _ _ _ Hlex).
  apply (lexes_cons _ ln _ (S (p + length K)) ln);
    [by apply (next_delimiter _ ln _ _ Hd)|].
  apply (lexes_skip _ ln " " _ _ _ _ Hd1 includes_space); [|done].
  destruct (tokens_head value) as (tok & rest & -> & _). done.
Qed.

(** The lexer returns the tokens of a printable tag from its text. *)
Lemma lexes_stringify tag :
  forall p post ln,
    printable tag = true ->
    drop p source = stringify tag ++ post ->
    boundary post ->
    ln < Z.of_nat p - 1 ->
    exists ln',
      ln' < Z.of_nat (p + length (stringify tag))
      /\ lexes source p ln (tokens tag) (p + length (stringify tag)) ln'.
Proof.
  induction tag as [tag Hleaf|items IH|values IH] using Tag_nested_ind;
    intros p post ln Hp Hd Hpost Hln.
  - destruct tag as [v|v|v|v|v|v|v|items|values|vs|vs|vs]; try done;
      cbn [printable tokens stringify] in *;
      try (apply printable_number_spec in Hp as (z & -> & _ & Hstr & _);
           rewrite Hstr in *).
    + apply (lexes_number_suffixed _ _ post); [repeat constructor|done].
    + apply (lexes_number_suffixed _ _ post); [repeat constructor|done].
    + by apply (lexes_number_plain z post).
    + apply (lexes_number_suffixed _ _ post); [repeat constructor|done].
    + apply (lexes_number_suffixed _ _ post); [repeat constructor|done].
    + apply (lexes_number_suffixed _ _ post); [repeat constructor|done].
    + exists ln. split; [lia|]. rewrite <- (str_chars v) at 1.
      apply (lexes_text VALID_QUOTELESS_STRING_RE (chars v) post p ln); try done.
      intros H. apply regex_starts_with_letter. by left.
    + apply forallb_Forall in Hp.
      apply (lexes_typed "B" (fun item => Number_toString item ++ chars "b")
               (fun item => number_tokens (Number_toString item) (Some "b"%char))
               vs post p ln); [repeat constructor| |done|done].
      eapply Forall_impl; [exact Hp|].
      intros v (z & -> & _ & -> & _)%printable_number_spec.
      split; [by eexists _, _|]. intros p' post' ln' Hd' _ _.
      apply (lexes_number_suffixed _ _ post'); [repeat constructor|done].
    + apply forallb_Forall in Hp.
      apply (lexes_typed "I" Number_toString
               (fun item => number_tokens (Number_toString item) None)
               vs post p ln); [repeat constructor| |done|done].
      eapply Forall_impl; [exact Hp|].
      intros v (z & -> & _ & -> & _)%printable_number_spec.
      split; [by eexists _, _|]. intros p' post' ln' Hd' Hpost' _.
      by apply (lexes_number_plain z post').
    + apply (lexes_typed "L" (fun item => BigInt_toString item ++ chars "l")
               (fun item => number_tokens (BigInt_toString item) (Some "l"%char))
               vs post p ln); [repeat constructor| |done|done].
      apply Forall_forall. intros z _.
      split; [by eexists _, _|]. intros p' post' ln' Hd' _ _.
      apply (lexes_number_suffixed _ _ post'); [repeat constructor|done].
  - cbn [printable] in Hp. apply andb_true_iff in Hp as [_ Hp].
    apply forallb_Forall in Hp. rewrite stringify_compound in *.
    cbn [tokens].
    apply (lexes_bracketed "{" "}"
             (fun '(key, value) =>
                stringifyTextEscaped (chars key) VALID_QUOTELESS_KEY_RE
                ++ chars ": " ++ stringify value)
             (fun '(key, value) => mkToken STRING key :: delimiter ":" :: tokens value)
             items post p ln); [done|done| |done|lia].
    apply Forall_forall. intros [k v] Hin. split; [by eexists _, _|].
    rewrite Forall_forall in IH, Hp. specialize (Hp _ Hin). cbn beta iota in Hp.
    apply andb_true_iff in Hp as [Hk Hv].
    apply lexes_entry; [done|]. intros p' post' ln'. by apply (IH _ Hin).
  - cbn [printable] in Hp. apply andb_true_iff in Hp as [Hp _].
    apply forallb_Forall in Hp. cbn [tokens stringify] in *.
    apply (lexes_bracketed "[" "]" stringify tokens values post p ln);
      [done|done| |done|lia].
    apply Forall_forall. intros v Hin. split.
    + destruct (tokens_head v) as (tok & rest & -> & _). by eexists _, _.
    + rewrite Forall_forall in IH, Hp. intros p' post' ln'. apply (IH _ Hin).
      by apply Hp.
Qed.
End OnText.

Lemma parseSNBT_stringify tag fuel :
  printable tag = true ->
  (text_fuel tag <= fuel)%nat ->
  parseSNBT fuel (str (stringify tag)) = OK tag.
Proof.
  intros Hp Hfuel. unfold parseSNBT. rewrite chars_str.
  set (source := stringify tag).
  destruct (lexes_stringify source tag 0 [] (-777) Hp) as (ln' & _ & Hlex);
    [by rewrite app_nil_r|done|lia|].
  cbn [Nat.add] in Hlex. fold source in Hlex.
  assert (stream source (Lexer.mk (length source) ln') [mkToken EOF ""]
            (Lexer.mk (length source) ln')) as Heof.
  { apply (stream_cons _ _ _ (Lexer.mk (length source) ln')); [|constructor].
    apply next_eof. by rewrite drop_all. }
  specialize (Hlex _ _ Heof).
  destruct (tokens_head tag) as (tok & rest & Ht & _).
  pose proof Hlex as Hlex'. rewrite Ht in Hlex'. cbn [app] in Hlex'.
  apply stream_cons_inv in Hlex' as (lx1 & Hnext & Hs).
  unfold SNBTParser.parse, SNBTParser.new.
  change Lexer.new with (Lexer.mk 0 (-777)). rewrite Hnext, !bind_OK. cbv beta iota.
  destruct (parseItem_tokens source tag fuel (SNBTParser.mk lx1 tok) [mkToken EOF ""]
              (Lexer.mk (length source) ln') Hp Hfuel) as (st' & -> & _); [|done|done].
  rewrite Ht. by apply sees_intro.
Qed.

(** X10: Whatever tag is [printable] is read back from its text by
    [parseSNBT]: [parseSNBT(tag.stringify())] is [tag]. *)
Theorem text_round_trip tag fuel :
  printable tag = true ->
  (text_fuel tag <= fuel)%nat ->
  parseSNBT fuel (str (stringify tag)) = OK tag.
Proof. apply parseSNBT_stringify. Qed.

Lemma text_round_trip_witness :
  parseSNBT 13
    (str (stringify
            (CompoundTag
               [("a", IntTag (ofZ 5));
                ("b c", ListTag [StringTag "x"; StringTag "q'r s"; ByteTag (ofZ (-3))]);
                ("k.x", ByteArrayTag [ofZ 1; ofZ 2]);
                ("e", CompoundTag []);
                ("l", LongArrayTag [2 ^ 62])])))
  = OK (CompoundTag
          [("a", IntTag (ofZ 5));
           ("b c", ListTag [StringTag "x"; StringTag "q'r s"; ByteTag (ofZ (-3))]);
           ("k.x", ByteArrayTag [ofZ 1; ofZ 2]);
           ("e", CompoundTag []);
           ("l", LongArrayTag [2 ^ 62])]).
Proof.
  apply text_round_trip; [vm_compute; reflexivity|vm_compute; lia].
Defined.


(** * Where the text of a tag is not read back *)

(** ** A backslash within quotes *)

Lemma replaceAll_app pattern replacement a b :
  replaceAll pattern replacement (a ++ b)
  = replaceAll pattern replacement a ++ replaceAll pattern replacement b.
Proof.
  induction a as [|c a IH]; [done|]. cbn [app replaceAll]. by rewrite IH, app_assoc.
Qed.

Lemma escaped_cons c text :
  replaceAll "034" ["\"; "034"]%char (replaceAll "\" ["\"; "\"]%char (c :: text))
  = (if bool_decide (c = "\"%char) then ["\"; "\"]%char
     else if bool_decide (c = "034"%char) then ["\"; "034"]%char else [c])
    ++ replaceAll "034" ["\"; "034"]%char (replaceAll "\" ["\"; "\"]%char text).
Proof.
  cbn [replaceAll]. rewrite replaceAll_app. f_equal.
  case_bool_decide as Hb; [done|]. cbn [replaceAll]. by rewrite app_nil_r.
Qed.

Lemma charLoop_prefix rest opener : forall content pos content' pos',
  Lexer.charLoop rest opener content pos = OK (content', pos') ->
  exists tail, content' = content ++ tail.
Proof.
  induction rest as [rest IH] using (induction_ltof1 _ length).
  unfold ltof in IH. intros content pos content' pos'.
  destruct rest as [|c rest]; [done|]. cbn [Lexer.charLoop].
  assert ((if bool_decide (c = opener) then OK (content, pos)
           else Lexer.charLoop rest opener (content ++ [c]) (S pos)) = OK (content', pos') ->
          exists tail, content' = content ++ tail) as Hstep.
  { destruct (bool_decide (c = opener)).
    - intros [= <- <-]. exists []. by rewrite app_nil_r.
    - intros (tail & ->)%IH; [|cbn; lia]. exists ([c] ++ tail). by rewrite app_assoc. }
  destruct (bool_decide (c = "\"%char)); [|done].
  destruct rest as [|c1 rest]; [done|].
  destruct (is_quote c1); [|done].
  intros (tail & ->)%IH; [|cbn; lia]. exists ([opener] ++ tail). by rewrite app_assoc.
Qed.

Lemma charLoop_literal c1 rest content pos :
  is_quote c1 = false ->
  Lexer.charLoop ("\"%char :: c1 :: rest) "034" content pos
  = Lexer.charLoop (c1 :: rest) "034" (content ++ ["\"%char]) (S pos).
Proof. intros H. cbn [Lexer.charLoop]. by rewrite H. Qed.

Lemma charLoop_escape c1 rest content pos :
  is_quote c1 = true ->
  Lexer.charLoop ("\"%char :: c1 :: rest) "034" content pos
  = Lexer.charLoop rest "034" (content ++ ["034"%char]) (pos + 2).
Proof. intros H. cbn [Lexer.charLoop]. by rewrite H. Qed.

Lemma replicate_snoc {A} (x : A) j : replicate j x ++ [x] = x :: replicate j x.
Proof. induction j as [|j IH]; [done|]. cbn. by rewrite IH. Qed.

Lemma replicate_snoc2 {A} (x : A) j : replicate j x ++ [x; x] = x :: replicate (S j) x.
Proof. induction j as [|j IH]; [done|]. cbn [replicate app]. by rewrite IH. Qed.

Lemma escaped_backslash text :
  replaceAll "034" ["\"; "034"]%char (replaceAll "\" ["\"; "\"]%char ("\"%char :: text))
  = "\"%char :: "\"%char
    :: replaceAll "034" ["\"; "034"]%char (replaceAll "\" ["\"; "\"]%char text).
Proof. by rewrite escaped_cons. Qed.

(** A backslash of the text is printed twice, and the lexer gives two
    backslashes back for these, or a quote where the second one stands
    before a quote: what it returns is not the text. *)
Lemma charLoop_backslash suf : forall t j content pos content' pos',
  content = t ++ replicate j "\"%char ->
  Lexer.charLoop
    (replaceAll "034" ["\"; "034"]%char (replaceAll "\" ["\"; "\"]%char ("\"%char :: suf))
     ++ ["034"%char]) "034" content pos = OK (content', pos') ->
  content' <> t ++ "\"%char :: suf.
Proof.
  induction suf as [|x suf IH]; intros t j content pos content' pos' Hcontent;
    rewrite escaped_backslash; cbn [app].
  - cbn. done.
  - rewrite charLoop_literal by done.
    pose proof (escaped_cons x suf) as Hx.
    destruct (bool_decide (x = "\"%char)) eqn:Hb1.
    { apply bool_decide_eq_true in Hb1 as ->.
      rewrite escaped_backslash. cbn [app]. rewrite charLoop_literal by done.
      intros Hloop.
      pose proof (IH (t ++ ["\"%char]) (S j) ((content ++ ["\"%char]) ++ ["\"%char])
                    (S (S pos)) content' pos') as IH'.
      rewrite escaped_backslash in IH'. cbn [app] in IH'.
      apply IH' in Hloop.
      - by rewrite <- app_assoc in Hloop.
      - subst content. rewrite <- !app_assoc. f_equal. cbn [app].
        apply replicate_snoc2. }
    apply bool_decide_eq_false in Hb1.
    rewrite Hx.
    destruct (bool_decide (x = "034"%char)) eqn:Hb2.
    { apply bool_decide_eq_true in Hb2 as ->. cbn [app].
      rewrite charLoop_literal by done. rewrite charLoop_escape by done.
      intros (tail & ->)%charLoop_prefix Heq. subst content.
      rewrite <- !app_assoc in Heq. apply app_inv_head in Heq.
      destruct j as [|[|j]]; cbn in Heq; by injection Heq. }
    apply bool_decide_eq_false in Hb2. cbn [app].
    destruct (is_quote x) eqn:Hq.
    { rewrite charLoop_escape by done.
      intros (tail & ->)%charLoop_prefix Heq. subst content.
      rewrite <- !app_assoc in Heq. apply app_inv_head in Heq.
      destruct j as [|[|j]]; cbn in Heq; injection Heq; intros; by subst. }
    rewrite charLoop_literal by done.
    intros (tail & ->)%charLoop_prefix Heq. subst content.
    rewrite <- !app_assoc in Heq. apply app_inv_head in Heq.
    destruct j as [|[|j]]; cbn in Heq; injection Heq; intros; by subst.
Qed.

Lemma charLoop_plain c rest content pos :
  c <> "\"%char -> c <> "034"%char ->
  Lexer.charLoop (c :: rest) "034" content pos
  = Lexer.charLoop rest "034" (content ++ [c]) (S pos).
Proof.
  intros H1 H2. cbn [Lexer.charLoop].
  by rewrite (bool_decide_false _ H1), (bool_decide_false _ H2).
Qed.

Lemma charLoop_escaped_prefix pre : forall rest content pos,
  "\"%char ∉ pre ->
  exists pos',
    Lexer.charLoop
      (replaceAll "034" ["\"; "034"]%char (replaceAll "\" ["\"; "\"]%char pre) ++ rest)
      "034" content pos
    = Lexer.charLoop rest "034" (content ++ pre) pos'.
Proof.
  induction pre as [|c pre IH]; intros rest content pos Hpre.
  - exists pos. cbn. by rewrite app_nil_r.
  - apply not_elem_of_cons in Hpre as [Hc' Hpre]. rewrite escaped_cons.
    assert (c <> "\"%char) as Hc by (by intros ->).
    rewrite (bool_decide_false _ Hc). case_bool_decide as Hq.
    + subst c. cbn [app]. rewrite charLoop_escape by done.
      destruct (IH rest (content ++ ["034"%char]) (pos + 2)%nat Hpre) as (pos' & ->).
      exists pos'. by rewrite <- app_assoc.
    + cbn [app]. rewrite charLoop_plain by done.
      destruct (IH rest (content ++ [c]) (S pos) Hpre) as (pos' & ->).
      exists pos'. by rewrite <- app_assoc.
Qed.

Lemma quoted_backslash text pos content' pos' :
  "\"%char ∈ text ->
  Lexer.charLoop
    (replaceAll "034" ["\"; "034"]%char (replaceAll "\" ["\"; "\"]%char text)
     ++ ["034"%char]) "034" [] pos = OK (content', pos') ->
  content' <> text.
Proof.
  intros (pre & suf & -> & Hpre)%list_elem_of_split_l.
  rewrite !replaceAll_app, <- app_assoc.
  destruct (charLoop_escaped_prefix pre
              (replaceAll "034" ["\"; "034"]%char
                 (replaceAll "\" ["\"; "\"]%char ("\"%char :: suf)) ++ ["034"%char])
              [] pos Hpre) as (pos1 & ->).
  cbn [app]. apply (charLoop_backslash suf pre 0). cbn. by rewrite app_nil_r.
Qed.

(** ** What the first token decides *)

Lemma parse_first_token source tok lx fuel tag :
  Lexer.next source Lexer.new = OK (tok, lx) ->
  SNBTParser.parse source fuel = OK tag ->
  (kind tok = STRING -> tag = StringTag (value tok))
  /\ (kind tok = BOOLEAN -> exists v, tag = ByteTag v).
Proof.
  intros Hnext. unfold SNBTParser.parse, SNBTParser.new. rewrite Hnext, !bind_OK.
  cbv beta iota. destruct fuel as [|fuel]; [done|].
  rewrite parseItem_unfold. destruct tok as [k v]. intros Hparse. split; intros Hk.
  - cbn [kind] in Hk. subst k. rewrite matches_other in Hparse by done.
    rewrite matches_kind, bool_decide_true in Hparse by done.
    unfold SNBTParser.parseString, SNBTParser.eat in Hparse.
    rewrite matches_kind, bool_decide_true in Hparse by done. cbn [negb] in Hparse.
    cbn [SNBTParser.lexer SNBTParser.current] in Hparse. revert Hparse.
    destruct (Lexer.next source lx) as [[tok' lx']| |]; cbn; [|done..].
    by intros [= <-].
  - cbn [kind] in Hk. subst k. rewrite !matches_other in Hparse by done.
    rewrite matches_kind, bool_decide_true in Hparse by done.
    unfold SNBTParser.parseBoolean, SNBTParser.eat in Hparse.
    rewrite matches_kind, bool_decide_true in Hparse by done. cbn [negb] in Hparse.
    cbn [SNBTParser.lexer SNBTParser.current] in Hparse. revert Hparse.
    destruct (Lexer.next source lx) as [[tok' lx']| |]; cbn; [|done..].
    intros [= <-]. by eexists.
Qed.

Lemma identifierLoop_whole text : forall pos,
  (pos + length text <= Lexer.identifierLoop text pos)%nat ->
  forallb isIdentifierChar text = true.
Proof.
  induction text as [|c text IH]; intros pos Hl; [done|].
  cbn [Lexer.identifierLoop length forallb] in *.
  destruct (isIdentifierChar c); [|lia]. apply (IH (S pos)). lia.
Qed.

Lemma next_letter c rest :
  is_letter c = true ->
  Lexer.next (c :: rest) Lexer.new
  = OK (mkToken
          (if bool_decide (str (take (Lexer.identifierLoop (c :: rest) 0) (c :: rest)) = "true")
              || bool_decide (str (take (Lexer.identifierLoop (c :: rest) 0) (c :: rest))
                              = "false")
           then BOOLEAN else STRING)
          (str (take (Lexer.identifierLoop (c :: rest) 0) (c :: rest))),
        Lexer.mk (Lexer.identifierLoop (c :: rest) 0) (-777)).
Proof.
  intros Hc. destruct (letter_start c Hc) as (H1 & H2 & H3 & H4).
  unfold Lexer.next. cbn [Lexer.pos Lexer.new drop Lexer.nextFrom Lexer.lastNumber].
  rewrite H1, H2, H3, H4. cbn [andb bool_decide]. by rewrite Nat.sub_0_r.
Qed.

Lemma str_inj l1 l2 : str l1 = str l2 -> l1 = l2.
Proof. intros H. by rewrite <- (chars_str l1), <- (chars_str l2), H. Qed.

(** X11: A String is read back from its text exactly when it is [printable]:
    printed without quotes it must be free of digits and differ from [true]
    and [false]; printed within quotes it must be free of backslashes. *)
Theorem string_round_trip_iff text fuel :
  (0 < fuel)%nat ->
  parseSNBT fuel (str (stringify (StringTag text))) = OK (StringTag text)
  <-> printable (StringTag text) = true.
Proof.
  intros Hfuel. split; [|intros Hp; apply parseSNBT_stringify; [done|cbn; lia]].
  intros Hparse. destruct (printable (StringTag text)) eqn:Hp; [done|exfalso].
  cbn [printable] in Hp. unfold printable_text in Hp.
  unfold parseSNBT in Hparse. rewrite chars_str in Hparse.
  cbn [stringify] in Hparse. unfold stringifyTextEscaped in Hparse.
  destruct (VALID_QUOTELESS_STRING_RE (chars text)) eqn:Hre.
  - destruct (regex_starts_with_letter (chars text) (or_introl Hre))
      as (c & rest & Htext & Hc).
    rewrite Htext in Hparse, Hp.
    pose proof (next_letter c rest Hc) as Hnext.
    remember (Lexer.identifierLoop (c :: rest) 0) as n eqn:Hn.
    remember (c :: rest) as l eqn:Hl.
    destruct (parse_first_token _ _ _ _ _ Hnext Hparse) as [Hs Hb].
    cbn [kind value] in Hs, Hb.
    destruct (bool_decide _ || bool_decide _) eqn:Hkind.
    + by destruct (Hb eq_refl).
    + specialize (Hs eq_refl). injection Hs as Hs.
      rewrite <- (str_chars text), Htext in Hs. apply str_inj in Hs.
      assert (forallb isIdentifierChar l = true) as Hall.
      { apply (identifierLoop_whole _ 0). rewrite <- Hn.
        assert (length l = length (take n l)) as Hlen by (by rewrite <- Hs).
        rewrite length_take in Hlen. lia. }
      rewrite Hall in Hp. rewrite <- Hs in Hkind.
      apply orb_false_iff in Hkind as [H1 H2]. by rewrite H1, H2 in Hp.
  - apply negb_false_iff, bool_decide_eq_true in Hp.
    remember (replaceAll "034" ["\"; "034"]%char
                (replaceAll "\" ["\"; "\"]%char (chars text)) ++ ["034"%char])
      as body eqn:Hbody.
    change ("034"%char :: _ ++ ["034"%char]) with ("034"%char :: body) in Hparse.
    assert (Lexer.next ("034"%char :: body) Lexer.new
            = '(content, pos') ← Lexer.charLoop body "034" [] 1;
              OK (mkToken STRING (str content), Lexer.mk (S pos') (-777))) as Hnext.
    { unfold Lexer.next. cbn [Lexer.pos Lexer.new drop]. by rewrite nextFrom_quote. }
    destruct (Lexer.charLoop body "034" [] 1) as [[content pos']| |] eqn:Hloop.
    + rewrite bind_OK in Hnext.
      destruct (parse_first_token _ _ _ _ _ Hnext Hparse) as [Hs _].
      specialize (Hs eq_refl). injection Hs as Hs.
      subst body. apply quoted_backslash in Hloop; [|done].
      apply Hloop. rewrite <- (chars_str content). cbn [value] in Hs. by rewrite <- Hs.
    + unfold SNBTParser.parse, SNBTParser.new in Hparse. by rewrite Hnext in Hparse.
    + unfold SNBTParser.parse, SNBTParser.new in Hparse. by rewrite Hnext in Hparse.
Qed.

Lemma string_round_trip_iff_witness :
  parseSNBT 1 (str (stringify (StringTag "a1"))) = OK (StringTag "a1")
  <-> printable (StringTag "a1") = true.
Proof. apply (string_round_trip_iff "a1" 1). lia. Defined.


(** ** A name with a digit *)

Lemma first_stop (l : list ascii) :
  forallb isIdentifierChar l = false ->
  exists pre d suf,
    l = pre ++ d :: suf
    /\ forallb isIdentifierChar pre = true
    /\ isIdentifierChar d = false.
Proof.
  induction l as [|c l IH]; [done|]. cbn [forallb].
  destruct (isIdentifierChar c) eqn:Hc.
  - intros (pre & d & suf & -> & Hpre & Hd)%IH.
    exists (c :: pre), d, suf. repeat split; [|done]. cbn [forallb]. by rewrite Hc.
  - intros _. by exists [], c, l.
Qed.

Lemma is_digit_not_identifier d : is_digit d = true -> isIdentifierChar d = false.
Proof.
  intros Hd. unfold isIdentifierChar.
  assert (includes IDENTIFIER_OTHER d = false) as ->.
  { apply (not_includes (fun x => is_digit x = true)); [done|]. repeat constructor; by intros ?. }
  unfold is_digit, in_range in *.
  change (nat_of_ascii "a") with 97%nat. change (nat_of_ascii "z") with 122%nat.
  change (nat_of_ascii "A") with 65%nat. change (nat_of_ascii "Z") with 90%nat.
  apply andb_true_iff in Hd as [H1%Nat.leb_le H2%Nat.leb_le].
  rewrite (proj2 (Nat.leb_gt 97 _)) by lia. rewrite (proj2 (Nat.leb_gt 65 _)) by lia.
  done.
Qed.

Lemma next_digit source d rest p ln :
  drop p source = d :: rest ->
  is_digit d = true ->
  exists v lx, Lexer.next source (Lexer.mk p ln) = OK (mkToken NUMBER v, lx).
Proof.
  intros Hd Hdigit. destruct (number_start d (or_intror Hdigit)) as (H1 & H2 & H3 & H4).
  unfold Lexer.next. cbn [Lexer.pos]. rewrite Hd. cbn [Lexer.nextFrom].
  rewrite H1, H2, H3, andb_false_r, H4.
  destruct (Lexer.numberLoop _ _ _ _) as [content pos']. by eexists _, _.
Qed.

Lemma key_class_digit d :
  is_letter d || in_range "0" "9" d || includes ["_"; "+"; "-"; "."]%char d = true ->
  isIdentifierChar d = false ->
  is_digit d = true.
Proof.
  unfold isIdentifierChar. fold (is_letter d).
  intros H [Hl Hi]%orb_false_iff. rewrite Hl in H. cbn [orb] in H.
  apply orb_true_iff in H as [H|H]; [exact H|].
  apply bool_decide_eq_true in H. apply bool_decide_eq_false in Hi.
  exfalso. apply Hi.
  repeat (apply elem_of_cons in H as [->|H]; [repeat constructor|]).
  by apply elem_of_nil in H.
Qed.

Lemma eat_mismatch source kind' value' st :
  SNBTParser.matches kind' value' st = false ->
  SNBTParser.eat source kind' value' st
  = Err (ExpectedToken (kind_name kind') value' (value (SNBTParser.current st))).
Proof. intros Hm. unfold SNBTParser.eat. by rewrite Hm. Qed.

(** X12: A name is printed without quotes when it is made of letters, digits and
    [_ + - .], but the lexer ends an identifier at a digit: the text of a
    Compound that has such a name with a digit in it is rejected. *)
Theorem key_with_digit_is_rejected key tag fuel :
  VALID_QUOTELESS_KEY_RE (chars key) = true ->
  (exists d, d ∈ chars key /\ is_digit d = true) ->
  (2 <= fuel)%nat ->
  exists e, parseSNBT fuel (str (stringify (CompoundTag [(key, tag)]))) = Err e.
Proof.
  intros Hre (d0 & Hin & Hdig) Hfuel.
  destruct fuel as [|[|fuel]]; [lia..|].
  destruct (regex_starts_with_letter (chars key) (or_intror Hre)) as (c & rest0 & HK & Hc).
  assert (forallb isIdentifierChar (chars key) = false) as Hnotall.
  { apply not_true_is_false. intros Hall. rewrite forallb_forall in Hall.
    apply is_digit_not_identifier in Hdig. apply list_elem_of_In in Hin.
    by rewrite (Hall _ Hin) in Hdig. }
  destruct (first_stop _ Hnotall) as (pre & d & suf & Hsplit & Hpre & Hd).
  destruct (letter_start c Hc) as (_ & _ & _ & Hcid).
  destruct pre as [|c' pre'].
  { rewrite HK in Hsplit. injection Hsplit as -> _. by rewrite Hcid in Hd. }
  rewrite HK in Hsplit. injection Hsplit as <- Hrest0.
  assert (is_digit d = true) as Hdigit.
  { apply key_class_digit; [|done]. unfold VALID_QUOTELESS_KEY_RE in Hre.
    rewrite HK in Hre. apply andb_true_iff in Hre as [_ Hre].
    rewrite forallb_forall in Hre. apply Hre. rewrite Hrest0.
    apply in_or_app. right. by left. }
  unfold parseSNBT. rewrite chars_str, stringify_compound.
  cbn [fmap list_fmap Array_join]. unfold stringifyTextEscaped.
  rewrite Hre, HK, Hrest0.
  remember (suf ++ chars ": " ++ stringify tag) as tail eqn:Htail.
  assert ("{"%char :: ((c :: pre' ++ d :: suf) ++ chars ": " ++ stringify tag) ++ ["}"%char]
          = "{"%char :: (c :: pre') ++ d :: tail ++ ["}"%char]) as ->.
  { subst tail. cbn [app]. by rewrite <- !app_assoc. }
  set (source := "{"%char :: (c :: pre') ++ d :: tail ++ ["}"%char]).
  assert (Lexer.next source Lexer.new
          = OK (delimiter "{", Lexer.mk 1 (-777))) as Hnext0
    by (by apply (next_delimiter source 0 (-777) "{" ((c :: pre') ++ d :: tail ++ ["}"%char]))).
  pose proof (next_identifier_prefix source c pre' (d :: tail ++ ["}"%char]) 1 (-777)
                eq_refl Hc Hpre Hd ltac:(lia)) as Hnext1.
  destruct (next_digit source d (tail ++ ["}"%char]) (1 + length (c :: pre')) (-777))
    as (v & lx2 & Hnext2); [|done|].
  { unfold source. change (1 + length (c :: pre'))%nat with (S (length (c :: pre'))).
    change (drop (S ?n) (?a :: ?l)) with (drop n l). by rewrite drop_app_length. }
  unfold SNBTParser.parse, SNBTParser.new. rewrite Hnext0, !bind_OK. cbv beta iota.
  rewrite parseItem_unfold.
  change (delimiter "{") with (mkToken DELIMITER "{").
  rewrite !matches_other by done.
  change (SNBTParser.matches DELIMITER (Some "[") _) with false.
  change (SNBTParser.matches DELIMITER (Some "{") _) with true. cbv iota.
  rewrite (eat_OK source DELIMITER (Some "{")
             (SNBTParser.mk (Lexer.mk 1 (-777)) (mkToken DELIMITER "{")) _ _
             eq_refl Hnext1), bind_OK. cbv beta iota.
  rewrite parseCompoundLoop_unfold.
  destruct (bool_decide _ || bool_decide _).
  - rewrite matches_other by done. cbn [negb]. rewrite bind_OK. cbv beta iota.
    rewrite eat_mismatch by (by apply matches_other). by eexists.
  - rewrite matches_other by done. cbn [negb]. rewrite bind_OK. cbv beta iota.
    erewrite eat_OK; [|by rewrite matches_kind|exact Hnext2].
    rewrite bind_OK. cbv beta iota.
    rewrite eat_mismatch by (by apply matches_other). by eexists.
Qed.

Lemma key_with_digit_is_rejected_witness :
  exists e, parseSNBT 2 (str (stringify (CompoundTag [("a1", IntTag (ofZ 5))]))) = Err e.
Proof.
  apply (key_with_digit_is_rejected "a1" (IntTag (ofZ 5)) 2); [reflexivity| |lia].
  exists "1"%char. split; [|reflexivity]. apply list_elem_of_In. right. by left.
Defined.

(** ** A list that starts like a typed array *)

(** X13: A List whose first element is the String [B], [I] or [L] is printed
    as [[B, ...]] or [[B]]: that is read as the start of a typed array, and
    rejected for the lack of a semicolon. *)
Theorem list_marker_is_rejected (m : string) (items : list Tag) (fuel : nat) :
  m = "B" \/ m = "I" \/ m = "L" ->
  (0 < fuel)%nat ->
  parseSNBT fuel (str (stringify (ListTag (StringTag m :: items))))
  = Err (ExpectedToken "DELIMITER" (Some ";")
           (match items with [] => "]" | _ :: _ => "," end)).
Proof.
  intros Hm Hfuel. destruct fuel as [|fuel]; [lia|].
  unfold parseSNBT. rewrite chars_str.
  assert (exists c, is_letter c = true /\ isIdentifierChar c = true
                    /\ stringify (StringTag m) = [c] /\ m = str [c]) as (c & Hc & Hid & Hs & Hmc).
  { destruct Hm as [->|[->| ->]];
      [exists "B"%char|exists "I"%char|exists "L"%char]; repeat split. }
  cbn [stringify]. change (chars "[") with ["["%char]. change (chars "]") with ["]"%char].
  cbn [fmap list_fmap]. rewrite join_cons, Hs.
  set (post := concat ((fun x => ","%char :: " "%char :: x) <$> (stringify <$> items))
               ++ ["]"%char]).
  assert (exists s rest, post = s :: rest /\ includes CONSTANT_TOKENS s = true
                         /\ str [s] = match items with [] => "]" | _ :: _ => "," end)
    as (s & rest & Hpost & Hsc & Hsv).
  { unfold post. destruct items; eexists _, _; repeat split. }
  assert (["["%char] ++ ([c] ++ concat ((fun x => ","%char :: " "%char :: x)
                                          <$> (stringify <$> items))) ++ ["]"%char]
          = "["%char :: [c] ++ s :: rest) as ->.
  { rewrite <- Hpost. unfold post. cbn [app]. done. }
  set (source := "["%char :: [c] ++ s :: rest).
  assert (Lexer.next source Lexer.new = OK (delimiter "[", Lexer.mk 1 (-777))) as Hnext0
    by (by apply (next_delimiter source 0 (-777) "[" ([c] ++ s :: rest))).
  pose proof (next_identifier source c [] (s :: rest) 1 (-777) eq_refl Hc
                ltac:(by cbn; rewrite Hid) Hsc ltac:(lia)) as Hnext1.
  rewrite <- Hmc in Hnext1.
  assert (bool_decide (m = "true") || bool_decide (m = "false") = false) as Hb
    by (by destruct Hm as [->|[->| ->]]).
  rewrite Hb in Hnext1. cbn [length Nat.add] in Hnext1.
  pose proof (next_delimiter source 2 (-777) s rest eq_refl Hsc) as Hnext2.
  unfold SNBTParser.parse, SNBTParser.new. rewrite Hnext0, !bind_OK. cbv beta iota.
  rewrite parseItem_unfold. change (delimiter "[") with (mkToken DELIMITER "[").
  rewrite !matches_other by done.
  change (SNBTParser.matches DELIMITER (Some "[") _) with true. cbv iota.
  rewrite (eat_OK source DELIMITER (Some "[")
             (SNBTParser.mk (Lexer.mk 1 (-777)) (mkToken DELIMITER "[")) _ _
             eq_refl Hnext1), bind_OK. cbv beta iota.
  unfold SNBTParser.arrayMarker. cbn [SNBTParser.current kind value].
  assert (bool_decide (STRING = STRING)
          && (bool_decide (m = "B") || bool_decide (m = "I") || bool_decide (m = "L"))
          = true) as ->
    by (by destruct Hm as [->|[->| ->]]).
  erewrite eat_OK; [|by rewrite matches_kind|exact Hnext2].
  rewrite bind_OK. cbv beta iota.
  rewrite eat_mismatch.
  - cbn [SNBTParser.current delimiter value]. by rewrite Hsv.
  - unfold SNBTParser.matches, delimiter. cbn [SNBTParser.current kind value].
    destruct items; by injection Hpost as <- _.
Qed.

Lemma list_marker_is_rejected_witness :
  parseSNBT 1 (str (stringify (ListTag [StringTag "B"; StringTag "x"])))
  = Err (ExpectedToken "DELIMITER" (Some ";") ",").
Proof. apply (list_marker_is_rejected "B" [StringTag "x"] 1); [by left|lia]. Defined.


(** * The text parser terminates *)

Lemma bind_inv {A B} (m : result A) (f : A -> result B) b :
  m ≫= f = OK b -> exists a, m = OK a /\ f a = OK b.
Proof. destruct m as [a| |]; [|done..]. intros H. by exists a. Qed.

Lemma bind_terminates {A B} (m : result A) (f : A -> result B) :
  m <> OutOfFuel -> (forall a, m = OK a -> f a <> OutOfFuel) -> m ≫= f <> OutOfFuel.
Proof. destruct m as [a| |]; [|done..]. intros _ H. by apply H. Qed.

Lemma charLoop_terminates rest opener : forall content pos,
  Lexer.charLoop rest opener content pos <> OutOfFuel.
Proof.
  induction rest as [rest IH] using (induction_ltof1 _ length).
  unfold ltof in IH. intros content pos.
  destruct rest as [|c rest]; [done|]. cbn [Lexer.charLoop].
  assert ((if bool_decide (c = opener) then OK (content, pos)
           else Lexer.charLoop rest opener (content ++ [c]) (S pos)) <> OutOfFuel) as Hstep.
  { destruct (bool_decide (c = opener)); [done|]. apply IH. cbn. lia. }
  destruct (bool_decide (c = "\"%char)); [|done].
  destruct rest as [|c1 rest]; [done|].
  destruct (is_quote c1); [|done]. apply IH. cbn. lia.
Qed.

Lemma nextFrom_terminates rest : forall st, Lexer.nextFrom rest st <> OutOfFuel.
Proof.
  induction rest as [|c rest IH]; intros st; cbn [Lexer.nextFrom]; [done|].
  destruct (includes SKIP_CHARS c); [apply IH|].
  destruct (includes CONSTANT_TOKENS c); [done|].
  destruct (_ && _); [done|].
  destruct (_ || _); [by destruct (Lexer.numberLoop _ _ _ _)|].
  destruct (isIdentifierChar c); [done|].
  destruct (is_quote c); [|done].
  apply bind_terminates; [apply charLoop_terminates|]. by intros [content pos'] _.
Qed.

Section Termination.
Variable source : list ascii.

Lemma eat_terminates kind' value' st :
  SNBTParser.eat source kind' value' st <> OutOfFuel.
Proof.
  unfold SNBTParser.eat. destruct (negb _); [done|].
  apply bind_terminates; [apply nextFrom_terminates|]. by intros [tok lx] _.
Qed.

Lemma eat_progress kind' value' st tok st' :
  kind' <> EOF ->
  (Lexer.pos (SNBTParser.lexer st) <= length source)%nat ->
  SNBTParser.eat source kind' value' st = OK (tok, st') ->
  (Lexer.pos (SNBTParser.lexer st') <= length source)%nat
  /\ (remaining source st' < remaining source st)%nat.
Proof.
  intros Hk Hpos. unfold SNBTParser.eat, SNBTParser.matches.
  destruct (bool_decide (kind (SNBTParser.current st) = kind')) eqn:Hm; [|done].
  apply bool_decide_eq_true in Hm. cbn [andb].
  destruct (negb _); [done|].
  intros ([tok' lx] & Hnext & [= <- <-])%bind_inv.
  unfold Lexer.next in Hnext. apply nextFrom_bound in Hnext.
  rewrite length_drop in Hnext. destruct Hnext as [H1 H2].
  unfold remaining. cbn [SNBTParser.lexer SNBTParser.current].
  rewrite (decide_False (P := kind (SNBTParser.current st) = EOF)) by congruence.
  split; [lia|]. case_decide; lia.
Qed.

Lemma BigInt_terminates text : BigInt text <> OutOfFuel.
Proof.
  unfold BigInt. destruct (strip_sign _) as [neg body].
  destruct body; [by case_decide|]. by destruct (digits_value _ _).
Qed.

(** Every token that the parser eats is one that is not the end of the
    input: the state after it has less left to read. *)
Ltac eaten H :=
  let tok := fresh "tok" in
  let st := fresh "st" in
  let Hpos := fresh "Hpos" in
  let Hrem := fresh "Hrem" in
  apply bind_inv in H as ([tok st] & [Hpos Hrem]%eat_progress & H); [|done..].

Lemma eatNumberSuffixes_terminates kind' suffixes st :
  SNBTParser.eatNumberSuffixes source kind' suffixes st <> OutOfFuel.
Proof.
  unfold SNBTParser.eatNumberSuffixes. destruct (SNBTParser.matches BOOLEAN None st).
  - destruct (_ && _); [done|]. destruct (bool_decide _); [done|].
    apply bind_terminates; [apply eat_terminates|]. by intros [tok st1] _.
  - apply bind_terminates; [apply eat_terminates|]. intros [number st1] _.
    cbv zeta. destruct (_ && _); [done|]. destruct (_ && _); [done|].
    apply bind_terminates.
    + destruct (negb _); [done|].
      apply bind_terminates; [apply eat_terminates|]. by intros [tok st2] _.
    + intros [suffix st2] _. by destruct (negb _).
Qed.

Lemma eatNumberSuffixes_progress kind' suffixes st text st' :
  (Lexer.pos (SNBTParser.lexer st) <= length source)%nat ->
  SNBTParser.eatNumberSuffixes source kind' suffixes st = OK (text, st') ->
  (Lexer.pos (SNBTParser.lexer st') <= length source)%nat
  /\ (remaining source st' < remaining source st)%nat.
Proof.
  intros Hpos. unfold SNBTParser.eatNumberSuffixes.
  destruct (SNBTParser.matches BOOLEAN None st).
  - destruct (_ && _); [done|]. destruct (bool_decide _); [done|].
    intros H. eaten H. by injection H as _ <-.
  - intros H. eaten H. cbv zeta in H.
    destruct (_ && _); [done|]. destruct (_ && _); [done|].
    apply bind_inv in H as ([suffix st2] & Hs & H).
    destruct (negb (bool_decide _)); [done|]. injection H as _ <-.
    destruct (negb _).
    + by injection Hs as _ <-.
    + eaten Hs. injection Hs as _ <-. split; [done|lia].
Qed.

Lemma parseNumber_terminates st : SNBTParser.parseNumber source st <> OutOfFuel.
Proof.
  unfold SNBTParser.parseNumber.
  apply bind_terminates; [apply eat_terminates|]. intros [number st1] _. cbv zeta.
  destruct (negb _); [by destruct (bool_decide _)|].
  apply bind_terminates; [apply eat_terminates|]. intros [suffix st2] _. cbv zeta.
  repeat (destruct (_ || _); [done|]).
  destruct (_ || _).
  { apply bind_terminates; [apply BigInt_terminates|]. done. }
  repeat (destruct (_ || _); [done|]). done.
Qed.

Lemma parseNumber_progress st tag st' :
  (Lexer.pos (SNBTParser.lexer st) <= length source)%nat ->
  SNBTParser.parseNumber source st = OK (tag, st') ->
  (Lexer.pos (SNBTParser.lexer st') <= length source)%nat
  /\ (remaining source st' < remaining source st)%nat.
Proof.
  intros Hpos. unfold SNBTParser.parseNumber. intros H. eaten H. cbv zeta in H.
  destruct (negb _).
  { by destruct (bool_decide _); injection H as _ <-. }
  eaten H. cbv zeta in H.
  assert (Lexer.pos (SNBTParser.lexer st1) <= length source
          /\ remaining source st1 < remaining source st)%nat as Hgoal by (split; [done|lia]).
  repeat (destruct (_ || _); [by injection H as _ <-|]).
  destruct (_ || _).
  { apply bind_inv in H as (z & _ & H). by injection H as _ <-. }
  repeat (destruct (_ || _); [by injection H as _ <-|]). done.
Qed.

Lemma parseString_progress st tag st' :
  (Lexer.pos (SNBTParser.lexer st) <= length source)%nat ->
  SNBTParser.parseString source st = OK (tag, st') ->
  (Lexer.pos (SNBTParser.lexer st') <= length source)%nat
  /\ (remaining source st' < remaining source st)%nat.
Proof.
  intros Hpos. unfold SNBTParser.parseString. intros H. eaten H.
  by injection H as _ <-.
Qed.

Lemma parseBoolean_progress st tag st' :
  (Lexer.pos (SNBTParser.lexer st) <= length source)%nat ->
  SNBTParser.parseBoolean source st = OK (tag, st') ->
  (Lexer.pos (SNBTParser.lexer st') <= length source)%nat
  /\ (remaining source st' < remaining source st)%nat.
Proof.
  intros Hpos. unfold SNBTParser.parseBoolean. intros H. eaten H.
  by injection H as _ <-.
Qed.

Lemma arrayMarker_terminates st : SNBTParser.arrayMarker source st <> OutOfFuel.
Proof.
  unfold SNBTParser.arrayMarker. destruct (_ && _); [|done].
  apply bind_terminates; [apply eat_terminates|]. intros [tok st1] _.
  apply bind_terminates; [apply eat_terminates|]. by intros [tok2 st2] _.
Qed.

Lemma arrayMarker_progress st arrayType st' :
  (Lexer.pos (SNBTParser.lexer st) <= length source)%nat ->
  SNBTParser.arrayMarker source st = OK (arrayType, st') ->
  (Lexer.pos (SNBTParser.lexer st') <= length source)%nat
  /\ (remaining source st' <= remaining source st)%nat.
Proof.
  intros Hpos. unfold SNBTParser.arrayMarker. destruct (_ && _).
  - intros H. eaten H. eaten H. injection H as _ <-. split; [done|lia].
  - intros [= _ <-]. split; [done|lia].
Qed.

(** A tag, and a turn of a loop, that is read takes at least one token. *)
Lemma parse_progress fuel :
  (forall st tag st',
     (Lexer.pos (SNBTParser.lexer st) <= length source)%nat ->
     SNBTParser.parseItem source fuel st = OK (tag, st') ->
     (Lexer.pos (SNBTParser.lexer st') <= length source)%nat
     /\ (remaining source st' < remaining source st)%nat)
  /\ (forall first items st items' st',
        (Lexer.pos (SNBTParser.lexer st) <= length source)%nat ->
        SNBTParser.parseCompoundLoop source fuel first items st = OK (items', st') ->
        (Lexer.pos (SNBTParser.lexer st') <= length source)%nat
        /\ (remaining source st' <= remaining source st)%nat)
  /\ (forall arrayType first items st items' st',
        (Lexer.pos (SNBTParser.lexer st) <= length source)%nat ->
        SNBTParser.parseListLoop source fuel arrayType first items st = OK (items', st') ->
        (Lexer.pos (SNBTParser.lexer st') <= length source)%nat
        /\ (remaining source st' <= remaining source st)%nat).
Proof.
  induction fuel as [|fuel (IHitem & IHcompound & IHlist)]; [done|].
  split; [|split].
  - intros st tag st' Hpos. rewrite parseItem_unfold.
    destruct (SNBTParser.matches NUMBER None st); [by apply parseNumber_progress|].
    destruct (SNBTParser.matches STRING None st); [by apply parseString_progress|].
    destruct (SNBTParser.matches BOOLEAN None st); [by apply parseBoolean_progress|].
    destruct (SNBTParser.matches DELIMITER (Some "[") st).
    { intros H. eaten H.
      apply bind_inv in H as ([arrayType st1] & [Hpos1 Hrem1]%arrayMarker_progress & H);
        [|done].
      apply bind_inv in H as ([items st2] & [Hpos2 Hrem2]%IHlist & H); [|done].
      eaten H.
      assert (Lexer.pos (SNBTParser.lexer st3) <= length source
              /\ remaining source st3 < remaining source st)%nat as Hgoal
        by (split; [done|lia]).
      by repeat (destruct (bool_decide _); [by injection H as _ <-|]); injection H as _ <-. }
    destruct (SNBTParser.matches DELIMITER (Some "{") st); [|done].
    intros H. eaten H.
    apply bind_inv in H as ([items st1] & [Hpos1 Hrem1]%IHcompound & H); [|done].
    eaten H. injection H as _ <-. split; [done|lia].
  - intros first items st items' st' Hpos. rewrite parseCompoundLoop_unfold.
    destruct (SNBTParser.matches DELIMITER (Some "}") st).
    { intros [= _ <-]. split; [done|lia]. }
    intros H. apply bind_inv in H as ([tok0 st0] & H0 & H).
    assert (Lexer.pos (SNBTParser.lexer st0) <= length source
            /\ remaining source st0 <= remaining source st)%nat as [Hpos0 Hrem0].
    { destruct (negb first).
      - apply eat_progress in H0 as [? ?]; [|done..]. split; [done|lia].
      - injection H0 as _ <-. split; [done|lia]. }
    eaten H. eaten H.
    apply bind_inv in H as ([value' st3] & [Hpos3 Hrem3]%IHitem & H); [|done].
    apply IHcompound in H as [? ?]; [|done]. split; [done|lia].
  - intros arrayType first items st items' st' Hpos. rewrite parseListLoop_unfold.
    destruct (SNBTParser.matches DELIMITER (Some "]") st).
    { intros [= _ <-]. split; [done|lia]. }
    intros H. apply bind_inv in H as ([tok0 st0] & H0 & H).
    assert (Lexer.pos (SNBTParser.lexer st0) <= length source
            /\ remaining source st0 <= remaining source st)%nat as [Hpos0 Hrem0].
    { destruct (negb first).
      - apply eat_progress in H0 as [? ?]; [|done..]. split; [done|lia].
      - injection H0 as _ <-. split; [done|lia]. }
    apply bind_inv in H as ([item st1] & Hitem & H).
    assert (Lexer.pos (SNBTParser.lexer st1) <= length source
            /\ remaining source st1 < remaining source st0)%nat as [Hpos1 Hrem1].
    { repeat (destruct (bool_decide (arrayType = _));
              [apply bind_inv in Hitem
                 as ([text st2] & [? ?]%eatNumberSuffixes_progress & Hitem); [|done]|]).
      - by injection Hitem as _ <-.
      - by injection Hitem as _ <-.
      - apply bind_inv in Hitem as (z & _ & Hitem). by injection Hitem as _ <-.
      - apply bind_inv in Hitem as ([tag st2] & [? ?]%IHitem & Hitem); [|done].
        by injection Hitem as _ <-. }
    apply IHlist in H as [? ?]; [|done]. split; [done|lia].
Qed.

(** The fuel that is enough: one unit for each call and each turn of a
    loop, and each of them takes a token. *)
Lemma parse_terminates fuel :
  (forall st,
     (Lexer.pos (SNBTParser.lexer st) <= length source)%nat ->
     (2 * remaining source st + 1 <= fuel)%nat ->
     SNBTParser.parseItem source fuel st <> OutOfFuel)
  /\ (forall first items st,
        (Lexer.pos (SNBTParser.lexer st) <= length source)%nat ->
        (2 * remaining source st + 2 <= fuel)%nat ->
        SNBTParser.parseCompoundLoop source fuel first items st <> OutOfFuel)
  /\ (forall arrayType first items st,
        (Lexer.pos (SNBTParser.lexer st) <= length source)%nat ->
        (2 * remaining source st + 2 <= fuel)%nat ->
        SNBTParser.parseListLoop source fuel arrayType first items st <> OutOfFuel).
Proof.
  induction fuel as [|fuel (IHitem & IHcompound & IHlist)].
  { repeat split; intros; lia. }
  destruct (parse_progress fuel) as (Pitem & Pcompound & Plist).
  split; [|split].
  - intros st Hpos Hfuel. rewrite parseItem_unfold.
    destruct (SNBTParser.matches NUMBER None st); [apply parseNumber_terminates|].
    destruct (SNBTParser.matches STRING None st).
    { apply bind_terminates; [apply eat_terminates|]. by intros [tok st1] _. }
    destruct (SNBTParser.matches BOOLEAN None st).
    { apply bind_terminates; [apply eat_terminates|]. by intros [tok st1] _. }
    destruct (SNBTParser.matches DELIMITER (Some "[") st).
    { apply bind_terminates; [apply eat_terminates|].
      intros [tok st1] [Hpos1 Hrem1]%eat_progress; [|done..].
      apply bind_terminates; [apply arrayMarker_terminates|].
      intros [arrayType st2] [Hpos2 Hrem2]%arrayMarker_progress; [|done].
      apply bind_terminates; [apply IHlist; [done|lia]|].
      intros [items st3] _.
      apply bind_terminates; [apply eat_terminates|]. intros [tok4 st4] _.
      by repeat (destruct (bool_decide _); [done|]). }
    destruct (SNBTParser.matches DELIMITER (Some "{") st); [|done].
    apply bind_terminates; [apply eat_terminates|].
    intros [tok st1] [Hpos1 Hrem1]%eat_progress; [|done..].
    apply bind_terminates; [apply IHcompound; [done|lia]|].
    intros [items st2] _.
    apply bind_terminates; [apply eat_terminates|]. by intros [tok3 st3] _.
  - intros first items st Hpos Hfuel. rewrite parseCompoundLoop_unfold.
    destruct (SNBTParser.matches DELIMITER (Some "}") st); [done|].
    apply bind_terminates; [destruct (negb first); [apply eat_terminates|done]|].
    intros [tok0 st0] H0.
    assert (Lexer.pos (SNBTParser.lexer st0) <= length source
            /\ remaining source st0 <= remaining source st)%nat as [Hpos0 Hrem0].
    { destruct (negb first).
      - apply eat_progress in H0 as [? ?]; [|done..]. split; [done|lia].
      - injection H0 as _ <-. split; [done|lia]. }
    apply bind_terminates; [apply eat_terminates|].
    intros [key st1] [Hpos1 Hrem1]%eat_progress; [|done..].
    apply bind_terminates; [apply eat_terminates|].
    intros [tok2 st2] [Hpos2 Hrem2]%eat_progress; [|done..].
    apply bind_terminates; [apply IHitem; [done|lia]|].
    intros [value' st3] [Hpos3 Hrem3]%Pitem; [|done].
    apply IHcompound; [done|lia].
  - intros arrayType first items st Hpos Hfuel. rewrite parseListLoop_unfold.
    destruct (SNBTParser.matches DELIMITER (Some "]") st); [done|].
    apply bind_terminates; [destruct (negb first); [apply eat_terminates|done]|].
    intros [tok0 st0] H0.
    assert (Lexer.pos (SNBTParser.lexer st0) <= length source
            /\ remaining source st0 <= remaining source st)%nat as [Hpos0 Hrem0].
    { destruct (negb first).
      - apply eat_progress in H0 as [? ?]; [|done..]. split; [done|lia].
      - injection H0 as _ <-. split; [done|lia]. }
    apply bind_terminates.
    { repeat (destruct (bool_decide (arrayType = _));
              [apply bind_terminates; [apply eatNumberSuffixes_terminates|];
               intros [text st2] _|]).
      - done.
      - done.
      - apply bind_terminates; [apply BigInt_terminates|]. done.
      - apply bind_terminates; [apply IHitem; [done|lia]|]. by intros [tag st2] _. }
    intros [item st1] Hitem.
    assert (Lexer.pos (SNBTParser.lexer st1) <= length source
            /\ remaining source st1 < remaining source st0)%nat as [Hpos1 Hrem1].
    { repeat (destruct (bool_decide (arrayType = _));
              [apply bind_inv in Hitem
                 as ([text st2] & [? ?]%eatNumberSuffixes_progress & Hitem); [|done]|]).
      - by injection Hitem as _ <-.
      - by injection Hitem as _ <-.
      - apply bind_inv in Hitem as (z & _ & Hitem). by injection Hitem as _ <-.
      - apply bind_inv in Hitem as ([tag st2] & [? ?]%Pitem & Hitem); [|done].
        by injection Hitem as _ <-. }
    apply IHlist; [done|lia].
Qed.
End Termination.

Lemma length_chars data : length (String.list_ascii_of_string data) = String.length data.
Proof. induction data as [|c data IH]; [done|]. cbn. by rewrite IH. Qed.

(** X14: The text parser returns on every input: its loops take a token at each
    turn, so that twice the length of the text, and one, is fuel enough for
    a tag or an error. *)
Theorem text_parser_terminates (data : string) (fuel : nat) :
  (2 * String.length data + 1 <= fuel)%nat ->
  (exists tag, parseSNBT fuel data = OK tag) \/ (exists e, parseSNBT fuel data = Err e).
Proof.
  intros Hfuel.
  assert (parseSNBT fuel data <> OutOfFuel) as H.
  { unfold parseSNBT, SNBTParser.parse, SNBTParser.new. rewrite <- length_chars in Hfuel.
    set (source := String.list_ascii_of_string data) in *.
    apply bind_terminates.
    - apply bind_terminates; [apply nextFrom_terminates|]. by intros [tok lx] _.
    - intros st ([tok lx] & Hnext & [= <-])%bind_inv.
      unfold Lexer.next in Hnext. apply nextFrom_bound in Hnext.
      rewrite length_drop in Hnext. cbn [Lexer.pos Lexer.new] in Hnext.
      destruct Hnext as [H1 H2].
      apply bind_terminates; [|by intros [tag st'] _].
      apply parse_terminates; cbn [SNBTParser.lexer]; [lia|].
      unfold remaining. cbn [SNBTParser.lexer SNBTParser.current].
      case_decide; lia. }
  destruct (parseSNBT fuel data) as [tag|e|]; [left|right|done]; by eexists.
Qed.

Lemma text_parser_terminates_witness :
  (exists tag, parseSNBT 13 "[1, {a" = OK tag) \/ (exists e, parseSNBT 13 "[1, {a" = Err e).
Proof. apply (text_parser_terminates "[1, {a" 13). cbn. lia. Defined.


(** * An input on which the binary reader does not return *)

Lemma bind_OutOfFuel {A B} (f : A -> result B) : (OutOfFuel ≫= f) = OutOfFuel.
Proof. reflexivity. Qed.

(** A List of Lists whose first element is a List of one ByteArray of the
    length -14: the ByteArray moves the position back to the outer List,
    which is then read again as its own second element. *)
Lemma parseList_recurs data p n b :
  seg data p (TAG_List :: be_bytes 4 n ++ TAG_Byte_Array :: be_bytes 4 1
              ++ be_bytes 4 (-14) ++ [b]) ->
  2 <= n < 2 ^ 31 ->
  forall fuel,
    NBTParser.parseFromTagType data fuel (Some TAG_List) (Z.of_nat p) = OutOfFuel.
Proof.
  intros Hseg Hn.
  pose proof (seg_length _ _ _ Hseg) as Hlen.
  cbn [length] in Hlen. rewrite !length_app, !length_be_bytes in Hlen.
  cbn [length] in Hlen. rewrite !length_app, !length_be_bytes in Hlen.
  cbn [length] in Hlen.
  apply seg_cons in Hseg as [Hid Hseg].
  apply seg_app in Hseg as [Hcount Hseg]. rewrite length_be_bytes in Hseg.
  apply seg_cons in Hseg as [Hid1 Hseg].
  apply seg_app in Hseg as [Hcount1 Hseg]. rewrite length_be_bytes in Hseg.
  apply seg_app in Hseg as [Hlength _].
  assert (exists m, Z.to_nat n = S (S m)) as [m Hm] by (exists (Z.to_nat n - 2)%nat; lia).
  induction fuel as [|fuel IH]; [done|].
  rewrite parseFromTagType_List. unfold NBTParser.parseList at 1.
  rewrite (expectByte_seg data _ _ Hid), bind_OK. cbv beta iota.
  pose proof (readInteger_seg data 4 (S p) n) as Hr.
  change (Z.of_nat 4) with 4 in Hr. rewrite Hr; [|lia|done|lia|lia]. clear Hr.
  rewrite bind_OK. cbv beta iota. rewrite Hm. cbn [NBTParser.parseListItems].
  destruct fuel as [|fuel]; [done|].
  rewrite parseFromTagType_List. unfold NBTParser.parseList at 1.
  rewrite (expectByte_seg data _ _ Hid1), bind_OK. cbv beta iota.
  pose proof (readInteger_seg data 4 (S (S p + 4)) 1) as Hr.
  change (Z.of_nat 4) with 4 in Hr. rewrite Hr; [|lia|done|lia|lia]. clear Hr.
  rewrite bind_OK. cbv beta iota.
  change (Z.to_nat 1) with 1%nat. cbn [NBTParser.parseListItems].
  destruct fuel as [|fuel]; [done|].
  rewrite parseFromTagType_S. rewrite !decide_False by discriminate.
  rewrite decide_True by done. unfold NBTParser.parseByteArray.
  pose proof (readInteger_seg data 4 (S (S p + 4) + 4) (-14)) as Hr.
  change (Z.of_nat 4) with 4 in Hr. rewrite Hr; [|lia|done|lia|lia]. clear Hr.
  rewrite bind_OK. cbv beta iota.
  rewrite (proj2 (Z.leb_gt _ _)) by lia.
  rewrite !bind_OK. cbv beta iota.
  replace (Z.of_nat (S (S p + 4) + 4 + 4) + -14) with (Z.of_nat p) by lia.
  change (NBTParser.isWrapped (ByteArrayTag _)) with false. cbn [negb]. cbv iota.
  rewrite bind_OK. cbv beta iota. by rewrite IH.
Qed.

(** X15: The length of a ByteArray may be negative, and then moves the position
    backwards: a List can be laid out so that it is read again as its own
    second element.  On such an input the reader never returns, whatever
    the fuel: the recursion of [parseList] has no end. *)
Theorem parse_never_returns name n b rest fuel :
  Z.of_nat (length (TextEncoder_encode name)) < 65536 ->
  2 <= n < 2 ^ 31 ->
  parseNBT fuel
    (TAG_List :: encodeString name
     ++ (TAG_List :: be_bytes 4 n ++ TAG_Byte_Array :: be_bytes 4 1
         ++ be_bytes 4 (-14) ++ [b]) ++ rest)
  = OutOfFuel.
Proof.
  intros Hname Hn.
  set (body := TAG_List :: be_bytes 4 n ++ TAG_Byte_Array :: be_bytes 4 1
               ++ be_bytes 4 (-14) ++ [b]).
  set (data := TAG_List :: encodeString name ++ body ++ rest).
  rewrite (parse_first_byte data fuel TAG_List _ eq_refl) by done.
  assert (seg data 1 (encodeString name)) as Hseg by (by exists [TAG_List], (body ++ rest)).
  pose proof (parseString_bytes data 1 name Hseg Hname) as Hs.
  change (Z.of_nat 1) with 1 in Hs. rewrite Hs.
  2:{ unfold data, body. cbn [length]. rewrite !length_app. cbn [length]. lia. }
  rewrite bind_OK. cbv beta iota.
  rewrite (parseList_recurs data (1 + length (encodeString name)) n b); [done| |done].
  exists (TAG_List :: encodeString name), rest. split; [|done].
  unfold data. by rewrite app_comm_cons.
Qed.

Lemma parse_never_returns_witness :
  parseNBT 40 [9; 0; 0; 9; 0; 0; 0; 2; 7; 0; 0; 0; 1; 255; 255; 255; 242; 0] = OutOfFuel.
Proof.
  assert (TAG_List :: encodeString ""
          ++ (TAG_List :: be_bytes 4 2 ++ TAG_Byte_Array :: be_bytes 4 1
              ++ be_bytes 4 (-14) ++ [0]) ++ []
          = [9; 0; 0; 9; 0; 0; 0; 2; 7; 0; 0; 0; 1; 255; 255; 255; 242; 0]) as <-
    by (vm_compute; reflexivity).
  refine (parse_never_returns "" 2 0 [] 40 _ _); [cbn; lia|lia].
Defined.


(** * Repeated names: the two readers differ *)

Lemma get_app {V} (k : string) (l1 l2 : list (string * V)) :
  JsMap.get k (l1 ++ l2)
  = match JsMap.get k l1 with Some v => Some v | None => JsMap.get k l2 end.
Proof.
  induction l1 as [|[k' v'] l1 IH]; [done|]. cbn. by case_decide.
Qed.

(** After the loop, a name has the last of the values that the entries
    give it, or else the value it had before. *)
Lemma get_set_all {V} (entries : list (string * V)) : forall items k,
  JsMap.get k (set_all entries items)
  = match last_value entries k with Some v => Some v | None => JsMap.get k items end.
Proof.
  unfold last_value.
  induction entries as [|[k0 v0] entries IH]; intros items k; [done|].
  cbn [set_all foldl]. fold (set_all entries (JsMap.set k0 v0 items)).
  rewrite IH, reverse_cons, get_app. destruct (JsMap.get k (reverse entries)); [done|].
  cbn. case_decide as Hk; [subst; apply get_set|by apply get_set_other].
Qed.

Lemma parseSNBT_compound_text (entries : list (string * Tag)) fuel :
  forallb (fun '(key, value) =>
             printable_text VALID_QUOTELESS_KEY_RE (chars key) && printable value)
    entries = true ->
  (text_fuel (CompoundTag entries) <= fuel)%nat ->
  parseSNBT fuel (str (compound_text entries)) = OK (CompoundTag (set_all entries [])).
Proof.
  intros Hp Hfuel. unfold parseSNBT. rewrite chars_str.
  set (source := compound_text entries).
  apply forallb_Forall in Hp.
  destruct (lexes_bracketed source "{" "}"
              (fun '(key, value) =>
                 stringifyTextEscaped (chars key) VALID_QUOTELESS_KEY_RE
                 ++ chars ": " ++ stringify value)
              (fun '(key, value) => mkToken STRING key :: delimiter ":" :: tokens value)
              entries [] 0 (-777)) as (ln' & _ & Hlex); [done|done| | |lia|].
  { eapply Forall_impl; [exact Hp|]. intros [k v] [Hk Hv]%andb_true_iff.
    split; [by eexists _, _|]. apply lexes_entry; [done|].
    intros p' post' ln'. by apply lexes_stringify. }
  { by rewrite app_nil_r. }
  cbn [Nat.add] in Hlex. fold (compound_text entries) in Hlex. fold source in Hlex.
  assert (stream source (Lexer.mk (length source) ln') [mkToken EOF ""]
            (Lexer.mk (length source) ln')) as Heof.
  { apply (stream_cons _ _ _ (Lexer.mk (length source) ln')); [|constructor].
    apply next_eof. by rewrite drop_all. }
  specialize (Hlex _ _ Heof).
  pose proof Hlex as Hlex'. cbn [app] in Hlex'.
  apply stream_cons_inv in Hlex' as (lx1 & Hnext & Hs).
  unfold SNBTParser.parse, SNBTParser.new.
  change Lexer.new with (Lexer.mk 0 (-777)). rewrite Hnext, !bind_OK. cbv beta iota.
  cbn [text_fuel] in Hfuel. destruct fuel as [|fuel]; [lia|].
  destruct (parseItem_compound_repeated source entries fuel
              (SNBTParser.mk lx1 (delimiter "{")) [mkToken EOF ""]
              (Lexer.mk (length source) ln')) as (st' & -> & _); [|lia| |done|done].
  - eapply Forall_impl; [exact Hp|]. intros [k v] [_ Hv]%andb_true_iff.
    intros fuel' st toks lxE. by apply parseItem_tokens.
  - cbn [tokens]. by apply sees_intro.
Qed.

(** C7: the two readers differ on a repeated name.  In the binary form,
    whenever the bytes of a Compound hold consecutive well-formed entries
    among which a name occurs twice, [parseCompound] fails with the
    duplicate-key error on one of these names, whatever the entries read
    before.  In the textual form no text of a compound is refused for a
    repeated name: whatever the entries are, as long as their names and
    values are [printable], the text [{name: value, ...}] of the entries in
    their order, repeated names included, is read as the Compound that
    [Map.set] builds from them, where a name has the last of the values
    given to it; so the text [{a: 1, a: 2}] is the compound [{a: 2}]. *)
Theorem duplicate_key_asymmetry :
  (forall data fuel pos entries pos' items fuel',
      reads_entries data fuel pos entries pos' ->
      ~ NoDup entries.*1 ->
      (fuel + length entries <= fuel')%nat ->
      exists name,
        name ∈ entries.*1
        /\ NBTParser.parseCompound data fuel' pos items = Err (DuplicateKey name))
  /\ (forall (entries : list (string * Tag)) fuel,
        forallb (fun '(key, value) =>
                   printable_text VALID_QUOTELESS_KEY_RE (chars key) && printable value)
          entries = true ->
        (text_fuel (CompoundTag entries) <= fuel)%nat ->
        parseSNBT fuel (str (compound_text entries))
        = OK (CompoundTag (set_all entries [])))
  /\ (forall (entries : list (string * Tag)) name,
        compound_get (set_all entries []) name = last_value entries name)
  /\ (forall (k : string) (v : Tag) (items : list (string * Tag)),
        JsMap.has k items = true ->
        JsMap.get k (JsMap.set k v items) = Some v
        /\ JsMap.keys (JsMap.set k v items) = JsMap.keys items)
  /\ (forall fuel, parseSNBT (S (S (S (S fuel)))) "{a: 1, a: 2}"
                   = OK (CompoundTag [("a", IntTag (Finite 2 0))])).
Proof.
  split; [|split; [|split; [|split]]].
  - intros data fuel pos entries pos' items fuel' Hr Hn Hf.
    eapply parseCompound_duplicate; eauto.
  - intros entries fuel. apply parseSNBT_compound_text.
  - intros entries name. unfold compound_get. rewrite get_set_all.
    by destruct (last_value entries name).
  - intros k v items Hk%has_true. split; [apply get_set|by apply keys_set_present].
  - intros fuel. reflexivity.
Qed.

(** Two Byte entries named [a], then End; and the text
    [{a: 1, b: 2, a: 3}]. *)
Lemma duplicate_key_asymmetry_witness :
  (exists name,
      name ∈ [("a", ByteTag (ofZ 5)); ("a", ByteTag (ofZ 6))].*1
      /\ NBTParser.parseCompound [1; 0; 1; 97; 5; 1; 0; 1; 97; 6; 0] 3 0 []
         = Err (DuplicateKey name))
  /\ parseSNBT 6
       (str (compound_text
               [("a", IntTag (ofZ 1)); ("b", IntTag (ofZ 2)); ("a", IntTag (ofZ 3))]))
     = OK (CompoundTag [("a", IntTag (ofZ 3)); ("b", IntTag (ofZ 2))]).
Proof.
  split.
  - apply (proj1 duplicate_key_asymmetry [1; 0; 1; 97; 5; 1; 0; 1; 97; 6; 0] 1%nat 0
             [("a", ByteTag (ofZ 5)); ("a", ByteTag (ofZ 6))] 10 [] 3%nat).
    + eapply reads_entry; [reflexivity|discriminate|reflexivity|reflexivity|].
      eapply reads_entry; [reflexivity|discriminate|reflexivity|reflexivity|].
      apply reads_done.
    + intros Hn. apply NoDup_cons in Hn as [Hn _]. apply Hn. apply list_elem_of_here.
    + cbn. lia.
  - refine (proj1 (proj2 duplicate_key_asymmetry)
              [("a", IntTag (ofZ 1)); ("b", IntTag (ofZ 2)); ("a", IntTag (ofZ 3))]
              6%nat _ _); [reflexivity|cbn; lia].
Defined.
